(** * FRIK skeleton: per-frame body pose of the VR player

    A shallow embedding of the parts of [Skeleton.cpp] that place the
    body, the legs, the arms and the fingers, and the properties of
    these functions.

    Numbers.  The C++ code computes in [float] and [double].  The
    embedding is written once over an interface [Scalar] of the
    arithmetic, comparison, classification and <cmath> operations the
    code uses; [float] and [double] are not told apart.  Two models of
    the interface are given: IEEE binary32 ([F32], computed with the
    standard library's [SpecFloat]) and exact real arithmetic extended
    with NaN and the two infinities ([XR]).

    Helper code.  [common/Matrix.h], [common/CommonUtils.h] and
    [f4vr/F4VRUtils.h] are not part of the sources at hand; what the
    skeleton code calls from them is collected in the interface
    [Helpers] and every property is proved for all helpers, or under
    an explicit assumption on them. *)

From Stdlib Require Import ZArith QArith Qreals Reals Lra Lia Bool Ascii String.
From Stdlib Require Import Floats.SpecFloat.
From stdpp Require Import base option list gmap strings.

Set Default Proof Using "Type".

(** ** Scalars *)

(** The operations of [float]/[double] used by the skeleton code.
    [flt x y] is the C++ [x < y] and [fle x y] is [x <= y]; both are
    false as soon as one side is NaN, so [x > y] is [flt y x] and not
    the negation of [fle x y]. *)
Class Scalar := {
  num : Type;
  lit : Q -> num;
  fadd : num -> num -> num;
  fsub : num -> num -> num;
  fmul : num -> num -> num;
  fdiv : num -> num -> num;
  fneg : num -> num;
  flt : num -> num -> bool;
  fle : num -> num -> bool;
  isnan : num -> bool;
  isinf : num -> bool;
  fabs : num -> num;
  fsqrt : num -> num;
  cosf : num -> num;
  sinf : num -> num;
  acosf : num -> num;
  asinf : num -> num;
  atan2f : num -> num -> num
}.

Declare Scope fl_scope.
Delimit Scope fl_scope with fl.
Bind Scope fl_scope with num.
Arguments lit {_} _%_Q.

Notation "x + y" := (fadd x y) : fl_scope.
Notation "x - y" := (fsub x y) : fl_scope.
Notation "x * y" := (fmul x y) : fl_scope.
Notation "x / y" := (fdiv x y) : fl_scope.
Notation "- x" := (fneg x) : fl_scope.
Notation "x <? y" := (flt x y) : fl_scope.
Notation "x >? y" := (flt y x) (only parsing) : fl_scope.
Notation "x <=? y" := (fle x y) : fl_scope.
Notation "x >=? y" := (fle y x) (only parsing) : fl_scope.

Section Std.
Context `{Scalar}.
Local Open Scope fl_scope.

(** [std::clamp(v, lo, hi)], [std::max(a, b)] and [std::min(a, b)] as
    the C++ standard defines them, with [<] only. *)
Definition std_clamp (v lo hi : num) : num :=
  if v <? lo then lo else if hi <? v then hi else v.

Definition std_max (a b : num) : num := if a <? b then b else a.

Definition std_min (a b : num) : num := if b <? a then b else a.

(** ** Engine types: [NiPoint3], [NiMatrix43], [NiTransform] *)

Record NiPoint3 := mkPoint { x : num; y : num; z : num }.

(** Rows of the rotation; the fourth, padding, column of the engine's
    type is never read by the skeleton code. *)
Record NiMatrix43 := mkMatrix { row0 : NiPoint3; row1 : NiPoint3; row2 : NiPoint3 }.

Record NiTransform := mkTransform { rot : NiMatrix43; pos : NiPoint3; scale : num }.

Definition set_rot (t : NiTransform) (r : NiMatrix43) : NiTransform :=
  mkTransform r (pos t) (scale t).

Definition set_pos (t : NiTransform) (p : NiPoint3) : NiTransform :=
  mkTransform (rot t) p (scale t).

Definition set_z (p : NiPoint3) (v : num) : NiPoint3 := mkPoint (x p) (y p) v.

Definition set_x (p : NiPoint3) (v : num) : NiPoint3 := mkPoint v (y p) (z p).

(** The engine's operators on points: [p + q], [p - q], [p * f],
    [p / f], [-p]. *)
Definition vadd (p q : NiPoint3) : NiPoint3 :=
  mkPoint (x p + x q) (y p + y q) (z p + z q).

Definition vsub (p q : NiPoint3) : NiPoint3 :=
  mkPoint (x p - x q) (y p - y q) (z p - z q).

Definition vscale (p : NiPoint3) (f : num) : NiPoint3 :=
  mkPoint (x p * f) (y p * f) (z p * f).

Definition vdiv (p : NiPoint3) (f : num) : NiPoint3 :=
  mkPoint (x p / f) (y p / f) (z p / f).

Definition vneg (p : NiPoint3) : NiPoint3 := mkPoint (- x p) (- y p) (- z p).

(** [m * p] and [m.Transpose()]. *)
Definition row_dot (r p : NiPoint3) : num := x r * x p + y r * y p + z r * z p.

Definition mat_vec (m : NiMatrix43) (p : NiPoint3) : NiPoint3 :=
  mkPoint (row_dot (row0 m) p) (row_dot (row1 m) p) (row_dot (row2 m) p).

Definition Transpose (m : NiMatrix43) : NiMatrix43 :=
  mkMatrix (mkPoint (x (row0 m)) (x (row1 m)) (x (row2 m)))
           (mkPoint (y (row0 m)) (y (row1 m)) (y (row2 m)))
           (mkPoint (z (row0 m)) (z (row1 m)) (z (row2 m))).

Definition pt (a b c : Q) : NiPoint3 := mkPoint (lit a) (lit b) (lit c).

Definition zero3 : NiPoint3 := pt 0 0 0.

(** A scene-graph node, as far as the skeleton code reads and writes
    it. *)
Record NiNode := mkNode { m_localTransform : NiTransform; m_worldTransform : NiTransform }.

Definition set_local (n : NiNode) (t : NiTransform) : NiNode :=
  mkNode t (m_worldTransform n).

Definition set_world (n : NiNode) (t : NiTransform) : NiNode :=
  mkNode (m_localTransform n) t.

(** [Matrix44] has a public array [data[4][4]]; its methods are in
    [Helpers]. *)
Record Matrix44 := mkMatrix44 { data : list (list num) }.

Definition set_data (m : Matrix44) (i j : nat) (v : num) : Matrix44 :=
  mkMatrix44 (alter (fun r => <[j := v]> r) i (data m)).

(** The bones of one arm ([ArmNodes]) that [setArms] uses.  The
    second and third forearm segments are tested for null by the
    code. *)
Record ArmNodes := mkArm {
  shoulder : NiNode;
  upper : NiNode;
  forearm1 : NiNode;
  forearm2 : option NiNode;
  forearm3 : option NiNode;
  hand : NiNode
}.

End Std.

Arguments NiPoint3 {_}.
Arguments NiMatrix43 {_}.
Arguments NiTransform {_}.
Arguments NiNode {_}.
Arguments Matrix44 {_}.
Arguments ArmNodes {_}.

Notation "p +v q" := (vadd p q) (at level 50, left associativity).
Notation "p -v q" := (vsub p q) (at level 50, left associativity).
Notation "p *v f" := (vscale p f) (at level 40, left associativity).
Notation "p /v f" := (vdiv p f) (at level 40, left associativity).
Notation "m *m p" := (mat_vec m p) (at level 40, left associativity).

(** ** Helper code outside the sources at hand

    [Matrix44] and [Quaternion] methods that change the object they
    are called on take the object and return the changed one. *)
Class Helpers `{Scalar} := {
  (* common/CommonUtils.h *)
  PI : num;
  degreesToRads : num -> num;
  vec3Len : NiPoint3 -> num;
  vec3Norm : NiPoint3 -> NiPoint3;
  vec3Dot : NiPoint3 -> NiPoint3 -> num;
  vec3Det : NiPoint3 -> NiPoint3 -> NiPoint3 -> num;
  rotateXY : NiPoint3 -> num -> NiPoint3;
  getRotationAxisAngle : NiPoint3 -> num -> NiMatrix43;
  (* common/Matrix.h *)
  Matrix44_new : Matrix44;
  Matrix44_assign : Matrix44 -> num -> Matrix44;
  setEulerAngles : Matrix44 -> num -> num -> num -> Matrix44;
  rotateVectorVec : Matrix44 -> NiPoint3 -> NiPoint3 -> Matrix44;
  makeTransformMatrix : Matrix44 -> NiMatrix43 -> NiPoint3 -> Matrix44;
  multiply43Left : Matrix44 -> NiMatrix43 -> NiMatrix43;
  multiply43Right : Matrix44 -> NiMatrix43 -> NiMatrix43;
  make43 : Matrix44 -> NiMatrix43;
  Quaternion : Type;
  Quaternion_new : Quaternion;
  fromRot : Quaternion -> NiMatrix43 -> Quaternion;
  slerp : Quaternion -> num -> Quaternion -> Quaternion;
  getRot : Quaternion -> Matrix44;
  (* f4vr/F4VRUtils.h: recomputing world transforms, of a node and
     below it; [updateDownArm] is [updateDown] called on a collar
     bone, below which the arm lies *)
  updateTransforms : NiNode -> NiNode;
  updateDown : NiNode -> bool -> NiNode;
  updateDownArm : ArmNodes -> bool -> ArmNodes;
  (* the game: places the two first-person hands for a weapon node and
     an offset node *)
  Update1StPersonArm : NiNode -> NiNode -> NiNode * NiNode -> NiNode * NiNode;
  (* the engine's default-constructed values *)
  NiTransform_new : NiTransform;
  NiMatrix43_new : NiMatrix43
}.

Section Model.
Context `{Scalar} `{!Helpers}.
Local Open Scope fl_scope.

(** ** The flattened bone tree *)

(** One entry of [BSFlattenedBoneTree::transforms].  [parPos] is a
    [short]; [refNode], when not null, is the scene-graph node the
    entry mirrors (each entry has a node of its own). *)
Record BoneTransforms := mkBone {
  local : NiTransform;
  world : NiTransform;
  parPos : Z;
  refNode : option NiNode
}.

Definition set_bone_local (b : BoneTransforms) (t : NiTransform) : BoneTransforms :=
  mkBone t (world b) (parPos b) (refNode b).

Definition set_bone_world (b : BoneTransforms) (t : NiTransform) : BoneTransforms :=
  mkBone (local b) t (parPos b) (refNode b).

Definition set_bone_refNode (b : BoneTransforms) (n : option NiNode) : BoneTransforms :=
  mkBone (local b) (world b) (parPos b) n.

(** [transforms[i]] for a signed index; reading outside the array is
    undefined in C++ and a failure here. *)
Definition at_index {A} (l : list A) (i : Z) : option A :=
  if (0 <=? i)%Z then l !! Z.to_nat i else None.

(** The world transform of an entry from its parent's: the statements
    of [rotateLeg] and of the last branch of [setHandPose]'s loop.
    [work] is the [Matrix44] object [rot] of the caller. *)
Definition world_pos_of (parent : BoneTransforms) (lp : NiPoint3) : NiPoint3 :=
  pos (world parent) +v rot (world parent) *m (lp *v scale (world parent)).

Definition world_rot_of (work : Matrix44) (parent : BoneTransforms) (lr : NiMatrix43) : NiMatrix43 :=
  multiply43Left (makeTransformMatrix work lr zero3) (rot (world parent)).

(** [Skeleton::rotateLeg(pos, angle)]. *)
Definition rotateLeg (rt : list BoneTransforms) (i : nat) (angle : num)
  : option (list BoneTransforms) :=
  let rot0 := setEulerAngles Matrix44_new (degreesToRads angle) (lit 0) (lit 0) in
  transform ← rt !! i;
  let transform := set_bone_local transform
                     (set_rot (local transform) (multiply43Left rot0 (rot (local transform)))) in
  let rt := <[i := transform]> rt in
  parentTransform ← at_index rt (parPos transform);
  let transform := set_bone_world transform
                     (set_pos (world transform)
                        (world_pos_of parentTransform (pos (local transform)))) in
  let transform := set_bone_world transform
                     (set_rot (world transform)
                        (world_rot_of rot0 parentTransform (rot (local transform)))) in
  Some (<[i := transform]> rt).

(** ** Finger poses *)

(** [s.find(sub) != std::string::npos]. *)
Definition contains (s sub : string) : bool :=
  match String.index 0 sub s with Some _ => true | None => false end.

(** [m[k]] on a [std::map]: a missing key reads as the
    value-initialised [d].  (The entry that [operator[]] stores for a
    missing key holds that same value, so it is not recorded.) *)
Definition map_index {V} (d : V) (m : gmap string V) (k : string) : V :=
  default d (m !! k).

(** OpenVR: [vr::ButtonMaskFromId] and the button ids used. *)
Definition ButtonMaskFromId (id : Z) : Z := Z.shiftl 1 id.
Definition k_EButton_Grip : Z := 2.
Definition k_EButton_SteamVR_Touchpad : Z := 32.
Definition k_EButton_SteamVR_Trigger : Z := 33.

Definition has_button (reg : Z) (id : Z) : bool :=
  negb (Z.land reg (ButtonMaskFromId id) =? 0)%Z.

(** What the hand-pose code reads and does not write. *)
Record HandInput := mkHandInput {
  _fingerRelations : gmap string (string * string);
  _handBonesButton : gmap string Z;
  handOpen : gmap string NiTransform;
  handClosed : gmap string NiTransform;
  handPapyrusHasControl : gmap string bool;
  handPapyrusPose : gmap string num;
  leftButtonTouched : Z;
  rightButtonTouched : Z;
  leftGripAxis : num;
  rightGripAxis : num;
  isWeaponVisible : bool;
  isPipboyOn : bool;
  isOperatingPipboy : bool;
  hand_isLeftHandedMode : bool;
  hand_frameTime : num;
  fpTransforms : list BoneTransforms;
  fpBoneIndex : gmap string nat
}.

(** What it writes. *)
Record HandState := mkHandState {
  transforms : list BoneTransforms;
  _handBones : gmap string NiTransform;
  _closedHand : gmap string bool
}.

(** The target rotation [qt] that [calculateHandPose] blends towards:
    the [if]/[else if] chain of the function.  [_handBonesButton.at]
    throws on a missing bone. *)
Definition handPoseTarget (inp : HandInput) (closed : gmap string bool)
    (bone : string) (gripProx : num) (thumbUp isLeft : bool) : option Quaternion :=
  let qt := Quaternion_new in
  let sign := if isLeft then lit (-1) else lit 1 in
  if map_index false (handPapyrusHasControl inp) bone then
    let qt := fromRot qt (rot (map_index NiTransform_new (handOpen inp) bone)) in
    let qo := fromRot Quaternion_new (rot (map_index NiTransform_new (handClosed inp) bone)) in
    let qo := slerp qo (std_clamp (map_index (lit 0) (handPapyrusPose inp) bone) (lit 0) (lit 1)) qt in
    Some qo
  else if thumbUp && contains bone "Finger1" then
    let rot0 := Matrix44_new in
    if contains bone "Finger11" then
      let rot0 := setEulerAngles rot0 (sign * lit 0.5) (sign * lit 0.4) (lit (-0.3)) in
      let wr := rot (map_index NiTransform_new (handOpen inp) bone) in
      let wr := multiply43Left rot0 wr in
      Some (fromRot qt wr)
    else if contains bone "Finger13" then
      let rot0 := setEulerAngles rot0 (lit 0) (lit 0) (degreesToRads (lit (-35))) in
      let wr := rot (map_index NiTransform_new (handOpen inp) bone) in
      let wr := multiply43Left rot0 wr in
      Some (fromRot qt wr)
    else Some qt
  else if map_index false closed bone then
    Some (fromRot qt (rot (map_index NiTransform_new (handClosed inp) bone)))
  else
    let qt := fromRot qt (rot (map_index NiTransform_new (handOpen inp) bone)) in
    button ← _handBonesButton inp !! bone;
    if (button =? k_EButton_Grip)%Z then
      let qo := fromRot Quaternion_new (rot (map_index NiTransform_new (handClosed inp) bone)) in
      let qo := slerp qo (lit 1 - gripProx) qt in
      Some qo
    else Some qt.

(** [Skeleton::calculateHandPose]. *)
Definition calculateHandPose (inp : HandInput) (st : HandState)
    (bone : string) (gripProx : num) (thumbUp isLeft : bool) : option HandState :=
  qt ← handPoseTarget inp (_closedHand st) bone gripProx thumbUp isLeft;
  let cur := map_index NiTransform_new (_handBones st) bone in
  let qc := fromRot Quaternion_new (rot cur) in
  let blend := std_clamp (hand_frameTime inp * lit 7) (lit 0) (lit 1) in
  let qc := slerp qc blend qt in
  Some (mkHandState (transforms st)
          (<[bone := set_rot cur (make43 (getRot qc))]> (_handBones st))
          (_closedHand st)).

(** [Skeleton::copy1StPerson]; [GetBoneIndex] is negative for a bone
    the first-person tree does not have. *)
Definition copy1StPerson (inp : HandInput) (st : HandState) (bone : string)
  : option HandState :=
  match fpBoneIndex inp !! bone with
  | None => Some st
  | Some i =>
      b ← fpTransforms inp !! i;
      let t := match refNode b with
               | Some n => m_localTransform n
               | None => local b
               end in
      Some (mkHandState (transforms st) (<[bone := t]> (_handBones st)) (_closedHand st))
  end.

(** The finger part of one turn of [setHandPose]'s loop. *)
Definition setHandPose_finger (inp : HandInput) (names : list string)
    (st : HandState) (i : nat) : option HandState :=
  name ← names !! i;
  match _fingerRelations inp !! name with
  | None => Some st
  | Some _ =>
      let isLeft := match String.get 0 name with
                    | Some c => if Ascii.ascii_dec c "L"%char then true else false
                    | None => false
                    end in
      let reg := if isLeft then leftButtonTouched inp else rightButtonTouched inp in
      let gripProx := if isLeft then leftGripAxis inp else rightGripAxis inp in
      let thumbUp := has_button reg k_EButton_Grip
                     && has_button reg k_EButton_SteamVR_Trigger
                     && negb (has_button reg k_EButton_SteamVR_Touchpad) in
      button ← _handBonesButton inp !! name;
      let st := mkHandState (transforms st) (_handBones st)
                  (<[name := has_button reg button]> (_closedHand st)) in
      st ← (if isWeaponVisible inp && negb (isPipboyOn inp) && negb (isOperatingPipboy inp)
               && negb (xorb isLeft (hand_isLeftHandedMode inp))
            then copy1StPerson inp st name
            else calculateHandPose inp st name gripProx thumbUp isLeft);
      let trans := map_index NiTransform_new (_handBones st) name in
      b ← transforms st !! i;
      let b := set_bone_local b (set_rot (local b) (rot trans)) in
      let b := set_bone_local b
                 (set_pos (local b) (pos (map_index NiTransform_new (handOpen inp) name))) in
      let b := match refNode b with
               | Some n => set_bone_refNode b (Some (set_local n (local b)))
               | None => b
               end in
      Some (mkHandState (<[i := b]> (transforms st)) (_handBones st) (_closedHand st))
  end.

(** The propagation part of one turn: the world transform of entry
    [i] is taken from its node, or computed from its parent entry. *)
Definition setHandPose_world (rt : list BoneTransforms) (i : nat)
  : option (list BoneTransforms) :=
  b ← rt !! i;
  match refNode b with
  | Some n => Some (<[i := set_bone_world b (m_worldTransform n)]> rt)
  | None =>
      parent ← at_index rt (parPos b);
      let b := set_bone_world b
                 (set_pos (world b) (world_pos_of parent (pos (local b)))) in
      let b := set_bone_world b
                 (set_rot (world b) (world_rot_of Matrix44_new parent (rot (local b)))) in
      Some (<[i := b]> rt)
  end.

Definition setHandPose_step (inp : HandInput) (names : list string)
    (st : HandState) (i : nat) : option HandState :=
  st ← setHandPose_finger inp names st i;
  rt ← setHandPose_world (transforms st) i;
  Some (mkHandState rt (_handBones st) (_closedHand st)).

Fixpoint setHandPose_loop (inp : HandInput) (names : list string)
    (st : HandState) (i : nat) (n : nat) : option HandState :=
  match n with
  | O => Some st
  | S n =>
      st ← setHandPose_step inp names st i;
      setHandPose_loop inp names st (S i) n
  end.

(** [Skeleton::setHandPose]: [pos] runs from 0 to [numTransforms],
    the length of the array. *)
Definition setHandPose (inp : HandInput) (_boneTreeVec : list string) (st : HandState)
  : option HandState :=
  setHandPose_loop inp _boneTreeVec st 0 (length (transforms st)).

End Model.

Section Walk.
Context `{Scalar} `{!Helpers}.
Local Open Scope fl_scope.

(** ** The walk cycle *)

(** What [walk] reads and does not write.  [rand] is the value that
    this call's [std::rand()] returns. *)
Record WalkInput := mkWalkInput {
  _inPowerArmor : bool;
  _lastPosition : NiPoint3;
  _curentPosition : NiPoint3;
  _frameTime : num;
  isJumpingOrInAir : bool;
  rand : Z
}.

(** What it writes: the skeleton's nodes, looked up by name under
    [_root] ([_spine] is the node ["SPINE2"], see [initializeNodes]),
    the members of [Skeleton] that carry the walk cycle from frame to
    frame and the function's static [spineAngle]. *)
Record Walk := mkWalk {
  nodes : gmap string NiNode;
  _root : NiNode;
  _prevSpeed : num;
  _walkingState : Z;
  _footStepping : Z;
  _stepDir : NiPoint3;
  _stepTimeinStep : num;
  _delayFrame : Z;
  _rightFootTarget : NiPoint3;
  _rightFootStart : NiPoint3;
  _leftFootTarget : NiPoint3;
  _leftFootStart : NiPoint3;
  _leftFootPos : NiPoint3;
  _rightFootPos : NiPoint3;
  _currentStepTime : num;
  spineAngle : num
}.

Definition set_nodes (s : Walk) (v : gmap string NiNode) : Walk :=
  mkWalk v (_root s) (_prevSpeed s) (_walkingState s) (_footStepping s) (_stepDir s) (_stepTimeinStep s) (_delayFrame s) (_rightFootTarget s) (_rightFootStart s) (_leftFootTarget s) (_leftFootStart s) (_leftFootPos s) (_rightFootPos s) (_currentStepTime s) (spineAngle s).

Definition set_root (s : Walk) (v : NiNode) : Walk :=
  mkWalk (nodes s) v (_prevSpeed s) (_walkingState s) (_footStepping s) (_stepDir s) (_stepTimeinStep s) (_delayFrame s) (_rightFootTarget s) (_rightFootStart s) (_leftFootTarget s) (_leftFootStart s) (_leftFootPos s) (_rightFootPos s) (_currentStepTime s) (spineAngle s).

Definition set_prevSpeed (s : Walk) (v : num) : Walk :=
  mkWalk (nodes s) (_root s) v (_walkingState s) (_footStepping s) (_stepDir s) (_stepTimeinStep s) (_delayFrame s) (_rightFootTarget s) (_rightFootStart s) (_leftFootTarget s) (_leftFootStart s) (_leftFootPos s) (_rightFootPos s) (_currentStepTime s) (spineAngle s).

Definition set_walkingState (s : Walk) (v : Z) : Walk :=
  mkWalk (nodes s) (_root s) (_prevSpeed s) v (_footStepping s) (_stepDir s) (_stepTimeinStep s) (_delayFrame s) (_rightFootTarget s) (_rightFootStart s) (_leftFootTarget s) (_leftFootStart s) (_leftFootPos s) (_rightFootPos s) (_currentStepTime s) (spineAngle s).

Definition set_footStepping (s : Walk) (v : Z) : Walk :=
  mkWalk (nodes s) (_root s) (_prevSpeed s) (_walkingState s) v (_stepDir s) (_stepTimeinStep s) (_delayFrame s) (_rightFootTarget s) (_rightFootStart s) (_leftFootTarget s) (_leftFootStart s) (_leftFootPos s) (_rightFootPos s) (_currentStepTime s) (spineAngle s).

Definition set_stepDir (s : Walk) (v : NiPoint3) : Walk :=
  mkWalk (nodes s) (_root s) (_prevSpeed s) (_walkingState s) (_footStepping s) v (_stepTimeinStep s) (_delayFrame s) (_rightFootTarget s) (_rightFootStart s) (_leftFootTarget s) (_leftFootStart s) (_leftFootPos s) (_rightFootPos s) (_currentStepTime s) (spineAngle s).

Definition set_stepTimeinStep (s : Walk) (v : num) : Walk :=
  mkWalk (nodes s) (_root s) (_prevSpeed s) (_walkingState s) (_footStepping s) (_stepDir s) v (_delayFrame s) (_rightFootTarget s) (_rightFootStart s) (_leftFootTarget s) (_leftFootStart s) (_leftFootPos s) (_rightFootPos s) (_currentStepTime s) (spineAngle s).

Definition set_delayFrame (s : Walk) (v : Z) : Walk :=
  mkWalk (nodes s) (_root s) (_prevSpeed s) (_walkingState s) (_footStepping s) (_stepDir s) (_stepTimeinStep s) v (_rightFootTarget s) (_rightFootStart s) (_leftFootTarget s) (_leftFootStart s) (_leftFootPos s) (_rightFootPos s) (_currentStepTime s) (spineAngle s).

Definition set_rightFootTarget (s : Walk) (v : NiPoint3) : Walk :=
  mkWalk (nodes s) (_root s) (_prevSpeed s) (_walkingState s) (_footStepping s) (_stepDir s) (_stepTimeinStep s) (_delayFrame s) v (_rightFootStart s) (_leftFootTarget s) (_leftFootStart s) (_leftFootPos s) (_rightFootPos s) (_currentStepTime s) (spineAngle s).

Definition set_rightFootStart (s : Walk) (v : NiPoint3) : Walk :=
  mkWalk (nodes s) (_root s) (_prevSpeed s) (_walkingState s) (_footStepping s) (_stepDir s) (_stepTimeinStep s) (_delayFrame s) (_rightFootTarget s) v (_leftFootTarget s) (_leftFootStart s) (_leftFootPos s) (_rightFootPos s) (_currentStepTime s) (spineAngle s).

Definition set_leftFootTarget (s : Walk) (v : NiPoint3) : Walk :=
  mkWalk (nodes s) (_root s) (_prevSpeed s) (_walkingState s) (_footStepping s) (_stepDir s) (_stepTimeinStep s) (_delayFrame s) (_rightFootTarget s) (_rightFootStart s) v (_leftFootStart s) (_leftFootPos s) (_rightFootPos s) (_currentStepTime s) (spineAngle s).

Definition set_leftFootStart (s : Walk) (v : NiPoint3) : Walk :=
  mkWalk (nodes s) (_root s) (_prevSpeed s) (_walkingState s) (_footStepping s) (_stepDir s) (_stepTimeinStep s) (_delayFrame s) (_rightFootTarget s) (_rightFootStart s) (_leftFootTarget s) v (_leftFootPos s) (_rightFootPos s) (_currentStepTime s) (spineAngle s).

Definition set_leftFootPos (s : Walk) (v : NiPoint3) : Walk :=
  mkWalk (nodes s) (_root s) (_prevSpeed s) (_walkingState s) (_footStepping s) (_stepDir s) (_stepTimeinStep s) (_delayFrame s) (_rightFootTarget s) (_rightFootStart s) (_leftFootTarget s) (_leftFootStart s) v (_rightFootPos s) (_currentStepTime s) (spineAngle s).

Definition set_rightFootPos (s : Walk) (v : NiPoint3) : Walk :=
  mkWalk (nodes s) (_root s) (_prevSpeed s) (_walkingState s) (_footStepping s) (_stepDir s) (_stepTimeinStep s) (_delayFrame s) (_rightFootTarget s) (_rightFootStart s) (_leftFootTarget s) (_leftFootStart s) (_leftFootPos s) v (_currentStepTime s) (spineAngle s).

Definition set_currentStepTime (s : Walk) (v : num) : Walk :=
  mkWalk (nodes s) (_root s) (_prevSpeed s) (_walkingState s) (_footStepping s) (_stepDir s) (_stepTimeinStep s) (_delayFrame s) (_rightFootTarget s) (_rightFootStart s) (_leftFootTarget s) (_leftFootStart s) (_leftFootPos s) (_rightFootPos s) v (spineAngle s).

Definition set_spineAngle (s : Walk) (v : num) : Walk :=
  mkWalk (nodes s) (_root s) (_prevSpeed s) (_walkingState s) (_footStepping s) (_stepDir s) (_stepTimeinStep s) (_delayFrame s) (_rightFootTarget s) (_rightFootStart s) (_leftFootTarget s) (_leftFootStart s) (_leftFootPos s) (_rightFootPos s) (_currentStepTime s) v.


(** [getNode(name, base)]: null when the skeleton has no such node. *)
Definition getNode (name : string) (st : Walk) : option NiNode := nodes st !! name.

Definition move_world_pos (n : NiNode) (p : NiPoint3) : NiNode :=
  set_world n (set_pos (m_worldTransform n) p).

Definition foot_pos (n : NiNode) : NiPoint3 := pos (m_worldTransform n).

(** The speed and the step time of this frame (the lines before the
    state switch). *)
Definition walk_dir (inp : WalkInput) : NiPoint3 :=
  let lastPos := _lastPosition inp in
  let curPos := _curentPosition inp in
  let curPos := set_z curPos (lit 0) in
  let lastPos := set_z lastPos (lit 0) in
  curPos -v lastPos.

Definition walk_curSpeed (inp : WalkInput) (prevSpeed : num) : num :=
  let dir := walk_dir inp in
  let curSpeed := std_clamp (fabs (vec3Len dir) / _frameTime inp) (lit 0) (lit 350) in
  if prevSpeed >? lit 20 then (curSpeed + prevSpeed) / lit 2 else curSpeed.

Definition walk_stepTime (curSpeed : num) : num :=
  std_clamp (cosf (curSpeed / lit 140)) (lit 0.28) (lit 0.50).

(** The [switch] on [_walkingState], with its guard. *)
Definition walk_switch (inp : WalkInput) (curSpeed stepTime : num) (dir : NiPoint3)
    (lFoot rFoot : NiNode) (st : Walk) : Walk :=
  if negb (isJumpingOrInAir inp) then
    match _walkingState st with
    | 0%Z =>
        if curSpeed >=? lit 35 then
          let st := set_walkingState st 1 in
          let st := set_footStepping st (Z.rem (rand inp) 2 + 1) in
          let st := set_stepDir st dir in
          let st := set_stepTimeinStep st stepTime in
          let st := set_delayFrame st 2 in
          let st :=
            if (_footStepping st =? 1)%Z then
              let st := set_rightFootTarget st
                          (foot_pos rFoot +v _stepDir st *v (curSpeed * stepTime * lit 1.5)) in
              let st := set_rightFootStart st (foot_pos rFoot) in
              let st := set_leftFootTarget st (foot_pos lFoot) in
              let st := set_leftFootStart st (foot_pos lFoot) in
              let st := set_leftFootPos st (_leftFootStart st) in
              set_rightFootPos st (_rightFootStart st)
            else
              let st := set_rightFootTarget st (foot_pos rFoot) in
              let st := set_rightFootStart st (foot_pos rFoot) in
              let st := set_leftFootTarget st
                          (foot_pos lFoot +v _stepDir st *v (curSpeed * stepTime * lit 1.5)) in
              let st := set_leftFootStart st (foot_pos lFoot) in
              let st := set_leftFootPos st (_leftFootStart st) in
              set_rightFootPos st (_rightFootStart st) in
          set_currentStepTime st (stepTime / lit 2)
        else
          let st := set_currentStepTime st (lit 0) in
          let st := set_footStepping st 0 in
          set_spineAngle st (lit 0)
    | 1%Z =>
        if curSpeed <? lit 20 then
          let st := set_walkingState st 2 in
          set_currentStepTime st (lit 0)
        else st
    | 2%Z =>
        if curSpeed >=? lit 20 then
          let st := set_walkingState st 1 in
          set_currentStepTime st (lit 0)
        else st
    | 3%Z =>
        let st := set_stepDir st dir in
        let st :=
          if (_footStepping st =? 1)%Z then
            set_rightFootTarget st
              (foot_pos rFoot +v _stepDir st *v (curSpeed * stepTime * lit 0.1))
          else
            set_leftFootTarget st
              (foot_pos lFoot +v _stepDir st *v (curSpeed * stepTime * lit 0.1)) in
        set_walkingState st 1
    | _ => set_walkingState st 0
    end
  else set_walkingState st 0.

(** The direction correction of the foot in flight, with its
    two-frame delay: the new [_delayFrame] and whether the target is
    moved this frame. *)
Definition walk_delay (dot : num) (delayFrame : Z) : Z * bool :=
  if dot <? lit 0.9 then
    if (delayFrame =? 0)%Z then (2%Z, true) else ((delayFrame - 1)%Z, false)
  else ((if (delayFrame =? 2)%Z then delayFrame else delayFrame + 1)%Z, false).

(** The body of [if (_walkingState == 1)]. *)
Definition walk_walking (inp : WalkInput) (curSpeed stepTime : num) (dir : NiPoint3)
    (lFoot rFoot : NiNode) (st : Walk) : option Walk :=
  let dirOffset := dir -v _stepDir st in
  let dot := vec3Dot dir (_stepDir st) in
  let scale := std_min (curSpeed * stepTime * lit 1.5) (lit 140) in
  let dirOffset := dirOffset *v scale in
  let st := set_currentStepTime st (_currentStepTime st + _frameTime inp) in
  let frameStep := _frameTime inp / _stepTimeinStep st in
  let interp := std_clamp (frameStep * (_currentStepTime st / _frameTime inp)) (lit 0) (lit 1) in
  let rootZ := z (pos (m_worldTransform (_root st))) in
  let '(sign, st) :=
    if (_footStepping st =? 1)%Z then
      let '(delay, turn) := walk_delay dot (_delayFrame st) in
      let st := if turn then
                  let st := set_rightFootTarget st (_rightFootTarget st +v dirOffset) in
                  set_stepDir st dir
                else st in
      let st := set_delayFrame st delay in
      let st := set_rightFootTarget st (set_z (_rightFootTarget st) rootZ) in
      let st := set_rightFootStart st (set_z (_rightFootStart st) rootZ) in
      let st := set_rightFootPos st
                  (_rightFootStart st +v (_rightFootTarget st -v _rightFootStart st) *v interp) in
      let stepAmount := std_clamp (vec3Len (_rightFootTarget st -v _rightFootStart st) / lit 150)
                          (lit 0) (lit 1) in
      let stepHeight := std_max (stepAmount * lit 9) (lit 1) in
      let up := sinf (interp * PI) * stepHeight in
      (lit (-1), set_rightFootPos st (set_z (_rightFootPos st) (z (_rightFootPos st) + up)))
    else
      let '(delay, turn) := walk_delay dot (_delayFrame st) in
      let st := if turn then
                  let st := set_leftFootTarget st (_leftFootTarget st +v dirOffset) in
                  set_stepDir st dir
                else st in
      let st := set_delayFrame st delay in
      let st := set_leftFootTarget st (set_z (_leftFootTarget st) rootZ) in
      let st := set_leftFootStart st (set_z (_leftFootStart st) rootZ) in
      let st := set_leftFootPos st
                  (_leftFootStart st +v (_leftFootTarget st -v _leftFootStart st) *v interp) in
      let stepAmount := std_clamp (vec3Len (_leftFootTarget st -v _leftFootStart st) / lit 150)
                          (lit 0) (lit 1) in
      let stepHeight := std_max (stepAmount * lit 9) (lit 1) in
      let up := sinf (interp * PI) * stepHeight in
      (lit 1, set_leftFootPos st (set_z (_leftFootPos st) (z (_leftFootPos st) + up))) in
  let st := set_spineAngle st (sign * sinf (interp * PI) * lit 3) in
  let rot0 := setEulerAngles Matrix44_new (degreesToRads (spineAngle st)) (lit 0) (lit 0) in
  spine ← nodes st !! "SPINE2";
  let spine := set_local spine
                 (set_rot (m_localTransform spine)
                    (multiply43Left rot0 (rot (m_localTransform spine)))) in
  let st := set_nodes st (<["SPINE2" := spine]> (nodes st)) in
  if _currentStepTime st >? stepTime then
    let st := set_currentStepTime st (lit 0) in
    let st := set_stepDir st dir in
    let st := set_stepTimeinStep st stepTime in
    if (_footStepping st =? 1)%Z then
      let st := set_footStepping st 2 in
      let st := set_leftFootTarget st (foot_pos lFoot +v _stepDir st *v scale) in
      Some (set_leftFootStart st (_leftFootPos st))
    else
      let st := set_footStepping st 1 in
      let st := set_rightFootTarget st (foot_pos rFoot +v _stepDir st *v scale) in
      Some (set_rightFootStart st (_rightFootPos st))
  else Some st.

(** The feet are first moved closer together. *)
Definition walk_feet (inp : WalkInput) (lFoot rFoot : NiNode) : NiNode * NiNode :=
  let leftToRight :=
    if _inPowerArmor inp
    then (foot_pos rFoot -v foot_pos lFoot) *v lit (-0.15)
    else (foot_pos rFoot -v foot_pos lFoot) *v lit 0.3 in
  (move_world_pos lFoot (foot_pos lFoot +v leftToRight),
   move_world_pos rFoot (foot_pos rFoot -v leftToRight)).

(** The state in which the [switch] is entered: the feet are stored,
    a deceleration of more than 20 forces state 3, and the speed of
    this frame is recorded. *)
Definition walk_enter (inp : WalkInput) (lFoot rFoot : NiNode) (st : Walk) : Walk :=
  let st := set_nodes st (<["RLeg_Foot" := rFoot]> (<["LLeg_Foot" := lFoot]> (nodes st))) in
  let curSpeed := walk_curSpeed inp (_prevSpeed st) in
  (* if decelerating reset target *)
  let st := if curSpeed - _prevSpeed st <? lit (-20) then set_walkingState st 3 else st in
  set_prevSpeed st curSpeed.

(** What follows the [switch]: the three [if]s on the walking
    state. *)
Definition walk_finish (inp : WalkInput) (curSpeed stepTime : num) (dir : NiPoint3)
    (lFoot rFoot : NiNode) (st : Walk) : option Walk :=
  if (_walkingState st =? 0)%Z then
    (* standing still: the feet are where the skeleton has them *)
    let st := set_leftFootPos st (foot_pos lFoot) in
    let st := set_rightFootPos st (foot_pos rFoot) in
    let st := set_leftFootPos st
                (set_z (_leftFootPos st) (z (pos (m_worldTransform (_root st))))) in
    Some (set_rightFootPos st
            (set_z (_rightFootPos st) (z (pos (m_worldTransform (_root st))))))
  else if (_walkingState st =? 1)%Z then
    walk_walking inp curSpeed stepTime dir lFoot rFoot st
  else if (_walkingState st =? 2)%Z then
    let st := set_leftFootPos st (foot_pos lFoot) in
    let st := set_rightFootPos st (foot_pos rFoot) in
    Some (set_walkingState st 0)
  else Some st.

(** [Skeleton::walk]. *)
Definition walk (inp : WalkInput) (st : Walk) : option Walk :=
  match getNode "LLeg_Thigh" st, getNode "RLeg_Thigh" st with
  | Some lHip, Some rHip =>
    match getNode "LLeg_Calf" st, getNode "RLeg_Calf" st,
          getNode "LLeg_Foot" st, getNode "RLeg_Foot" st with
    | Some lKnee, Some rKnee, Some lFoot, Some rFoot =>
      let '(lFoot, rFoot) := walk_feet inp lFoot rFoot in
      let curSpeed := walk_curSpeed inp (_prevSpeed st) in
      let stepTime := walk_stepTime curSpeed in
      let dir := vec3Norm (walk_dir inp) in
      let st := walk_enter inp lFoot rFoot st in
      let st := walk_switch inp curSpeed stepTime dir lFoot rFoot st in
      walk_finish inp curSpeed stepTime dir lFoot rFoot st
    | _, _, _, _ => Some st
    end
  | _, _ => Some st
  end.

(** The transitions of the walk cycle in the words of the
    specification: Idle to Walking at speed 35 or more, Walking to
    Stopping below 20, Stopping to Walking at 20 or more, Redirecting
    back to Walking. *)
Definition spec_walk_transition (state : Z) (speed : num) : Z :=
  match state with
  | 0%Z => if speed >=? lit 35 then 1%Z else 0%Z
  | 1%Z => if speed <? lit 20 then 2%Z else 1%Z
  | 2%Z => if speed >=? lit 20 then 1%Z else 2%Z
  | 3%Z => 1%Z
  | _ => 0%Z
  end.

End Walk.

Section Body.
Context `{Scalar} `{!Helpers}.
Local Open Scope fl_scope.

(** ** Neck yaw *)

(** The nodes of [_playerNodes] that [getNeckYaw] reads. *)
Record PlayerNodes := mkPlayerNodes {
  UprightHmdNode : NiNode;
  HmdNode : NiNode;
  SecondaryWandNode : NiNode;
  primaryWandNode : NiNode
}.

Definition neckYaw_hmdToLeft (pn : PlayerNodes) : NiPoint3 :=
  pos (m_worldTransform (SecondaryWandNode pn)) -v pos (m_worldTransform (UprightHmdNode pn)).

Definition neckYaw_hmdToRight (pn : PlayerNodes) : NiPoint3 :=
  pos (m_worldTransform (primaryWandNode pn)) -v pos (m_worldTransform (UprightHmdNode pn)).

(** The weight after the two attenuations (hand above the head, hands
    crossed). *)
Definition neckYaw_weight (pn : PlayerNodes) : num :=
  let hmdToLeft := neckYaw_hmdToLeft pn in
  let hmdToRight := neckYaw_hmdToRight pn in
  let weight := lit 1 in
  let weight := if z hmdToLeft >? lit 0
                then std_max (weight - lit 0.05 * z hmdToLeft) (lit 0) else weight in
  let weight := if z hmdToRight >? lit 0
                then std_max (weight - lit 0.05 * z hmdToRight) (lit 0) else weight in
  let locLeft := Transpose (rot (m_worldTransform (HmdNode pn))) *m hmdToLeft in
  let locRight := Transpose (rot (m_worldTransform (HmdNode pn))) *m hmdToRight in
  if x locLeft >? x locRight then
    let delta := x locRight - x locLeft in
    std_max (weight + lit 0.02 * delta) (lit 0)
  else weight.

(** The candidate yaw angle. *)
Definition neckYaw_angleFinal (pn : PlayerNodes) : num :=
  let hmdToLeft := neckYaw_hmdToLeft pn in
  let hmdToRight := neckYaw_hmdToRight pn in
  let sum := hmdToRight +v hmdToLeft in
  let forwardDir := vec3Norm (Transpose (rot (m_worldTransform (HmdNode pn))) *m vec3Norm sum) in
  let hmdForwardDir := vec3Norm (Transpose (rot (m_worldTransform (HmdNode pn)))
                                 *m pos (m_localTransform (HmdNode pn))) in
  let anglePrime := atan2f (x forwardDir) (y forwardDir) in
  let angleSec := atan2f (x forwardDir) (z forwardDir) in
  let pitchDiff := atan2f (y hmdForwardDir) (z hmdForwardDir)
                   - atan2f (z forwardDir) (y forwardDir) in
  if fabs pitchDiff >? degreesToRads (lit 80) then angleSec else anglePrime.

(** [Skeleton::getNeckYaw]; [_playerNodes] may be null. *)
Definition getNeckYaw (_playerNodes : option PlayerNodes) : num :=
  match _playerNodes with
  | None => lit 0
  | Some pn =>
      if (vec3Len (neckYaw_hmdToLeft pn) <? lit 10) || (vec3Len (neckYaw_hmdToRight pn) <? lit 10)
      then lit 0
      else
        let weight := neckYaw_weight pn in
        let angleFinal := neckYaw_angleFinal pn in
        std_clamp (- angleFinal * weight) (degreesToRads (lit (-50))) (degreesToRads (lit 50))
  end.

(** ** Legs *)

(** The two-bone solve of [setSingleLeg]: the segment lengths used
    and the angle at the foot, from the bind lengths and the distance
    of the foot from the hip. *)
Definition cosine_law (a b c : num) : num :=
  acosf ((b * b + c * c - a * a) / (lit 2 * b * c)).

(** When the foot is further from the hip than the leg is long,
    both segments are lengthened. *)
Definition leg_stretch (thighLen calfLen ftLen : num) : num * num :=
  if ftLen >? thighLen + calfLen then
    let diff := ftLen - thighLen - calfLen in
    let ratio := calfLen / (calfLen + thighLen) in
    let calfLen' := calfLen + (ratio * diff + lit 0.1) in
    let thighLen' := thighLen + ((lit 1 - ratio) * diff + lit 0.1) in
    (thighLen', calfLen')
  else (thighLen, calfLen).

Definition leg_solve (thighLenOrig calfLenOrig ftLen : num) : num * num * num :=
  let '(thighLen, calfLen) := leg_stretch thighLenOrig calfLenOrig ftLen in
  let footAngle := cosine_law thighLen calfLen ftLen in
  if isnan footAngle || isinf footAngle then
    let thighLen := (thighLenOrig + calfLenOrig) / lit 2 in
    let calfLen := thighLen in
    (thighLen, calfLen, cosine_law thighLen calfLen ftLen)
  else (thighLen, calfLen, footAngle).

(** The final local position of a leg bone: the solved position,
    shortened to the bind length when it is longer. *)
Definition clamp_to_bind (p : NiPoint3) (lenOrig : num) : NiPoint3 :=
  if vec3Len p >? lenOrig then vec3Norm p *v lenOrig else p.

Definition set_local_rot (n : NiNode) (r : NiMatrix43) : NiNode :=
  set_local n (set_rot (m_localTransform n) r).

Definition set_local_pos (n : NiNode) (p : NiPoint3) : NiNode :=
  set_local n (set_pos (m_localTransform n) p).

(** [Skeleton::setSingleLeg].  The three nodes are dereferenced
    without a check, as is the parent of the hip; [m_parent] gives the
    name of a node's parent. *)
Definition setSingleLeg (inPowerArmor : bool) (m_parent : string -> option string)
    (isLeft : bool) (st : Walk) : option Walk :=
  let footName := if isLeft then "LLeg_Foot" else "RLeg_Foot" in
  let kneeName := if isLeft then "LLeg_Calf" else "RLeg_Calf" in
  let hipName := if isLeft then "LLeg_Thigh" else "RLeg_Thigh" in
  footNode ← nodes st !! footName;
  kneeNode ← nodes st !! kneeName;
  hipNode ← nodes st !! hipName;
  let rotMat := Matrix44_new in
  let footPos := if isLeft then _leftFootPos st else _rightFootPos st in
  let hipPos := pos (m_worldTransform hipNode) in
  let footToHip := pos (m_worldTransform hipNode) -v footPos in
  let rotV := pt 0 1 0 in
  let rotV := if inPowerArmor
              then set_z (mkPoint (x rotV) (lit 0) (z rotV)) (if isLeft then lit 1 else lit (-1))
              else rotV in
  let hipDir := rot (m_worldTransform hipNode) *m rotV in
  let xDir := vec3Norm footToHip in
  let yDir := vec3Norm (hipDir -v xDir *v vec3Dot hipDir xDir) in
  let thighLenOrig := vec3Len (pos (m_localTransform kneeNode)) in
  let calfLenOrig := vec3Len (pos (m_localTransform footNode)) in
  let ftLen := std_max (vec3Len footToHip) (lit 0.1) in
  let '(thighLen, calfLen, footAngle) := leg_solve thighLenOrig calfLenOrig ftLen in
  (* the desired world coordinate of the knee *)
  let xDist := cosf footAngle * calfLen in
  let yDist := sinf footAngle * calfLen in
  let kneePos := footPos +v xDir *v xDist +v yDir *v yDist in
  let pos0 := kneePos -v hipPos in
  let uLocalDir := (Transpose (rot (m_worldTransform hipNode)) *m vec3Norm pos0)
                   /v scale (m_worldTransform hipNode) in
  let rotMat := rotateVectorVec rotMat uLocalDir (pos (m_localTransform kneeNode)) in
  let hipNode := set_local_rot hipNode (multiply43Left rotMat (rot (m_localTransform hipNode))) in
  let rotMat := makeTransformMatrix rotMat (rot (m_localTransform hipNode)) zero3 in
  parentName ← m_parent hipName;
  hipParent ← nodes st !! parentName;
  let hipWR := multiply43Left rotMat (rot (m_worldTransform hipParent)) in
  let rotMat := makeTransformMatrix rotMat (rot (m_localTransform kneeNode)) zero3 in
  let calfWR := multiply43Left rotMat hipWR in
  let uLocalDir := (Transpose calfWR *m vec3Norm (footPos -v kneePos))
                   /v scale (m_worldTransform kneeNode) in
  let rotMat := rotateVectorVec rotMat uLocalDir (pos (m_localTransform footNode)) in
  let kneeNode := set_local_rot kneeNode (multiply43Left rotMat (rot (m_localTransform kneeNode))) in
  let rotMat := makeTransformMatrix rotMat (rot (m_localTransform kneeNode)) zero3 in
  let calfWR := multiply43Left rotMat hipWR in
  (* Clp = Twr' * (kneePos - Twp) / Tws *)
  let kneeNode := set_local_pos kneeNode
                    ((Transpose hipWR *m (kneePos -v hipPos)) /v scale (m_worldTransform hipNode)) in
  let kneeNode := set_local_pos kneeNode
                    (clamp_to_bind (pos (m_localTransform kneeNode)) thighLenOrig) in
  (* Flp = Cwr' * (footPos - Cwp) / Cws *)
  let footNode := set_local_pos footNode
                    ((Transpose calfWR *m (footPos -v kneePos)) /v scale (m_worldTransform kneeNode)) in
  let footNode := set_local_pos footNode
                    (clamp_to_bind (pos (m_localTransform footNode)) calfLenOrig) in
  Some (set_nodes st
          (<[footName := footNode]> (<[kneeName := kneeNode]> (<[hipName := hipNode]> (nodes st))))).

End Body.

Section Arms.
Context `{Scalar} `{!Helpers}.
Local Open Scope fl_scope.

(** ** Arms *)

(** What [setArms] and [dampenHand] read and do not write. *)
Record ArmsInput := mkArmsInput {
  firstPersonSkeleton : bool;
  isLeftHandedMode : bool;
  arms_inPowerArmor : bool;
  armLength : num;
  dampenHands : bool;
  dampenHandsInVanillaScope : bool;
  dampenHandsRotation : num;
  dampenHandsRotationInVanillaScope : num;
  dampenHandsTranslation : num;
  dampenHandsTranslationInVanillaScope : num;
  isInScopeMenu : bool;
  arms_curentPosition : NiPoint3;
  arms_lastPosition : NiPoint3;
  _forwardDir : NiPoint3;
  _sidewaysRDir : NiPoint3;
  _chest : NiNode;
  root_scale : num
}.

(** What they write: the weapon and offset nodes ([rightWeapon] is
    the node [getWeaponNode()] returns), the first-person hands, the
    hand transforms of the previous frame, the bones of the two arms
    and the static [prevAngle] of [setArms]. *)
Record ArmsState := mkArmsState {
  rightWeapon : NiNode;
  WeaponLeftNode : NiNode;
  primaryWeaponOffsetNOde : NiNode;
  SecondaryMeleeWeaponOffsetNode2 : NiNode;
  _leftHand : NiNode;
  _rightHand : NiNode;
  _leftHandPrevFrame : NiTransform;
  _rightHandPrevFrame : NiTransform;
  _leftArm : ArmNodes;
  _rightArm : ArmNodes;
  prevAngle0 : num;
  prevAngle1 : num
}.

Definition set_rightWeapon (s : ArmsState) (v : NiNode) : ArmsState :=
  mkArmsState v (WeaponLeftNode s) (primaryWeaponOffsetNOde s) (SecondaryMeleeWeaponOffsetNode2 s) (_leftHand s) (_rightHand s) (_leftHandPrevFrame s) (_rightHandPrevFrame s) (_leftArm s) (_rightArm s) (prevAngle0 s) (prevAngle1 s).

Definition set_WeaponLeftNode (s : ArmsState) (v : NiNode) : ArmsState :=
  mkArmsState (rightWeapon s) v (primaryWeaponOffsetNOde s) (SecondaryMeleeWeaponOffsetNode2 s) (_leftHand s) (_rightHand s) (_leftHandPrevFrame s) (_rightHandPrevFrame s) (_leftArm s) (_rightArm s) (prevAngle0 s) (prevAngle1 s).

Definition set_primaryWeaponOffsetNOde (s : ArmsState) (v : NiNode) : ArmsState :=
  mkArmsState (rightWeapon s) (WeaponLeftNode s) v (SecondaryMeleeWeaponOffsetNode2 s) (_leftHand s) (_rightHand s) (_leftHandPrevFrame s) (_rightHandPrevFrame s) (_leftArm s) (_rightArm s) (prevAngle0 s) (prevAngle1 s).

Definition set_SecondaryMeleeWeaponOffsetNode2 (s : ArmsState) (v : NiNode) : ArmsState :=
  mkArmsState (rightWeapon s) (WeaponLeftNode s) (primaryWeaponOffsetNOde s) v (_leftHand s) (_rightHand s) (_leftHandPrevFrame s) (_rightHandPrevFrame s) (_leftArm s) (_rightArm s) (prevAngle0 s) (prevAngle1 s).

Definition set_leftHand (s : ArmsState) (v : NiNode) : ArmsState :=
  mkArmsState (rightWeapon s) (WeaponLeftNode s) (primaryWeaponOffsetNOde s) (SecondaryMeleeWeaponOffsetNode2 s) v (_rightHand s) (_leftHandPrevFrame s) (_rightHandPrevFrame s) (_leftArm s) (_rightArm s) (prevAngle0 s) (prevAngle1 s).

Definition set_rightHand (s : ArmsState) (v : NiNode) : ArmsState :=
  mkArmsState (rightWeapon s) (WeaponLeftNode s) (primaryWeaponOffsetNOde s) (SecondaryMeleeWeaponOffsetNode2 s) (_leftHand s) v (_leftHandPrevFrame s) (_rightHandPrevFrame s) (_leftArm s) (_rightArm s) (prevAngle0 s) (prevAngle1 s).

Definition set_leftHandPrevFrame (s : ArmsState) (v : NiTransform) : ArmsState :=
  mkArmsState (rightWeapon s) (WeaponLeftNode s) (primaryWeaponOffsetNOde s) (SecondaryMeleeWeaponOffsetNode2 s) (_leftHand s) (_rightHand s) v (_rightHandPrevFrame s) (_leftArm s) (_rightArm s) (prevAngle0 s) (prevAngle1 s).

Definition set_rightHandPrevFrame (s : ArmsState) (v : NiTransform) : ArmsState :=
  mkArmsState (rightWeapon s) (WeaponLeftNode s) (primaryWeaponOffsetNOde s) (SecondaryMeleeWeaponOffsetNode2 s) (_leftHand s) (_rightHand s) (_leftHandPrevFrame s) v (_leftArm s) (_rightArm s) (prevAngle0 s) (prevAngle1 s).

Definition set_leftArm (s : ArmsState) (v : ArmNodes) : ArmsState :=
  mkArmsState (rightWeapon s) (WeaponLeftNode s) (primaryWeaponOffsetNOde s) (SecondaryMeleeWeaponOffsetNode2 s) (_leftHand s) (_rightHand s) (_leftHandPrevFrame s) (_rightHandPrevFrame s) v (_rightArm s) (prevAngle0 s) (prevAngle1 s).

Definition set_rightArm (s : ArmsState) (v : ArmNodes) : ArmsState :=
  mkArmsState (rightWeapon s) (WeaponLeftNode s) (primaryWeaponOffsetNOde s) (SecondaryMeleeWeaponOffsetNode2 s) (_leftHand s) (_rightHand s) (_leftHandPrevFrame s) (_rightHandPrevFrame s) (_leftArm s) v (prevAngle0 s) (prevAngle1 s).

Definition set_prevAngle0 (s : ArmsState) (v : num) : ArmsState :=
  mkArmsState (rightWeapon s) (WeaponLeftNode s) (primaryWeaponOffsetNOde s) (SecondaryMeleeWeaponOffsetNode2 s) (_leftHand s) (_rightHand s) (_leftHandPrevFrame s) (_rightHandPrevFrame s) (_leftArm s) (_rightArm s) v (prevAngle1 s).

Definition set_prevAngle1 (s : ArmsState) (v : num) : ArmsState :=
  mkArmsState (rightWeapon s) (WeaponLeftNode s) (primaryWeaponOffsetNOde s) (SecondaryMeleeWeaponOffsetNode2 s) (_leftHand s) (_rightHand s) (_leftHandPrevFrame s) (_rightHandPrevFrame s) (_leftArm s) (_rightArm s) (prevAngle0 s) v.


Definition set_arm_shoulder (a : ArmNodes) (n : NiNode) : ArmNodes :=
  mkArm n (upper a) (forearm1 a) (forearm2 a) (forearm3 a) (hand a).

Definition set_arm_upper (a : ArmNodes) (n : NiNode) : ArmNodes :=
  mkArm (shoulder a) n (forearm1 a) (forearm2 a) (forearm3 a) (hand a).

Definition set_arm_forearm1 (a : ArmNodes) (n : NiNode) : ArmNodes :=
  mkArm (shoulder a) (upper a) n (forearm2 a) (forearm3 a) (hand a).

Definition set_arm_forearm2 (a : ArmNodes) (n : option NiNode) : ArmNodes :=
  mkArm (shoulder a) (upper a) (forearm1 a) n (forearm3 a) (hand a).

Definition set_arm_forearm3 (a : ArmNodes) (n : option NiNode) : ArmNodes :=
  mkArm (shoulder a) (upper a) (forearm1 a) (forearm2 a) n (hand a).

Definition set_arm_hand (a : ArmNodes) (n : NiNode) : ArmNodes :=
  mkArm (shoulder a) (upper a) (forearm1 a) (forearm2 a) (forearm3 a) n.

Definition world_pos (n : NiNode) : NiPoint3 := pos (m_worldTransform n).
Definition world_rot (n : NiNode) : NiMatrix43 := rot (m_worldTransform n).
Definition world_scale (n : NiNode) : num := scale (m_worldTransform n).
Definition local_pos (n : NiNode) : NiPoint3 := pos (m_localTransform n).
Definition local_rot (n : NiNode) : NiMatrix43 := rot (m_localTransform n).

(** [Skeleton::dampenHand(node, isLeft)], on the node and the two
    previous-frame transforms. *)
Definition dampenHand (inp : ArmsInput) (isLeft : bool)
    (node : NiNode) (prevL prevR : NiTransform) : NiNode * NiTransform * NiTransform :=
  if negb (dampenHands inp) then (node, prevL, prevR)
  else if isInScopeMenu inp && negb (dampenHandsInVanillaScope inp) then (node, prevL, prevR)
  else
    let prevFrame := if isLeft then prevL else prevR in
    let rq := fromRot Quaternion_new (rot prevFrame) in
    let rt := fromRot Quaternion_new (world_rot node) in
    let rq := slerp rq (lit 1 - (if isInScopeMenu inp
                                 then dampenHandsRotationInVanillaScope inp
                                 else dampenHandsRotation inp)) rt in
    let node := set_world node (set_rot (m_worldTransform node) (make43 (getRot rq))) in
    let dir := arms_curentPosition inp -v arms_lastPosition inp in
    let deltaPos := world_pos node -v pos prevFrame -v dir in
    let deltaPos := deltaPos *v (if isInScopeMenu inp
                                 then dampenHandsTranslationInVanillaScope inp
                                 else dampenHandsTranslation inp) in
    let node := set_world node (set_pos (m_worldTransform node) (world_pos node -v deltaPos)) in
    let prevL := if isLeft then m_worldTransform node else prevL in
    let prevR := if isLeft then prevR else m_worldTransform node in
    (updateDown node false, prevL, prevR).

(** The hard-coded rotation of the weapon node. *)
Definition weapon_rot_entries (leftHanded : bool) : list (nat * nat * Q) :=
  if leftHanded then
    [(0, 0, (-0.122)%Q); (1, 0, (0.987)%Q); (2, 0, (0.100)%Q);
     (0, 1, (-0.990)%Q); (1, 1, (-0.114)%Q); (2, 1, (-0.081)%Q);
     (0, 2, (-0.069)%Q); (1, 2, (-0.109)%Q); (2, 2, (0.992)%Q)]
  else
    [(0, 0, (-0.122)%Q); (1, 0, (0.987)%Q); (2, 0, (0.100)%Q);
     (0, 1, (0.990)%Q); (1, 1, (0.114)%Q); (2, 1, (0.081)%Q);
     (0, 2, (0.069)%Q); (1, 2, (0.109)%Q); (2, 2, (-0.992)%Q)].

Definition weapon_rot (leftHanded : bool) : Matrix44 :=
  fold_left (fun m e => set_data m (fst (fst e)) (snd (fst e)) (lit (snd e)))
            (weapon_rot_entries leftHanded) Matrix44_new.

Definition arm_of (isLeft : bool) (st : ArmsState) : ArmNodes :=
  if isLeft then _leftArm st else _rightArm st.

Definition put_arm (isLeft : bool) (st : ArmsState) (a : ArmNodes) : ArmsState :=
  if isLeft then set_leftArm st a else set_rightArm st a.

(** The first part of [setArms]: the weapon node and the offset node
    are set up and the game places the first-person hand. *)
Definition setArms_prepare (inp : ArmsInput) (isLeft : bool) (st : ArmsState) : ArmsState :=
  let handleOffhand := xorb (isLeftHandedMode inp) isLeft in
  let st :=
    if handleOffhand then
      let sec := set_local (SecondaryMeleeWeaponOffsetNode2 st)
                   (m_localTransform (primaryWeaponOffsetNOde st)) in
      let lr := setEulerAngles Matrix44_new (lit 0) (degreesToRads (lit 180)) (lit 0) in
      let sec := set_local_rot sec (multiply43Right lr (local_rot sec)) in
      let sec := set_local_pos sec (pt (-2) (-9) 2) in
      set_SecondaryMeleeWeaponOffsetNode2 st (updateTransforms sec)
    else st in
  let weaponNode := if handleOffhand then WeaponLeftNode st else rightWeapon st in
  let offsetNode := if handleOffhand then SecondaryMeleeWeaponOffsetNode2 st
                    else primaryWeaponOffsetNOde st in
  let w := weapon_rot (isLeftHandedMode inp) in
  let weaponNode := set_local_rot weaponNode (make43 w) in
  let weaponNode :=
    if handleOffhand then
      let w := setEulerAngles w (degreesToRads (lit 0))
                 (degreesToRads (if isLeft then lit 45 else lit (-45))) (degreesToRads (lit 0)) in
      set_local_rot weaponNode (multiply43Right w (local_rot weaponNode))
    else weaponNode in
  let weaponNode := set_local_pos weaponNode
    (if isLeftHandedMode inp
     then (if isLeft then pt 3.389 (-2.099) 3.133 else pt 0 (-4.8) 0)
     else (if isLeft then pt 0 0 0 else pt 4.389 (-1.899) (-3.133))) in
  let '(offsetNode, prevL, prevR) :=
    dampenHand inp isLeft offsetNode (_leftHandPrevFrame st) (_rightHandPrevFrame st) in
  let st := set_leftHandPrevFrame st prevL in
  let st := set_rightHandPrevFrame st prevR in
  let st := if handleOffhand then set_WeaponLeftNode st weaponNode
            else set_rightWeapon st weaponNode in
  let st := if handleOffhand then set_SecondaryMeleeWeaponOffsetNode2 st offsetNode
            else set_primaryWeaponOffsetNOde st offsetNode in
  let '(lh, rh) := Update1StPersonArm weaponNode offsetNode (_leftHand st, _rightHand st) in
  let st := set_leftHand st lh in
  set_rightHand st rh.

Definition setArms_handPos (isLeft : bool) (st : ArmsState) : NiPoint3 :=
  if isLeft then world_pos (_leftHand st) else world_pos (_rightHand st).

Definition setArms_handRot (isLeft : bool) (st : ArmsState) : NiMatrix43 :=
  if isLeft then world_rot (_leftHand st) else world_rot (_rightHand st).

(** The first test: the hand position is not a position, or is more
    than 200 units from the upper arm. *)
Definition hand_invalid (handPos : NiPoint3) (arm : ArmNodes) : bool :=
  isnan (x handPos) || isnan (y handPos) || isnan (z handPos)
  || isinf (x handPos) || isinf (y handPos) || isinf (z handPos)
  || (vec3Len (world_pos (upper arm) -v handPos) >? lit 200).

(** The shoulder: the collar bone is turned towards the hand and the
    world transforms below it are recomputed. *)
Definition setArms_rotatedM (inp : ArmsInput) (handPos : NiPoint3) (arm : ArmNodes) : Matrix44 :=
  let shoulderToHand := handPos -v world_pos (upper arm) in
  let armLength := armLength inp in
  let adjustAmount := std_clamp (vec3Len shoulderToHand - armLength * lit 0.5)
                        (lit 0) (armLength * lit 0.85) / (armLength * lit 0.85) in
  let shoulderOffset := vec3Norm shoulderToHand *v (adjustAmount * armLength * lit 0.08) in
  let clavicalToNewShoulder :=
    world_pos (upper arm) +v shoulderOffset -v world_pos (shoulder arm) in
  let sLocalDir := (Transpose (world_rot (shoulder arm)) *m clavicalToNewShoulder)
                   /v world_scale (shoulder arm) in
  let rotatedM := Matrix44_assign Matrix44_new (lit 0) in
  rotateVectorVec rotatedM sLocalDir (pt 1 0 0).

Definition setArms_shoulder (inp : ArmsInput) (handPos : NiPoint3) (arm : ArmNodes) : ArmNodes :=
  let rotatedM := setArms_rotatedM inp handPos arm in
  let result := multiply43Left rotatedM (local_rot (shoulder arm)) in
  let arm := set_arm_shoulder arm (set_local_rot (shoulder arm) result) in
  updateDownArm arm true.

(** The bind lengths of the upper arm and of the forearm; outside
    power armor the second and third forearm bones are dereferenced. *)
Definition arm_bind_lengths (inp : ArmsInput) (arm : ArmNodes) : option (num * num) :=
  let originalUpperLen := vec3Len (local_pos (forearm1 arm)) in
  if arms_inPowerArmor inp then
    Some (originalUpperLen, vec3Len (local_pos (hand arm)))
  else
    f2 ← forearm2 arm;
    f3 ← forearm3 arm;
    Some (originalUpperLen,
          vec3Len (local_pos (hand arm)) + vec3Len (local_pos f2) + vec3Len (local_pos f3)).

Definition arm_hsLen (handPos : NiPoint3) (arm : ArmNodes) : num :=
  std_max (vec3Len (world_pos (upper arm) -v handPos)) (lit 0.1).

(** The second test: the hand is further than 2.25 arm lengths from
    the upper arm. *)
Definition hand_too_far (hsLen upperLen forearmLen : num) : bool :=
  hsLen >? (upperLen + forearmLen) * lit 2.25.

(** The two-bone solve of [setArms]: the lengths used and the angle
    at the wrist. *)
Definition arm_stretch (upperLen forearmLen hsLen : num) : num * num :=
  if hsLen >? upperLen + forearmLen then
    let diff := hsLen - upperLen - forearmLen in
    let ratio := forearmLen / (forearmLen + upperLen) in
    let forearmLen' := forearmLen + (ratio * diff + lit 0.1) in
    let upperLen' := upperLen + ((lit 1 - ratio) * diff + lit 0.1) in
    (upperLen', forearmLen')
  else (upperLen, forearmLen).

Definition arm_solve (originalUpperLen originalForearmLen adjustedArmLength hsLen : num)
  : num * num * num :=
  let upperLen := originalUpperLen * adjustedArmLength in
  let forearmLen := originalForearmLen * adjustedArmLength in
  let '(upperLen, forearmLen) := arm_stretch upperLen forearmLen hsLen in
  let wristAngle := cosine_law upperLen forearmLen hsLen in
  if isnan wristAngle || isinf wristAngle then
    let upperLen := (originalUpperLen + originalForearmLen) / lit 2 * adjustedArmLength in
    let forearmLen := upperLen in
    (upperLen, forearmLen, cosine_law upperLen forearmLen hsLen)
  else (upperLen, forearmLen, wristAngle).

(** The twist angle of this frame before smoothing, from the
    rotation of the hand. *)
Definition arm_rawTwist (handRot : NiMatrix43) : num :=
  let handBack := handRot *m pt (-1) 0 0 in
  let twistAngle := asinf (std_clamp (z handBack) (lit (-0.999)) (lit 0.999)) in
  let handSide := handRot *m pt 0 (-1) 0 in
  let twistAngle2 := lit (-1) * asinf (std_clamp (z handSide) (lit (-0.599)) (lit 0.999)) in
  let interpTwist := std_clamp ((z handBack + lit 0.866) * lit 1.155) (lit 0.45) (lit 0.8) in
  twistAngle + interpTwist * (twistAngle2 - twistAngle).

(** The smoothing of the twist angle over time. *)
Definition arm_smoothTwist (prev twistAngle : num) : num :=
  prev + (twistAngle - prev) * lit 0.25.

(** The world position of the elbow, from the smoothed twist angle
    and the solved triangle. *)
Definition arm_elbowWorld (inp : ArmsInput) (isLeft : bool) (handPos : NiPoint3)
    (handRot : NiMatrix43) (arm : ArmNodes) (twistAngle forearmLen wristAngle : num)
  : NiPoint3 :=
  let negLeft := if isLeft then lit (-1) else lit 1 in
  let Uwp := world_pos (upper arm) in
  let handToShoulder := Uwp -v handPos in
  let forwardDir := vec3Norm (_forwardDir inp) in
  let sidewaysDir := vec3Norm (_sidewaysRDir inp *v negLeft) in
  let handSide := handRot *m pt 0 (-1) 0 in
  let shoulderPos := world_pos (shoulder arm) in
  (* the hand's distance behind the body *)
  let size := lit 1 in
  let behindD := - (x forwardDir * x shoulderPos + y forwardDir * y shoulderPos) - lit 10 in
  let handBehindDist := - (x handPos * x forwardDir + y handPos * y forwardDir + behindD) in
  let behindAmount := std_clamp (handBehindDist / (lit 40 * size)) (lit 0) (lit 1) in
  (* hands in front of the chest *)
  let planeDir := rotateXY forwardDir (negLeft * degreesToRads (lit 135)) in
  let planeD := - (x planeDir * x shoulderPos + y planeDir * y shoulderPos) + lit 16 * size in
  let armCrossAmount :=
    std_clamp ((x handPos * x planeDir + y handPos * y planeDir + planeD) / (lit 20 * size))
      (lit 0) (lit 1) in
  (* the arm lift *)
  let armLiftLimitZ := z (world_pos (_chest inp)) * size in
  let armLiftThreshold := lit 60 * size in
  let armLiftLimit :=
    std_clamp ((armLiftLimitZ + armLiftThreshold - z handPos) / armLiftThreshold)
      (lit 0) (lit 1) in
  let upLimit := std_clamp ((lit 1 - armLiftLimit) * lit 1.4) (lit 0) (lit 1) in
  let adjustMinAmount := std_max behindAmount (std_min armCrossAmount armLiftLimit) in
  (* the range of the elbow twist *)
  let twistMinAngle := degreesToRads (lit (-85)) + degreesToRads (lit 50) * adjustMinAmount in
  let twistMaxAngle :=
    degreesToRads (lit 55)
    - std_max (degreesToRads (lit 90) * armCrossAmount) (degreesToRads (lit 70) * upLimit) in
  let twistLimitAngle :=
    twistMinAngle + (twistAngle + PI / lit 2) / PI * (twistMaxAngle - twistMinAngle) in
  let rot0 := getRotationAxisAngle (sidewaysDir *v negLeft) twistLimitAngle in
  let bendDownDir := rot0 *m forwardDir in
  let xDir := vec3Norm handToShoulder in
  let sideD := - (x sidewaysDir * x shoulderPos + y sidewaysDir * y shoulderPos)
               - lit 1 * lit 8 in
  let acrossAmount :=
    - (x handPos * x sidewaysDir + y handPos * y sidewaysDir + sideD) / (lit 16 * lit 1) in
  let handSideTwistOutward :=
    vec3Dot handSide (vec3Norm (sidewaysDir +v forwardDir *v lit 0.5)) in
  let armTwist :=
    std_clamp (handSideTwistOutward - std_max (lit 0) (acrossAmount + lit 0.25))
      (lit 0) (lit 1) in
  let acrossAmount := if acrossAmount <? lit 0 then acrossAmount * lit 0.2 else acrossAmount in
  let handBehindHead :=
    std_clamp ((handBehindDist + lit 0 * size) / (lit 15 * size)) (lit 0) (lit 1)
    * std_clamp (upLimit * lit 1.2) (lit 0) (lit 1) in
  let elbowsTwistForward :=
    std_max (acrossAmount * degreesToRads (lit 90)) (handBehindHead * degreesToRads (lit 120)) in
  let elbowDir :=
    rotateXY bendDownDir
      (- negLeft * (degreesToRads (lit 150) - armTwist * degreesToRads (lit 25)
                    - elbowsTwistForward)) in
  let yDir := elbowDir -v xDir *v vec3Dot elbowDir xDir in
  let yDir := vec3Norm yDir in
  let xDist := cosf wristAngle * forearmLen in
  let yDist := sinf wristAngle * forearmLen in
  handPos +v xDir *v xDist +v yDir *v yDist.

Definition scale_local_pos (n : NiNode) (f : num) : NiNode :=
  set_local_pos n (local_pos n *v f).

(** The rotations and positions of the upper arm, the forearm and the
    hand bones, once the elbow is placed, in four steps.  [rotatedM]
    and [twist] are the two matrix objects of [setArms]; [rotatedM]
    comes from the shoulder step. *)

(** The upper arm is turned towards the elbow and twisted with the
    forearm; the first forearm bone takes the same twist.  Returns
    the arm, [rotatedM], [twist] and the world rotation [Uwr]. *)
Definition arm_chain_upper (handPos elbowWorld : NiPoint3) (arm : ArmNodes)
    (rotatedM : Matrix44) : ArmNodes * Matrix44 * Matrix44 * NiMatrix43 :=
  let Uwp := world_pos (upper arm) in
  (* Ulr = Cwr' * baseUwr * rotTowardElbow *)
  let Uwr := world_rot (upper arm) in
  let pos0 := elbowWorld -v Uwp in
  let uLocalDir := (Transpose Uwr *m vec3Norm pos0) /v world_scale (upper arm) in
  let rotatedM := rotateVectorVec rotatedM uLocalDir (local_pos (forearm1 arm)) in
  let arm := set_arm_upper arm
               (set_local_rot (upper arm) (multiply43Left rotatedM (local_rot (upper arm)))) in
  let rotatedM := makeTransformMatrix rotatedM (local_rot (upper arm)) (local_pos (upper arm)) in
  let Uwr := multiply43Left rotatedM (world_rot (shoulder arm)) in
  (* the twist of the forearm around the upper arm *)
  let pos0 := handPos -v elbowWorld in
  let uLocalTwist := Transpose Uwr *m vec3Norm pos0 in
  let uLocalTwist := set_x uLocalTwist (lit 0) in
  let upperSide := world_rot (upper arm) *m pt 0 1 0 in
  let uloc := Transpose (world_rot (shoulder arm)) *m upperSide in
  let uloc := set_x uloc (lit 0) in
  let upperAngle := acosf (vec3Dot (vec3Norm uLocalTwist) (vec3Norm uloc))
                    * (if z uLocalTwist >? lit 0 then lit 1 else lit (-1)) in
  let twist := setEulerAngles Matrix44_new (- upperAngle) (lit 0) (lit 0) in
  let arm := set_arm_upper arm
               (set_local_rot (upper arm) (multiply43Left twist (local_rot (upper arm)))) in
  let rotatedM := makeTransformMatrix rotatedM (local_rot (upper arm)) (local_pos (upper arm)) in
  let Uwr := multiply43Left rotatedM (world_rot (shoulder arm)) in
  let twist := setEulerAngles twist (- upperAngle) (lit 0) (lit 0) in
  let arm := set_arm_forearm1 arm
               (set_local_rot (forearm1 arm) (multiply43Left twist (local_rot (forearm1 arm)))) in
  (arm, rotatedM, twist, Uwr).

(** The first forearm bone is turned towards the hand.  Returns the
    arm, [rotatedM] and the world rotation [Fwr]. *)
Definition arm_chain_forearm (handPos elbowWorld : NiPoint3) (arm : ArmNodes)
    (rotatedM : Matrix44) (Uwr : NiMatrix43) : ArmNodes * Matrix44 * NiMatrix43 :=
  (* Flr = Uwr' * Fwr * rotTowardHand *)
  let rotatedM := makeTransformMatrix rotatedM (local_rot (forearm1 arm))
                    (local_pos (forearm1 arm)) in
  let Fwr := multiply43Left rotatedM Uwr in
  let elbowHand := handPos -v elbowWorld in
  let fLocalDir := Transpose Fwr *m vec3Norm elbowHand in
  let rotatedM := rotateVectorVec rotatedM fLocalDir (pt 1 0 0) in
  let arm := set_arm_forearm1 arm
               (set_local_rot (forearm1 arm)
                  (multiply43Left rotatedM (local_rot (forearm1 arm)))) in
  let rotatedM := makeTransformMatrix rotatedM (local_rot (forearm1 arm))
                    (local_pos (forearm1 arm)) in
  let Fwr := multiply43Left rotatedM Uwr in
  (arm, rotatedM, Fwr).

(** Outside power armor, and when the arm has them, the second and
    third forearm bones share the roll of the wrist.  Returns the
    arm, [rotatedM] and the world rotation [Fwr3], which is left as
    constructed when the step is skipped. *)
Definition arm_chain_wrist (inp : ArmsInput) (isLeft : bool) (handRot : NiMatrix43)
    (arm : ArmNodes) (rotatedM twist : Matrix44) (Fwr : NiMatrix43)
  : ArmNodes * Matrix44 * NiMatrix43 :=
  let negLeft := if isLeft then lit (-1) else lit 1 in
  let handSide := handRot *m pt 0 (-1) 0 in
  let handInSide := handSide *v negLeft in
  let Fwr3 := NiMatrix43_new in
  match arms_inPowerArmor inp, forearm2 arm, forearm3 arm with
  | false, Some f2, Some f3 =>
      let rotatedM := makeTransformMatrix rotatedM (local_rot f2) (local_pos f2) in
      let Fwr2 := multiply43Left rotatedM Fwr in
      let rotatedM := makeTransformMatrix rotatedM (local_rot f3) (local_pos f3) in
      let Fwr3 := multiply43Left rotatedM Fwr2 in
      (* the angle the wrist is pointing; forearm3 is twisted to it *)
      let wLocalDir := Transpose Fwr3 *m vec3Norm handInSide in
      let wLocalDir := set_x wLocalDir (lit 0) in
      let forearm3Side := Fwr3 *m pt 0 0 (-1) in
      let floc := Transpose Fwr2 *m vec3Norm forearm3Side in
      let floc := set_x floc (lit 0) in
      let fcos := vec3Dot (vec3Norm wLocalDir) (vec3Norm floc) in
      let fsin := vec3Det (vec3Norm wLocalDir) (vec3Norm floc) (pt (-1) 0 0) in
      let forearmAngle := lit (-1) * negLeft * atan2f fsin fcos in
      let twist := setEulerAngles twist (negLeft * forearmAngle / lit 2) (lit 0) (lit 0) in
      let f2 := set_local_rot f2 (multiply43Left twist (local_rot f2)) in
      let twist := setEulerAngles twist (negLeft * forearmAngle / lit 2) (lit 0) (lit 0) in
      let f3 := set_local_rot f3 (multiply43Left twist (local_rot f3)) in
      let rotatedM := makeTransformMatrix rotatedM (local_rot f2) (local_pos f2) in
      let Fwr2 := multiply43Left rotatedM Fwr in
      let rotatedM := makeTransformMatrix rotatedM (local_rot f3) (local_pos f3) in
      let Fwr3 := multiply43Left rotatedM Fwr2 in
      (set_arm_forearm3 (set_arm_forearm2 arm (Some f2)) (Some f3), rotatedM, Fwr3)
  | _, _, _ => (arm, rotatedM, Fwr3)
  end.

(** The hand takes the rotation of the target, the first forearm bone
    is moved to the elbow and the bones of the forearm are scaled to
    the solved length.  The third forearm bone is dereferenced when
    the second one is there. *)
Definition arm_chain_hand (inp : ArmsInput) (handPos : NiPoint3) (handRot : NiMatrix43)
    (arm : ArmNodes) (rotatedM : Matrix44) (Uwp : NiPoint3) (Uwr Fwr Fwr3 : NiMatrix43)
    (forearmLen : num) (elbowWorld : NiPoint3) : option ArmNodes :=
  (* Hlr = Fwr' * handRot *)
  let rotatedM := makeTransformMatrix rotatedM handRot handPos in
  let arm := set_arm_hand arm
               (set_local_rot (hand arm)
                  (if negb (arms_inPowerArmor inp)
                   then multiply43Left rotatedM (Transpose Fwr3)
                   else multiply43Left rotatedM (Transpose Fwr))) in
  (* Flp = Uwr' * (elbowWorld - Uwp) / Uws *)
  let arm := set_arm_forearm1 arm
               (set_local_pos (forearm1 arm)
                  (Transpose Uwr *m ((elbowWorld -v Uwp) /v world_scale (upper arm)))) in
  let origEHLen := vec3Len (world_pos (hand arm) -v world_pos (forearm1 arm)) in
  let forearmRatio := forearmLen / origEHLen * root_scale inp in
  arm ← match forearm2 arm with
        | Some f2 =>
            if negb (arms_inPowerArmor inp) then
              f3 ← forearm3 arm;
              Some (set_arm_forearm3
                      (set_arm_forearm2 arm (Some (scale_local_pos f2 forearmRatio)))
                      (Some (scale_local_pos f3 forearmRatio)))
            else Some arm
        | None => Some arm
        end;
  Some (set_arm_hand arm (scale_local_pos (hand arm) forearmRatio)).

Definition arm_chain (inp : ArmsInput) (isLeft : bool) (handPos : NiPoint3)
    (handRot : NiMatrix43) (arm : ArmNodes) (rotatedM : Matrix44)
    (forearmLen : num) (elbowWorld : NiPoint3) : option ArmNodes :=
  let Uwp := world_pos (upper arm) in
  let '(arm, rotatedM, twist, Uwr) := arm_chain_upper handPos elbowWorld arm rotatedM in
  let '(arm, rotatedM, Fwr) := arm_chain_forearm handPos elbowWorld arm rotatedM Uwr in
  let '(arm, rotatedM, Fwr3) := arm_chain_wrist inp isLeft handRot arm rotatedM twist Fwr in
  arm_chain_hand inp handPos handRot arm rotatedM Uwp Uwr Fwr Fwr3 forearmLen elbowWorld.

(** [Skeleton::setArms(isLeft)]. *)
Definition setArms (inp : ArmsInput) (isLeft : bool) (st : ArmsState) : option ArmsState :=
  if negb (firstPersonSkeleton inp) then Some st
  else
    let st := setArms_prepare inp isLeft st in
    let handPos := setArms_handPos isLeft st in
    let handRot := setArms_handRot isLeft st in
    let arm := arm_of isLeft st in
    if hand_invalid handPos arm then Some st
    else
      let adjustedArmLength := armLength inp / lit 36.74 in
      let rotatedM := setArms_rotatedM inp handPos arm in
      let arm := setArms_shoulder inp handPos arm in
      '(originalUpperLen, originalForearmLen) ← arm_bind_lengths inp arm;
      let upperLen := originalUpperLen * adjustedArmLength in
      let forearmLen := originalForearmLen * adjustedArmLength in
      let hsLen := arm_hsLen handPos arm in
      if hand_too_far hsLen upperLen forearmLen then Some (put_arm isLeft st arm)
      else
        let '(upperLen, forearmLen, wristAngle) :=
          arm_solve originalUpperLen originalForearmLen adjustedArmLength hsLen in
        let twistAngle := arm_rawTwist handRot in
        (* smooth out sudden changes in the twist angle over time *)
        let twistAngle :=
          arm_smoothTwist (if isLeft then prevAngle0 st else prevAngle1 st) twistAngle in
        let st := if isLeft then set_prevAngle0 st twistAngle
                  else set_prevAngle1 st twistAngle in
        let elbowWorld :=
          arm_elbowWorld inp isLeft handPos handRot arm twistAngle forearmLen wristAngle in
        arm ← arm_chain inp isLeft handPos handRot arm rotatedM forearmLen elbowWorld;
        Some (put_arm isLeft st arm).

End Arms.

(** ** First model of the scalars: IEEE binary32 *)

Module F32.

Definition prec : Z := 24.
Definition emax : Z := 128.

Definition of_Z (n : Z) : spec_float := binary_normalize prec emax n 0 false.

(** A decimal literal [n/d]: the quotient of two integers, rounded to
    nearest; exact rounding of the literal as long as [n] and [d] are
    below 2^24. *)
Definition of_Q (q : Q) : spec_float :=
  SFdiv prec emax (of_Z (Qnum q)) (of_Z (Zpos (Qden q))).

Definition add := SFadd prec emax.
Definition sub := SFsub prec emax.
Definition mul := SFmul prec emax.
Definition div := SFdiv prec emax.
Definition sqrt := SFsqrt prec emax.

Definition is_nan (a : spec_float) : bool :=
  match a with S754_nan => true | _ => false end.

Definition is_inf (a : spec_float) : bool :=
  match a with S754_infinity _ => true | _ => false end.

Definition is_zero (a : spec_float) : bool :=
  match a with S754_zero _ => true | _ => false end.

Definition sign (a : spec_float) : bool :=
  match a with
  | S754_zero s | S754_infinity s | S754_finite s _ _ => s
  | S754_nan => false
  end.

(** A plain <cmath> for binary32: Maclaurin polynomials evaluated in
    binary32 (Horner), the arc tangent after two argument halvings.
    The special values are those of the C standard; the other
    values approximate the mathematical ones to about six decimal
    digits for arguments of moderate size. *)
Definition horner (coeffs : list Q) (t : spec_float) : spec_float :=
  fold_right (fun c acc => add (of_Q c) (mul t acc)) (of_Z 0) coeffs.

Definition cos (a : spec_float) : spec_float :=
  horner [1; -1 # 2; 1 # 24; -1 # 720; 1 # 40320; -1 # 3628800; 1 # 479001600;
          -1 # 87178291200; 1 # 20922789888000]%Q (mul a a).

Definition sin (a : spec_float) : spec_float :=
  mul a (horner [1; -1 # 6; 1 # 120; -1 # 5040; 1 # 362880; -1 # 39916800;
                 1 # 6227020800; -1 # 1307674368000]%Q (mul a a)).

Definition pi : spec_float := S754_finite false 13176795 (-22).
Definition half_pi : spec_float := S754_finite false 13176795 (-23).

Definition atan_halve (t : spec_float) : spec_float :=
  div t (add (of_Z 1) (sqrt (add (of_Z 1) (mul t t)))).

Definition atan_unit (t : spec_float) : spec_float :=
  let u := atan_halve (atan_halve t) in
  mul (of_Z 4)
      (mul u (horner [1; -1 # 3; 1 # 5; -1 # 7; 1 # 9; -1 # 11; 1 # 13]%Q (mul u u))).

Definition atan (t : spec_float) : spec_float :=
  if SFleb (SFabs t) (of_Z 1) then atan_unit t
  else
    let r := atan_unit (div (of_Z 1) t) in
    if sign t then sub (SFopp half_pi) r else sub half_pi r.

Definition with_sign (s : bool) (a : spec_float) : spec_float :=
  if s then SFopp (SFabs a) else SFabs a.

Definition atan2 (b a : spec_float) : spec_float :=
  if is_nan a || is_nan b then S754_nan
  else if is_zero b then
    (if sign a then with_sign (sign b) pi else b)
  else if is_zero a then with_sign (sign b) half_pi
  else if is_inf a && is_inf b then
    with_sign (sign b) (if sign a then mul (of_Z 3) (div pi (of_Z 4)) else div pi (of_Z 4))
  else if is_inf b then with_sign (sign b) half_pi
  else if sign a then
    (if sign b then sub (atan (div b a)) pi else add (atan (div b a)) pi)
  else atan (div b a).

Definition asin (a : spec_float) : spec_float :=
  atan2 a (sqrt (sub (of_Z 1) (mul a a))).

Definition acos (a : spec_float) : spec_float :=
  atan2 (sqrt (sub (of_Z 1) (mul a a))) a.

Definition scalar : Scalar :=
  {| num := spec_float;
     lit := of_Q;
     fadd := add;
     fsub := sub;
     fmul := mul;
     fdiv := div;
     fneg := SFopp;
     flt := SFltb;
     fle := SFleb;
     isnan := is_nan;
     isinf := is_inf;
     fabs := SFabs;
     fsqrt := sqrt;
     cosf := cos;
     sinf := sin;
     acosf := acos;
     asinf := asin;
     atan2f := atan2 |}.

End F32.

(** ** Second model of the scalars: exact arithmetic

    The real numbers with NaN and the two infinities.  Finite
    operands are combined without rounding; the special values follow
    IEEE 754 (zero is unsigned, so [1/0] is the positive infinity). *)

Module XR.

Local Open Scope R_scope.

Inductive xreal := Fin (r : R) | PInf | NInf | NaN.

Definition of_Q (q : Q) : xreal := Fin (Q2R q).

Definition inf (negative : bool) : xreal := if negative then NInf else PInf.

Definition is_neg (a : xreal) : bool :=
  match a with
  | Fin r => if Rlt_dec r 0 then true else false
  | NInf => true
  | _ => false
  end.

Definition is_zero (a : xreal) : bool :=
  match a with
  | Fin r => if Req_EM_T r 0 then true else false
  | _ => false
  end.

Definition opp (a : xreal) : xreal :=
  match a with Fin r => Fin (- r) | PInf => NInf | NInf => PInf | NaN => NaN end.

Definition add (a b : xreal) : xreal :=
  match a, b with
  | NaN, _ | _, NaN => NaN
  | Fin r, Fin s => Fin (r + s)
  | PInf, NInf | NInf, PInf => NaN
  | PInf, _ | _, PInf => PInf
  | NInf, _ | _, NInf => NInf
  end.

Definition sub (a b : xreal) : xreal := add a (opp b).

Definition mul (a b : xreal) : xreal :=
  match a, b with
  | NaN, _ | _, NaN => NaN
  | Fin r, Fin s => Fin (r * s)
  | _, _ => if is_zero a || is_zero b then NaN else inf (xorb (is_neg a) (is_neg b))
  end.

Definition div (a b : xreal) : xreal :=
  match a, b with
  | NaN, _ | _, NaN => NaN
  | Fin r, Fin s =>
      if Req_EM_T s 0
      then (if Req_EM_T r 0 then NaN else inf (is_neg a))
      else Fin (r / s)
  | Fin _, _ => Fin 0
  | _, Fin _ => inf (xorb (is_neg a) (is_neg b))
  | _, _ => NaN
  end.

Definition lt (a b : xreal) : bool :=
  match a, b with
  | NaN, _ | _, NaN => false
  | Fin r, Fin s => if Rlt_dec r s then true else false
  | _, NInf => false
  | PInf, _ => false
  | _, _ => true
  end.

Definition le (a b : xreal) : bool :=
  match a, b with
  | NaN, _ | _, NaN => false
  | Fin r, Fin s => if Rle_dec r s then true else false
  | NInf, _ => true
  | _, PInf => true
  | _, _ => false
  end.

Definition is_nan (a : xreal) : bool := match a with NaN => true | _ => false end.

Definition is_inf (a : xreal) : bool :=
  match a with PInf | NInf => true | _ => false end.

Definition abs (a : xreal) : xreal :=
  match a with Fin r => Fin (Rabs r) | PInf | NInf => PInf | NaN => NaN end.

Definition sqrt (a : xreal) : xreal :=
  match a with
  | Fin r => if Rlt_dec r 0 then NaN else Fin (R_sqrt.sqrt r)
  | PInf => PInf
  | _ => NaN
  end.

Definition lift (f : R -> R) (a : xreal) : xreal :=
  match a with Fin r => Fin (f r) | _ => NaN end.

Definition on_unit (f : R -> R) (a : xreal) : xreal :=
  match a with
  | Fin r => if Rle_dec (-1) r then (if Rle_dec r 1 then Fin (f r) else NaN) else NaN
  | _ => NaN
  end.

Definition atan2 (b a : xreal) : xreal :=
  match b, a with
  | NaN, _ | _, NaN => NaN
  | Fin s, Fin r =>
      if Rlt_dec 0 r then Fin (Ratan.atan (s / r))
      else if Rlt_dec r 0 then
        (if Rlt_dec s 0 then Fin (Ratan.atan (s / r) - Rtrigo1.PI)
         else Fin (Ratan.atan (s / r) + Rtrigo1.PI))
      else if Rlt_dec 0 s then Fin (Rtrigo1.PI / 2)
      else if Rlt_dec s 0 then Fin (- (Rtrigo1.PI / 2))
      else Fin 0
  | Fin s, PInf => Fin 0
  | Fin s, NInf => if Rlt_dec s 0 then Fin (- Rtrigo1.PI) else Fin Rtrigo1.PI
  | PInf, Fin _ => Fin (Rtrigo1.PI / 2)
  | NInf, Fin _ => Fin (- (Rtrigo1.PI / 2))
  | PInf, PInf => Fin (Rtrigo1.PI / 4)
  | NInf, PInf => Fin (- (Rtrigo1.PI / 4))
  | PInf, NInf => Fin (3 * (Rtrigo1.PI / 4))
  | NInf, NInf => Fin (- (3 * (Rtrigo1.PI / 4)))
  end.

Definition scalar : Scalar :=
  {| num := xreal;
     lit := of_Q;
     fadd := add;
     fsub := sub;
     fmul := mul;
     fdiv := div;
     fneg := opp;
     flt := lt;
     fle := le;
     isnan := is_nan;
     isinf := is_inf;
     fabs := abs;
     fsqrt := sqrt;
     cosf := lift Rtrigo_def.cos;
     sinf := lift Rtrigo_def.sin;
     acosf := on_unit Ratan.acos;
     asinf := on_unit Ratan.asin;
     atan2f := atan2 |}.

End XR.

(** ** A reference interpretation of the helper code

    Textbook definitions of the helpers, over any model of the
    scalars.  They serve to run the embedding on concrete inputs; the
    properties below hold for every interpretation of the helpers
    unless they say otherwise. *)

Section Reference.
Context `{Scalar}.
Local Open Scope fl_scope.

(** The binary32 number nearest to pi. *)
Definition ref_PI : num := lit (13176795 # 4194304).

Definition ref_degreesToRads (deg : num) : num := deg * ref_PI / lit 180.

(** Modelled from the spec: [vec3Len] and [vec3Norm] of
    common/CommonUtils.h, the "vector length" and the "normalize" of
    the orientation solver: the Euclidean length, and the vector
    divided by its length. *)
Definition ref_vec3Len (p : NiPoint3) : num :=
  fsqrt (x p * x p + y p * y p + z p * z p).

Definition ref_vec3Norm (p : NiPoint3) : NiPoint3 := p /v ref_vec3Len p.

Definition ref_vec3Dot (p q : NiPoint3) : num := x p * x q + y p * y q + z p * z q.

Definition ref_vec3Cross (p q : NiPoint3) : NiPoint3 :=
  mkPoint (y p * z q - z p * y q) (z p * x q - x p * z q) (x p * y q - y p * x q).

Definition ref_vec3Det (a b c : NiPoint3) : num := ref_vec3Dot a (ref_vec3Cross b c).

Definition ref_rotateXY (v : NiPoint3) (a : num) : NiPoint3 :=
  mkPoint (x v * cosf a - y v * sinf a) (x v * sinf a + y v * cosf a) (z v).

Definition identity43 : NiMatrix43 := mkMatrix (pt 1 0 0) (pt 0 1 0) (pt 0 0 1).

Definition mat_mul (a b : NiMatrix43) : NiMatrix43 :=
  let bt := Transpose b in
  mkMatrix (mkPoint (row_dot (row0 a) (row0 bt)) (row_dot (row0 a) (row1 bt))
                    (row_dot (row0 a) (row2 bt)))
           (mkPoint (row_dot (row1 a) (row0 bt)) (row_dot (row1 a) (row1 bt))
                    (row_dot (row1 a) (row2 bt)))
           (mkPoint (row_dot (row2 a) (row0 bt)) (row_dot (row2 a) (row1 bt))
                    (row_dot (row2 a) (row2 bt))).

Definition mat_add (a b : NiMatrix43) : NiMatrix43 :=
  mkMatrix (row0 a +v row0 b) (row1 a +v row1 b) (row2 a +v row2 b).

Definition mat_scale (a : NiMatrix43) (f : num) : NiMatrix43 :=
  mkMatrix (row0 a *v f) (row1 a *v f) (row2 a *v f).

(** The matrix of [v |-> k x v]. *)
Definition cross_matrix (k : NiPoint3) : NiMatrix43 :=
  mkMatrix (mkPoint (lit 0) (- z k) (y k))
           (mkPoint (z k) (lit 0) (- x k))
           (mkPoint (- y k) (x k) (lit 0)).

(** Rodrigues' formula for a unit axis. *)
Definition ref_getRotationAxisAngle (axis : NiPoint3) (theta : num) : NiMatrix43 :=
  let k := cross_matrix axis in
  mat_add identity43
    (mat_add (mat_scale k (sinf theta)) (mat_scale (mat_mul k k) (lit 1 - cosf theta))).

Definition list_of_point (p : NiPoint3) (w : num) : list num := [x p; y p; z p; w].

Definition matrix44_of (r : NiMatrix43) (p : NiPoint3) : Matrix44 :=
  mkMatrix44 [list_of_point (row0 r) (lit 0); list_of_point (row1 r) (lit 0);
              list_of_point (row2 r) (lit 0); list_of_point p (lit 1)].

Definition entry (m : Matrix44) (i j : nat) : num :=
  default (lit 0) (data m !! i ≫= fun r => r !! j).

Definition ref_make43 (m : Matrix44) : NiMatrix43 :=
  mkMatrix (mkPoint (entry m 0 0) (entry m 0 1) (entry m 0 2))
           (mkPoint (entry m 1 0) (entry m 1 1) (entry m 1 2))
           (mkPoint (entry m 2 0) (entry m 2 1) (entry m 2 2)).

Definition ref_Matrix44_new : Matrix44 := matrix44_of identity43 zero3.

Definition ref_Matrix44_assign (m : Matrix44) (v : num) : Matrix44 :=
  mkMatrix44 (replicate 4 (replicate 4 v)).

Definition ref_setEulerAngles (m : Matrix44) (a b c : num) : Matrix44 :=
  let rx := ref_getRotationAxisAngle (pt 1 0 0) a in
  let ry := ref_getRotationAxisAngle (pt 0 1 0) b in
  let rz := ref_getRotationAxisAngle (pt 0 0 1) c in
  matrix44_of (mat_mul rx (mat_mul ry rz)) zero3.

(** The rotation that takes the direction of [fromVec] to that of
    [toVec]. *)
Definition ref_rotateVectorVec (m : Matrix44) (toVec fromVec : NiPoint3) : Matrix44 :=
  let toVec := ref_vec3Norm toVec in
  let fromVec := ref_vec3Norm fromVec in
  let dotP := ref_vec3Dot fromVec toVec in
  if dotP >=? lit 0.99999 then ref_Matrix44_new
  else
    let k := cross_matrix (ref_vec3Cross fromVec toVec) in
    matrix44_of
      (mat_add identity43 (mat_add k (mat_scale (mat_mul k k) (lit 1 / (lit 1 + dotP)))))
      zero3.

Definition ref_makeTransformMatrix (m : Matrix44) (r : NiMatrix43) (p : NiPoint3) : Matrix44 :=
  matrix44_of r p.

(** Modelled from the spec: [multiply43Left] and [multiply43Right] of
    common/Matrix.h.  The propagation "world.rot = parent.world.rot *
    local.rot" is written [rot.makeTransformMatrix(local.rot, 0);
    world.rot = rot.multiply43Left(parent.world.rot)] in the code: the
    argument of [multiply43Left] is the factor on the left, that of
    [multiply43Right] the factor on the right. *)
Definition ref_multiply43Left (m : Matrix44) (r : NiMatrix43) : NiMatrix43 :=
  mat_mul r (ref_make43 m).

Definition ref_multiply43Right (m : Matrix44) (r : NiMatrix43) : NiMatrix43 :=
  mat_mul (ref_make43 m) r.

Record RefQuaternion := mkQuat { qw : num; qx : num; qy : num; qz : num }.

Definition copy_sign (a b : num) : num := if b <? lit 0 then - fabs a else fabs a.

Definition ref_fromRot (q : RefQuaternion) (r : NiMatrix43) : RefQuaternion :=
  let m00 := x (row0 r) in let m11 := y (row1 r) in let m22 := z (row2 r) in
  let half v := fsqrt (std_max (lit 0) v) / lit 2 in
  mkQuat (half (lit 1 + m00 + m11 + m22))
         (copy_sign (half (lit 1 + m00 - m11 - m22)) (y (row2 r) - z (row1 r)))
         (copy_sign (half (lit 1 - m00 + m11 - m22)) (z (row0 r) - x (row2 r)))
         (copy_sign (half (lit 1 - m00 - m11 + m22)) (x (row1 r) - y (row0 r))).

(** Normalised linear interpolation stands in for the spherical one. *)
Definition ref_slerp (q : RefQuaternion) (t : num) (target : RefQuaternion) : RefQuaternion :=
  let mix a b := a + (b - a) * t in
  let w := mix (qw q) (qw target) in let a := mix (qx q) (qx target) in
  let b := mix (qy q) (qy target) in let c := mix (qz q) (qz target) in
  let n := fsqrt (w * w + a * a + b * b + c * c) in
  mkQuat (w / n) (a / n) (b / n) (c / n).

Definition ref_getRot (q : RefQuaternion) : Matrix44 :=
  let w := qw q in let a := qx q in let b := qy q in let c := qz q in
  let two := lit 2 in
  matrix44_of
    (mkMatrix
       (mkPoint (lit 1 - two * (b * b + c * c)) (two * (a * b - c * w)) (two * (a * c + b * w)))
       (mkPoint (two * (a * b + c * w)) (lit 1 - two * (a * a + c * c)) (two * (b * c - a * w)))
       (mkPoint (two * (a * c - b * w)) (two * (b * c + a * w)) (lit 1 - two * (a * a + b * b))))
    zero3.

(** Modelled from the spec: the propagation of f4vr/F4VRUtils.h,
    "world.pos = parent.world.pos + parent.world.rot * (local.pos *
    parent.world.scale); world.rot = parent.world.rot * local.rot",
    down the chain of an arm. *)
Definition propagate (parent : NiTransform) (l : NiTransform) : NiTransform :=
  mkTransform (mat_mul (rot parent) (rot l))
              (pos parent +v rot parent *m (pos l *v scale parent))
              (scale parent * scale l).

Definition propagate_node (parent : NiNode) (n : NiNode) : NiNode :=
  set_world n (propagate (m_worldTransform parent) (m_localTransform n)).

Definition ref_updateDownArm (a : ArmNodes) (updateSelf : bool) : ArmNodes :=
  let up := propagate_node (shoulder a) (upper a) in
  let f1 := propagate_node up (forearm1 a) in
  let f2 := propagate_node f1 <$> forearm2 a in
  let f3 := propagate_node (default f1 f2) <$> forearm3 a in
  let h := propagate_node (default (default f1 f2) f3) (hand a) in
  mkArm (shoulder a) up f1 f2 f3 h.

Definition RefHelpers : Helpers :=
  {| PI := ref_PI;
     degreesToRads := ref_degreesToRads;
     vec3Len := ref_vec3Len;
     vec3Norm := ref_vec3Norm;
     vec3Dot := ref_vec3Dot;
     vec3Det := ref_vec3Det;
     rotateXY := ref_rotateXY;
     getRotationAxisAngle := ref_getRotationAxisAngle;
     Matrix44_new := ref_Matrix44_new;
     Matrix44_assign := ref_Matrix44_assign;
     setEulerAngles := ref_setEulerAngles;
     rotateVectorVec := ref_rotateVectorVec;
     makeTransformMatrix := ref_makeTransformMatrix;
     multiply43Left := ref_multiply43Left;
     multiply43Right := ref_multiply43Right;
     make43 := ref_make43;
     Quaternion := RefQuaternion;
     Quaternion_new := mkQuat (lit 1) (lit 0) (lit 0) (lit 0);
     fromRot := ref_fromRot;
     slerp := ref_slerp;
     getRot := ref_getRot;
     updateTransforms := fun n => n;
     updateDown := fun n _ => n;
     updateDownArm := ref_updateDownArm;
     Update1StPersonArm := fun _ _ hands => hands;
     NiTransform_new := mkTransform identity43 zero3 (lit 1);
     NiMatrix43_new := identity43 |}.

End Reference.

(** ** Laws of the scalars

    The few facts about comparison and multiplication that some
    properties need; both models of the scalars have them. *)
Record ScalarLaws `{Scalar} : Prop := mkScalarLaws {
  fmul_comm : forall a b : num, (a * b = b * a)%fl;
  flt_irrefl : forall a : num, (a <? a)%fl = false;
  fle_total : forall a b : num,
    isnan a = false -> isnan b = false -> (a <? b)%fl = false -> (b <=? a)%fl = true;
  fle_not_nan : forall a b : num,
    (a <=? b)%fl = true -> isnan a = false /\ isnan b = false
}.

Arguments ScalarLaws _ : clear implicits.

(** The yaw of the neck in the words of the specification: the
    candidate angle is clamped to 50 degrees either way and the
    result is scaled by the weight. *)
Definition spec_neckYaw `{Scalar} `{!Helpers} (pn : PlayerNodes) : num :=
  (std_clamp (- neckYaw_angleFinal pn) (degreesToRads (lit (-50))) (degreesToRads (lit 50))
   * neckYaw_weight pn)%fl.

(** The local transforms of the bones of an arm. *)
Definition arm_locals `{Scalar} (a : ArmNodes)
  : NiTransform * NiTransform * NiTransform * option NiTransform * option NiTransform
    * NiTransform :=
  (m_localTransform (shoulder a), m_localTransform (upper a), m_localTransform (forearm1 a),
   m_localTransform <$> forearm2 a, m_localTransform <$> forearm3 a,
   m_localTransform (hand a)).

(** ** Notions used by the properties *)

Section Notions.
Context `{Scalar} `{!Helpers}.

(** The part of an entry that the pose code never changes. *)
Definition shape (b : BoneTransforms) : Z * bool :=
  (parPos b, match refNode b with None => true | Some _ => false end).

(** Entry [b] of the array [rt] has the world transform that its
    parent entry and its own local transform give. *)
Definition propagated (work : Matrix44) (rt : list BoneTransforms) (b : BoneTransforms) : Prop :=
  exists parent, at_index rt (parPos b) = Some parent /\
    pos (world b) = world_pos_of parent (pos (local b)) /\
    rot (world b) = world_rot_of work parent (rot (local b)).

(** Modelled from the spec: what [makeTransformMatrix] and
    [multiply43Left] of common/Matrix.h form together where the code
    propagates a rotation, "world.rot = parent.world.rot * local.rot":
    the matrix made of a rotation and no translation, multiplied with
    the argument as the factor on the left. *)
Definition left_factor_law : Prop :=
  forall (work : Matrix44) (r p : NiMatrix43),
    multiply43Left (makeTransformMatrix work r zero3) p = mat_mul p r.

(** Parents come before their children (for the entries that are
    computed rather than copied from a node). *)
Definition topological (rt : list BoneTransforms) : Prop :=
  forall i b, rt !! i = Some b -> refNode b = None -> (0 <= parPos b < Z.of_nat i)%Z.

Definition hand_tables_complete (inp : HandInput) (names : list string) (n : nat) : Prop :=
  n <= length names /\
  (forall name, is_Some (_fingerRelations inp !! name) -> is_Some (_handBonesButton inp !! name)) /\
  (forall bone i, fpBoneIndex inp !! bone = Some i -> i < length (fpTransforms inp)).

(** The bones of the forearm that are there stay there. *)
Definition forearms_present (a : ArmNodes) : bool * bool :=
  (bool_decide (is_Some (forearm2 a)), bool_decide (is_Some (forearm3 a))).

End Notions.

(** ** Sample inputs

    Small concrete skeletons, written over any model of the scalars;
    the properties are run on them with the reference helpers. *)

Section Samples.
Context `{Scalar}.
Local Open Scope fl_scope.

Definition sample_transform (p : NiPoint3) : NiTransform :=
  mkTransform identity43 p (lit 1).

(** A node with the same transform locally and in the world. *)
Definition sample_node (p : NiPoint3) : NiNode :=
  mkNode (sample_transform p) (sample_transform p).

(** A node at [l] in its parent and at [w] in the world. *)
Definition sample_bone (l w : NiPoint3) : NiNode :=
  mkNode (sample_transform l) (sample_transform w).

(** Legs: the hips one unit under a pelvis at height 10, both feet at
    the origin. *)
Definition sample_leg_nodes : gmap string NiNode :=
  list_to_map
    [("Pelvis", sample_node (pt 0 0 10));
     ("SPINE2", sample_node (pt 0 0 12));
     ("LLeg_Thigh", sample_bone (pt 0 0 (-1)) (pt 0 0 9));
     ("RLeg_Thigh", sample_bone (pt 0 0 (-1)) (pt 0 0 9));
     ("LLeg_Calf", sample_bone (pt 4 0 0) (pt 0 0 5));
     ("RLeg_Calf", sample_bone (pt 4 0 0) (pt 0 0 5));
     ("LLeg_Foot", sample_bone (pt 5 0 0) (pt 0 0 0));
     ("RLeg_Foot", sample_bone (pt 5 0 0) (pt 0 0 0))].

Definition sample_parent (name : string) : option string :=
  if String.eqb name "LLeg_Thigh" || String.eqb name "RLeg_Thigh" then Some "Pelvis"
  else None.

(** A player standing still, about to be seen moving. *)
Definition sample_idle : Walk :=
  {| nodes := sample_leg_nodes; _root := sample_node zero3;
     _prevSpeed := lit 0; _walkingState := 0; _footStepping := 0;
     _stepDir := zero3; _stepTimeinStep := lit 0; _delayFrame := 0;
     _rightFootTarget := zero3; _rightFootStart := zero3;
     _leftFootTarget := zero3; _leftFootStart := zero3;
     _leftFootPos := zero3; _rightFootPos := zero3;
     _currentStepTime := lit 0; spineAngle := lit 0 |}.

(** One unit along x in 1/64 s: speed 64. *)
Definition sample_fast : WalkInput :=
  {| _inPowerArmor := false; _lastPosition := pt 0 0 70; _curentPosition := pt 1 0 70;
     _frameTime := lit (1 # 64); isJumpingOrInAir := false; rand := 0 |}.

(** A player walking at speed 100, the right foot in flight towards
    a target 100 units ahead. *)
Definition sample_walking : Walk :=
  {| nodes := sample_leg_nodes; _root := sample_node zero3;
     _prevSpeed := lit 100; _walkingState := 1; _footStepping := 1;
     _stepDir := pt 1 0 0; _stepTimeinStep := lit 0.5; _delayFrame := 2;
     _rightFootTarget := pt 100 0 0; _rightFootStart := zero3;
     _leftFootTarget := zero3; _leftFootStart := zero3;
     _leftFootPos := zero3; _rightFootPos := zero3;
     _currentStepTime := lit 0; spineAngle := lit 0 |}.

(** One unit along x in 1/8 s: speed 8, which the averaging with the
    previous 100 makes 54. *)
Definition sample_slow : WalkInput :=
  {| _inPowerArmor := false; _lastPosition := pt 0 0 70; _curentPosition := pt 1 0 70;
     _frameTime := lit (1 # 8); isJumpingOrInAir := false; rand := 0 |}.

(** Head at the origin looking along its own axes, the left
    controller at (30, 10, 0), the right one at (5, -10, 0): the
    hands are crossed, and the two vectors add up to the x axis. *)
Definition sample_player : PlayerNodes :=
  {| UprightHmdNode := sample_node zero3;
     HmdNode := sample_bone (pt 0 0 1) zero3;
     SecondaryWandNode := sample_node (pt 30 10 0);
     primaryWandNode := sample_node (pt 5 (-10) 0) |}.

(** A flattened tree of two entries: a root that mirrors a node, and
    a bone under it. *)
Definition sample_tree : list BoneTransforms :=
  [ {| local := sample_transform zero3; world := sample_transform zero3;
       parPos := -1; refNode := Some (sample_node (pt 0 0 70)) |};
    {| local := sample_transform (pt 2 0 0); world := sample_transform zero3;
       parPos := 0; refNode := None |} ].

Definition sample_hand_state : HandState :=
  {| transforms := sample_tree; _handBones := ∅; _closedHand := ∅ |}.

(** No finger tables, no override, nothing pressed. *)
Definition sample_hand_input : HandInput :=
  {| _fingerRelations := ∅; _handBonesButton := ∅; handOpen := ∅; handClosed := ∅;
     handPapyrusHasControl := ∅; handPapyrusPose := ∅;
     leftButtonTouched := 0; rightButtonTouched := 0;
     leftGripAxis := lit 0; rightGripAxis := lit 0;
     isWeaponVisible := false; isPipboyOn := false; isOperatingPipboy := false;
     hand_isLeftHandedMode := false; hand_frameTime := lit (1 # 64);
     fpTransforms := []; fpBoneIndex := ∅ |}.

(** An arm along x: collar bone at the origin, upper arm 5 further,
    an upper arm of length 10 and a forearm of 3 + 3 + 4. *)
Definition sample_arm : ArmNodes :=
  {| shoulder := sample_node zero3;
     upper := sample_bone (pt 5 0 0) (pt 5 0 0);
     forearm1 := sample_bone (pt 10 0 0) (pt 15 0 0);
     forearm2 := Some (sample_bone (pt 3 0 0) (pt 18 0 0));
     forearm3 := Some (sample_bone (pt 3 0 0) (pt 21 0 0));
     hand := sample_bone (pt 4 0 0) (pt 25 0 0) |}.

(** A hand at [p], pitched by 30 degrees. *)
Definition sample_hand (p : NiPoint3) : NiNode :=
  let t := mkTransform (mkMatrix (pt 0.866 0 0.5) (pt 0 1 0) (pt (-0.5) 0 0.866)) p (lit 1) in
  mkNode t t.

(** The state of the arms, with the first-person right hand at
    [handPos]. *)
Definition sample_arms (handPos : NiPoint3) : ArmsState :=
  {| rightWeapon := sample_node zero3; WeaponLeftNode := sample_node zero3;
     primaryWeaponOffsetNOde := sample_node zero3;
     SecondaryMeleeWeaponOffsetNode2 := sample_node zero3;
     _leftHand := sample_node (pt (-5) 15 0); _rightHand := sample_hand handPos;
     _leftHandPrevFrame := sample_transform zero3;
     _rightHandPrevFrame := sample_transform zero3;
     _leftArm := sample_arm; _rightArm := sample_arm;
     prevAngle0 := lit 0.1; prevAngle1 := lit 0.2 |}.

Definition sample_arms_input : ArmsInput :=
  {| firstPersonSkeleton := true; isLeftHandedMode := false; arms_inPowerArmor := false;
     armLength := lit 36.74;
     dampenHands := false; dampenHandsInVanillaScope := false;
     dampenHandsRotation := lit 0; dampenHandsRotationInVanillaScope := lit 0;
     dampenHandsTranslation := lit 0; dampenHandsTranslationInVanillaScope := lit 0;
     isInScopeMenu := false;
     arms_curentPosition := zero3; arms_lastPosition := zero3;
     _forwardDir := pt 0 1 0; _sidewaysRDir := pt 1 0 0;
     _chest := sample_node (pt 0 0 100); root_scale := lit 1 |}.

(** Hand positions: within reach, 100 units to the side, and with a
    coordinate that is not a number. *)
Definition hand_near : NiPoint3 := pt 5 15 0.
Definition hand_far : NiPoint3 := pt 5 100 0.
Definition hand_lost : NiPoint3 := mkPoint (lit 0 / lit 0) (lit 0) (lit 0).

End Samples.

(** ** The finger tables *)

(** [std::map::insert]: a key that is there keeps its value. *)
Definition map_insert_new {V} (k : string) (v : V) (m : gmap string V) : gmap string V :=
  match m !! k with Some _ => m | None => <[k := v]> m end.

(** The lambda [addFingerRelations] of [makeFingerRelations]: each
    bone of a finger is given the bone before it and the bone after
    it. *)
Definition addFingerRelations (hand finger1 finger2 finger3 : string)
    (map : gmap string (string * string)) : gmap string (string * string) :=
  let map := map_insert_new finger1 (hand, finger2) map in
  let map := map_insert_new finger2 (finger1, finger3) map in
  map_insert_new finger3 (finger2, ""%string) map.

(** [Skeleton::makeFingerRelations]. *)
Definition makeFingerRelations : gmap string (string * string) :=
  let map : gmap string (string * string) := ∅ in
  (* left hand *)
  let map := addFingerRelations "LArm_Hand" "LArm_Finger11" "LArm_Finger12" "LArm_Finger13" map in
  let map := addFingerRelations "LArm_Hand" "LArm_Finger21" "LArm_Finger22" "LArm_Finger23" map in
  let map := addFingerRelations "LArm_Hand" "LArm_Finger31" "LArm_Finger32" "LArm_Finger33" map in
  let map := addFingerRelations "LArm_Hand" "LArm_Finger41" "LArm_Finger42" "LArm_Finger43" map in
  let map := addFingerRelations "LArm_Hand" "LArm_Finger51" "LArm_Finger52" "LArm_Finger53" map in
  (* right hand *)
  let map := addFingerRelations "RArm_Hand" "RArm_Finger11" "RArm_Finger12" "RArm_Finger13" map in
  let map := addFingerRelations "RArm_Hand" "RArm_Finger21" "RArm_Finger22" "RArm_Finger23" map in
  let map := addFingerRelations "RArm_Hand" "RArm_Finger31" "RArm_Finger32" "RArm_Finger33" map in
  let map := addFingerRelations "RArm_Hand" "RArm_Finger41" "RArm_Finger42" "RArm_Finger43" map in
  let map := addFingerRelations "RArm_Hand" "RArm_Finger51" "RArm_Finger52" "RArm_Finger53" map in
  map.

(** [Skeleton::getHandBonesButtonMap]: the button of the controller
    that each finger bone follows; first the initializer list, then
    the map built from it. *)
Definition handBonesButtons : list (string * Z) :=
    [("LArm_Finger11", k_EButton_SteamVR_Touchpad);
     ("LArm_Finger12", k_EButton_SteamVR_Touchpad);
     ("LArm_Finger13", k_EButton_SteamVR_Touchpad);
     ("LArm_Finger21", k_EButton_SteamVR_Trigger);
     ("LArm_Finger22", k_EButton_SteamVR_Trigger);
     ("LArm_Finger23", k_EButton_SteamVR_Trigger);
     ("LArm_Finger31", k_EButton_Grip);
     ("LArm_Finger32", k_EButton_Grip);
     ("LArm_Finger33", k_EButton_Grip);
     ("LArm_Finger41", k_EButton_Grip);
     ("LArm_Finger42", k_EButton_Grip);
     ("LArm_Finger43", k_EButton_Grip);
     ("LArm_Finger51", k_EButton_Grip);
     ("LArm_Finger52", k_EButton_Grip);
     ("LArm_Finger53", k_EButton_Grip);
     ("RArm_Finger11", k_EButton_SteamVR_Touchpad);
     ("RArm_Finger12", k_EButton_SteamVR_Touchpad);
     ("RArm_Finger13", k_EButton_SteamVR_Touchpad);
     ("RArm_Finger21", k_EButton_SteamVR_Trigger);
     ("RArm_Finger22", k_EButton_SteamVR_Trigger);
     ("RArm_Finger23", k_EButton_SteamVR_Trigger);
     ("RArm_Finger31", k_EButton_Grip);
     ("RArm_Finger32", k_EButton_Grip);
     ("RArm_Finger33", k_EButton_Grip);
     ("RArm_Finger41", k_EButton_Grip);
     ("RArm_Finger42", k_EButton_Grip);
     ("RArm_Finger43", k_EButton_Grip);
     ("RArm_Finger51", k_EButton_Grip);
     ("RArm_Finger52", k_EButton_Grip);
     ("RArm_Finger53", k_EButton_Grip)].

Definition getHandBonesButtonMap : gmap string Z := list_to_map handBonesButtons.

(** ** Bones by name *)

Section BoneTreeMap.
Context `{Scalar} `{!Helpers}.

(** [Skeleton::initBoneTreeMap]: the loop over the entries of the
    flattened tree of [_root]; [names] are the [name] members of the
    entries, in order.  Returns [_boneTreeMap] and [_boneTreeVec]. *)
Fixpoint initBoneTreeMap_loop (names : list string) (i : Z)
    (_boneTreeMap : gmap string Z) (_boneTreeVec : list string)
  : gmap string Z * list string :=
  match names with
  | [] => (_boneTreeMap, _boneTreeVec)
  | name :: names =>
      initBoneTreeMap_loop names (i + 1)
        (map_insert_new name i _boneTreeMap) (_boneTreeVec ++ [name])
  end.

Definition initBoneTreeMap (names : list string) : gmap string Z * list string :=
  initBoneTreeMap_loop names 0 ∅ [].

(** [Skeleton::getBoneWorldTransform]: [_boneTreeMap[boneName]]
    stores index 0 for a name that the map does not have.  Returns the
    transform and the map. *)
Definition getBoneWorldTransform (rt : list BoneTransforms) (_boneTreeMap : gmap string Z)
    (boneName : string) : option NiTransform * gmap string Z :=
  let _boneTreeMap := map_insert_new boneName 0%Z _boneTreeMap in
  let i := map_index 0%Z _boneTreeMap boneName in
  (world <$> at_index rt i, _boneTreeMap).

End BoneTreeMap.

(** ** The default pose of the skeleton *)

Section Defaults.
Context `{Scalar}.

(** [getTransform] of f4vr/F4VRUtils.h is not part of the sources at
    hand: it builds a transform from thirteen numbers. *)
Variable getTransform :
  num -> num -> num -> num -> num -> num -> num -> num -> num -> num -> num -> num -> num
  -> NiTransform.

(** [Skeleton::getSkeletonNodesDefaultTransforms]: the initializer
    list of the map. *)
Definition getSkeletonNodesDefaultTransforms : list (string * NiTransform) :=
    [
     ("Root",
      getTransform (lit 0.0) (lit 0.0) (lit 0.0)
        (lit 1.0) (lit 0.0) (lit 0.0)
        (lit 0.0) (lit 1.0) (lit 0.0)
        (lit 0.0) (lit 0.0) (lit 1.0) (lit 1.0));
     ("COM",
      getTransform (lit 0.0) (lit 0.0) (lit 68.91130)
        (lit 0.0) (lit 0.0) (lit (-1.0))
        (lit 0.0) (lit 1.0) (lit 0.0)
        (lit 1.0) (lit 0.0) (lit 0.0) (lit 1.0));
     ("Pelvis",
      getTransform (lit 0.0) (lit 0.0) (lit 0.0)
        (lit 1.0) (lit 0.0) (lit 0.0)
        (lit 0.0) (lit 1.0) (lit 0.0)
        (lit 0.0) (lit 0.0) (lit 1.0) (lit 1.0));
     ("LLeg_Thigh",
      getTransform (lit 0.0) (lit 0.00040) (lit 6.61510)
        (lit (-0.99112)) (lit (-0.00017)) (lit (-0.13297))
        (lit (-0.03860)) (lit 0.95730) (lit 0.28650)
        (lit 0.12725) (lit 0.28909) (lit (-0.94881)) (lit 1.0));
     ("LLeg_Calf",
      getTransform (lit 31.59520) (lit 0.0) (lit 0.0)
        (lit 0.99210) (lit 0.12266) (lit (-0.02618))
        (lit (-0.12266)) (lit 0.99245) (lit 0.00159)
        (lit 0.02617) (lit 0.00164) (lit 0.99966) (lit 1.0));
     ("LLeg_Foot",
      getTransform (lit 31.94290) (lit 0.0) (lit 0.0)
        (lit 0.45330) (lit (-0.88555)) (lit (-0.10159))
        (lit 0.88798) (lit 0.45855) (lit (-0.03499))
        (lit 0.07757) (lit (-0.07435)) (lit 0.99421) (lit 1.0));
     ("RLeg_Thigh",
      getTransform (lit 0.0) (lit 0.00040) (lit (-6.61510))
        (lit (-0.99307)) (lit 0.00520) (lit 0.11741)
        (lit (-0.02903)) (lit 0.95721) (lit (-0.28795))
        (lit (-0.11389)) (lit (-0.28936)) (lit (-0.95042)) (lit 1.0));
     ("RLeg_Calf",
      getTransform (lit 31.59510) (lit 0.0) (lit 0.0)
        (lit 0.99108) (lit 0.13329) (lit 0.00011)
        (lit (-0.13329)) (lit 0.99108) (lit 0.00139)
        (lit 0.00007) (lit (-0.00140)) (lit 1.0) (lit 1.0));
     ("RLeg_Foot",
      getTransform (lit 31.94260) (lit 0.0) (lit 0.0)
        (lit 0.44741) (lit (-0.88731)) (lit 0.11181)
        (lit 0.89061) (lit 0.45344) (lit 0.03463)
        (lit (-0.08143)) (lit 0.08409) (lit 0.99313) (lit 1.0));
     ("SPINE1",
      getTransform (lit 3.792) (lit (-0.00290)) (lit 0.0)
        (lit 0.99246) (lit (-0.12254)) (lit 0.0)
        (lit 0.12254) (lit 0.99246) (lit 0.0)
        (lit 0.0) (lit 0.0) (lit 1.0) (lit 1.0));
     ("SPINE2",
      getTransform (lit 8.70470) (lit 0.0) (lit 0.0)
        (lit 0.98463) (lit 0.17464) (lit 0.0)
        (lit (-0.17464)) (lit 0.98463) (lit 0.0)
        (lit 0.0) (lit 0.0) (lit 1.0) (lit 1.0));
     ("Chest",
      getTransform (lit 9.95630) (lit 0.0) (lit 0.0)
        (lit 0.99983) (lit (-0.01837)) (lit 0.0)
        (lit 0.01837) (lit 0.99983) (lit 0.0)
        (lit 0.0) (lit 0.0) (lit 1.0) (lit 1.0));
     ("LArm_Collarbone",
      getTransform (lit 19.15320) (lit (-0.51040)) (lit 1.69510)
        (lit (-0.40489)) (lit (-0.00599)) (lit (-0.91434))
        (lit (-0.26408)) (lit 0.95813) (lit 0.11066)
        (lit 0.87540) (lit 0.28627) (lit (-0.38952)) (lit 1.0));
     ("LArm_UpperArm",
      getTransform (lit 12.53660) (lit 0.0) (lit 0.0)
        (lit 0.91617) (lit (-0.25279)) (lit (-0.31102))
        (lit 0.25328) (lit 0.96658) (lit (-0.03954))
        (lit 0.31062) (lit (-0.04255)) (lit 0.94958) (lit 1.0));
     ("LArm_ForeArm1",
      getTransform (lit 17.96830) (lit 0.0) (lit 0.0)
        (lit 0.85511) (lit (-0.51462)) (lit (-0.06284))
        (lit 0.51548) (lit 0.85690) (lit (-0.00289))
        (lit 0.05534) (lit (-0.02992)) (lit 0.99802) (lit 1.0));
     ("LArm_ForeArm2",
      getTransform (lit 6.15160) (lit 0.0) (lit 0.0)
        (lit 1.0) (lit 0.0) (lit 0.0)
        (lit 0.0) (lit 0.99999) (lit (-0.00536))
        (lit 0.0) (lit 0.00536) (lit 0.99999) (lit 1.0));
     ("LArm_ForeArm3",
      getTransform (lit 6.15160) (lit (-0.00010)) (lit 0.0)
        (lit 1.0) (lit 0.0) (lit 0.0)
        (lit 0.0) (lit 0.99999) (lit (-0.00536))
        (lit 0.0) (lit 0.00536) (lit 0.99999) (lit 1.0));
     ("LArm_Hand",
      getTransform (lit 6.15160) (lit 0.0) (lit (-0.00010))
        (lit 0.98845) (lit 0.14557) (lit (-0.04214))
        (lit 0.04136) (lit 0.00839) (lit 0.99911)
        (lit 0.14579) (lit (-0.98931)) (lit 0.00227) (lit 1.0));
     ("RArm_Collarbone",
      getTransform (lit 19.15320) (lit (-0.51040)) (lit (-1.69510))
        (lit (-0.40497)) (lit (-0.00602)) (lit 0.91431)
        (lit (-0.26413)) (lit 0.95811) (lit (-0.11069))
        (lit (-0.87535)) (lit (-0.28632)) (lit (-0.38960)) (lit 1.0));
     ("RArm_UpperArm",
      getTransform (lit 12.53430) (lit 0.0) (lit 0.0)
        (lit 0.91620) (lit (-0.25314)) (lit 0.31064)
        (lit 0.25365) (lit 0.96649) (lit 0.03947)
        (lit (-0.31022)) (lit 0.04263) (lit 0.94971) (lit 1.0));
     ("RArm_ForeArm1",
      getTransform (lit 17.97050) (lit 0.00010) (lit (-0.00010))
        (lit 0.85532) (lit (-0.51419)) (lit 0.06360)
        (lit 0.51507) (lit 0.85714) (lit 0.00288)
        (lit (-0.05599)) (lit 0.03030) (lit 0.99797) (lit 1.0));
     ("RArm_ForeArm2",
      getTransform (lit 6.15280) (lit 0.0) (lit 0.0)
        (lit 1.0) (lit 0.0) (lit 0.0)
        (lit 0.0) (lit 0.99999) (lit 0.00536)
        (lit 0.0) (lit (-0.00536)) (lit 0.99999) (lit 1.0));
     ("RArm_ForeArm3",
      getTransform (lit 6.15290) (lit 0.0) (lit (-0.00010))
        (lit 1.0) (lit 0.0) (lit 0.0)
        (lit 0.0) (lit 0.99999) (lit 0.00536)
        (lit 0.0) (lit (-0.00536)) (lit 0.99999) (lit 1.0));
     ("RArm_Hand",
      getTransform (lit 6.15290) (lit 0.0) (lit 0.0)
        (lit 0.98845) (lit 0.14557) (lit 0.04214)
        (lit 0.04136) (lit 0.00839) (lit (-0.99911))
        (lit (-0.14579)) (lit 0.98931) (lit 0.00227) (lit 1.0));
     ("Neck",
      getTransform (lit 22.084) (lit (-3.767)) (lit 0.0)
        (lit 0.91268) (lit (-0.40867)) (lit (-0.00003))
        (lit 0.40867) (lit 0.91268) (lit 0.0)
        (lit 0.00002) (lit (-0.00001)) (lit 1.0) (lit 1.0));
     ("Head",
      getTransform (lit 8.22440) (lit 0.0) (lit 0.0)
        (lit 0.94872) (lit 0.31613) (lit 0.00002)
        (lit (-0.31613)) (lit 0.94872) (lit (-0.00001))
        (lit (-0.00003)) (lit 0.0) (lit 1.0) (lit 1.0))].

(** [Skeleton::getSkeletonNodesDefaultTransformsInPA]. *)
Definition getSkeletonNodesDefaultTransformsInPA : list (string * NiTransform) :=
    [
     ("Root",
      getTransform (lit 0.0) (lit 0.0) (lit 0.0)
        (lit 1.0) (lit 0.0) (lit 0.0)
        (lit 0.0) (lit 1.0) (lit 0.0)
        (lit 0.0) (lit 0.0) (lit 1.0) (lit 1.0));
     ("COM",
      getTransform (lit 0.0) (lit (-3.74980)) (lit 89.41950)
        (lit 0.0) (lit 0.0) (lit (-1.0))
        (lit 0.0) (lit 1.0) (lit 0.0)
        (lit 1.0) (lit 0.0) (lit 0.0) (lit 1.0));
     ("Pelvis",
      getTransform (lit 0.0) (lit 0.0) (lit 0.0)
        (lit 1.0) (lit 0.0) (lit 0.0)
        (lit 0.0) (lit 1.0) (lit 0.0)
        (lit 0.0) (lit 0.0) (lit 1.0) (lit 1.0));
     ("LLeg_Thigh",
      getTransform (lit 4.54870) (lit (-1.33)) (lit 6.90830)
        (lit (-0.98736)) (lit 0.14491) (lit 0.06416)
        (lit 0.06766) (lit 0.01940) (lit 0.99752)
        (lit 0.14331) (lit 0.98925) (lit (-0.02896)) (lit 1.0));
     ("LLeg_Calf",
      getTransform (lit 34.298) (lit 0.0) (lit 0.0)
        (lit 0.99681) (lit (-0.00145)) (lit 0.07983)
        (lit 0.00170) (lit 0.99999) (lit (-0.00305))
        (lit (-0.07982)) (lit 0.00318) (lit 0.99680) (lit 1.0));
     ("LLeg_Foot",
      getTransform (lit 52.54120) (lit 0.0) (lit 0.0)
        (lit 0.63109) (lit (-0.76168)) (lit (-0.14685))
        (lit (-0.07775)) (lit 0.12624) (lit (-0.98895))
        (lit 0.77180) (lit 0.63554) (lit 0.02045) (lit 1.0));
     ("RLeg_Thigh",
      getTransform (lit 4.54760) (lit (-1.32430)) (lit (-6.898))
        (lit (-0.98732)) (lit 0.14533) (lit (-0.06381))
        (lit 0.06732) (lit 0.01938) (lit (-0.99754))
        (lit (-0.14374)) (lit (-0.98919)) (lit (-0.02892)) (lit 1.0));
     ("RLeg_Calf",
      getTransform (lit 34.29790) (lit 0.0) (lit 0.0)
        (lit 0.99684) (lit (-0.00096)) (lit (-0.07937))
        (lit 0.00120) (lit 0.99999) (lit 0.00307)
        (lit 0.07937) (lit (-0.00316)) (lit 0.99684) (lit 1.0));
     ("RLeg_Foot",
      getTransform (lit 52.54080) (lit 0.0) (lit 0.0)
        (lit 0.63118) (lit (-0.76162)) (lit 0.14677)
        (lit (-0.07771)) (lit 0.12618) (lit 0.98896)
        (lit (-0.77173)) (lit (-0.63562)) (lit 0.02046) (lit 1.0));
     ("SPINE1",
      getTransform (lit 5.75050) (lit (-0.00290)) (lit 0.0)
        (lit 1.0) (lit 0.0) (lit 0.0)
        (lit 0.0) (lit 1.0) (lit 0.0)
        (lit 0.0) (lit 0.0) (lit 1.0) (lit 1.0));
     ("SPINE2",
      getTransform (lit 5.62550) (lit 0.0) (lit 0.0)
        (lit 1.0) (lit 0.0) (lit 0.0)
        (lit 0.0) (lit 1.0) (lit 0.0)
        (lit 0.0) (lit 0.0) (lit 1.0) (lit 1.0));
     ("Chest",
      getTransform (lit 5.53660) (lit 0.0) (lit 0.0)
        (lit 1.0) (lit 0.0) (lit 0.0)
        (lit 0.0) (lit 1.0) (lit 0.0)
        (lit 0.0) (lit 0.0) (lit 1.0) (lit 1.0));
     ("LArm_Collarbone",
      getTransform (lit 22.192) (lit 0.34820) (lit 1.00420)
        (lit (-0.34818)) (lit (-0.05435)) (lit (-0.93585))
        (lit (-0.26919)) (lit 0.96207) (lit 0.04428)
        (lit 0.89794) (lit 0.26734) (lit (-0.34961)) (lit 1.0));
     ("LArm_UpperArm",
      getTransform (lit 14.59840) (lit 0.00010) (lit 0.00010)
        (lit 0.77214) (lit (-0.19393)) (lit (-0.60514))
        (lit 0.08574) (lit 0.97538) (lit (-0.20318))
        (lit 0.62964) (lit 0.10499) (lit 0.76976) (lit 1.0));
     ("LArm_ForeArm1",
      getTransform (lit 19.53690) (lit 0.41980) (lit 0.04580)
        (lit 0.92233) (lit (-0.38166)) (lit (-0.06030))
        (lit 0.38176) (lit 0.92420) (lit (-0.01042))
        (lit 0.05971) (lit (-0.01341)) (lit 0.99813) (lit 1.0));
     ("LArm_ForeArm2",
      getTransform (lit 0.00020) (lit 0.00020) (lit 0.00020)
        (lit 1.0) (lit 0.0) (lit 0.0)
        (lit 0.0) (lit 1.0) (lit 0.0)
        (lit 0.0) (lit 0.0) (lit 1.0) (lit 1.0));
     ("LArm_ForeArm3",
      getTransform (lit 10.000494) (lit 0.000162) (lit (-0.000004))
        (lit 1.0) (lit 0.0) (lit 0.0)
        (lit 0.0) (lit 1.0) (lit 0.0)
        (lit 0.0) (lit 0.0) (lit 1.0) (lit 1.0));
     ("LArm_Hand",
      getTransform (lit 26.96440) (lit 0.00020) (lit 0.00040)
        (lit 0.98604) (lit 0.16503) (lit 0.02218)
        (lit 0.00691) (lit (-0.17364)) (lit 0.98479)
        (lit 0.16638) (lit (-0.97088)) (lit (-0.17236)) (lit 1.0));
     ("RArm_Collarbone",
      getTransform (lit 22.19190) (lit 0.34810) (lit (-1.004))
        (lit (-0.34818)) (lit (-0.06482)) (lit 0.93518)
        (lit (-0.26918)) (lit 0.96251) (lit (-0.03351))
        (lit (-0.89795)) (lit (-0.26340)) (lit (-0.35257)) (lit 1.0));
     ("RArm_UpperArm",
      getTransform (lit 14.59880) (lit 0.0) (lit 0.0)
        (lit 0.77213) (lit (-0.19339)) (lit 0.60533)
        (lit 0.09277) (lit 0.97667) (lit 0.19369)
        (lit (-0.62866)) (lit (-0.09340)) (lit 0.77205) (lit 1.0));
     ("RArm_ForeArm1",
      getTransform (lit 19.53660) (lit 0.41990) (lit (-0.04620))
        (lit 0.92233) (lit (-0.38166)) (lit 0.06029)
        (lit 0.38171) (lit 0.92422) (lit 0.01129)
        (lit (-0.06003)) (lit 0.01260) (lit 0.99812) (lit 1.0));
     ("RArm_ForeArm2",
      getTransform (lit (-0.00010)) (lit (-0.00010)) (lit (-0.00010))
        (lit 1.0) (lit 0.0) (lit 0.0)
        (lit 0.0) (lit 1.0) (lit 0.0)
        (lit 0.0) (lit 0.0) (lit 1.0) (lit 1.0));
     ("RArm_ForeArm3",
      getTransform (lit 10.00050) (lit (-0.00010)) (lit 0.00010)
        (lit 1.0) (lit 0.0) (lit 0.0)
        (lit 0.0) (lit 1.0) (lit 0.0)
        (lit 0.0) (lit 0.0) (lit 1.0) (lit 1.0));
     ("RArm_Hand",
      getTransform (lit 26.96460) (lit 0.00010) (lit 0.00120)
        (lit 0.98604) (lit 0.16503) (lit (-0.02218))
        (lit 0.00691) (lit (-0.17364)) (lit (-0.98479))
        (lit (-0.16638)) (lit 0.97088) (lit (-0.17236)) (lit 1.0));
     ("Neck",
      getTransform (lit 24.29350) (lit (-2.84160)) (lit 0.0)
        (lit 0.92612) (lit (-0.37723)) (lit (-0.00002))
        (lit 0.37723) (lit 0.92612) (lit 0.00001)
        (lit 0.00002) (lit (-0.00002)) (lit 1.0) (lit 1.0));
     ("Head",
      getTransform (lit 8.22440) (lit 0.0) (lit 0.0)
        (lit 0.94891) (lit 0.31555) (lit 0.00002)
        (lit (-0.31555)) (lit 0.94891) (lit 0.0)
        (lit (-0.00002)) (lit (-0.00001)) (lit 1.0) (lit 1.0))].

(** [Skeleton::initSkeletonNodesDefaults]: for every bone of the
    table that the skeleton has, the transform to reset it to is kept
    with the node; a bone that is not found is skipped with a
    warning.  [nodes] are the nodes under [_root] by name, nodes are
    kept by name here. *)
Definition initSkeletonNodesDefaults (defaultBonesMap : list (string * NiTransform))
    (nodes : gmap string NiNode)
    (_skeletonNodesToDefaultTransforms : list (string * NiTransform))
  : list (string * NiTransform) :=
  foldl (fun acc entry =>
           let '(boneName, defaultTransform) := entry in
           match nodes !! boneName with
           | Some node =>
               (* use node transform to keep scale *)
               let transform := m_localTransform node in
               let transform := set_pos transform (pos defaultTransform) in
               let transform := set_rot transform (rot defaultTransform) in
               acc ++ [(boneName, transform)]
           | None => acc
           end)
        _skeletonNodesToDefaultTransforms defaultBonesMap.

(** [Skeleton::restoreNodesToDefault]. *)
Definition restoreNodesToDefault (_skeletonNodesToDefaultTransforms : list (string * NiTransform))
    (nodes : gmap string NiNode) : gmap string NiNode :=
  foldl (fun nodes entry =>
           let '(boneNode, resetTransform) := entry in
           alter (fun node => set_local node resetTransform) boneNode nodes)
        nodes _skeletonNodesToDefaultTransforms.

End Defaults.

(** What [initSkeletonNodesDefaults] keeps for one row of the table. *)
Definition kept_default `{Scalar} (nodes0 : gmap string NiNode) (entry : string * NiTransform)
  : option (string * NiTransform) :=
  (fun node => (entry.1, mkTransform (rot entry.2) (pos entry.2)
                           (scale (m_localTransform node))))
  <$> nodes0 !! entry.1.

(** ** Showing and hiding *)

Section Visibility.
Context `{Scalar}.

(** A scene-graph object as far as the show and hide code uses it:
    the [flags] word, whose first bit culls the object, and the scale
    of the local transform. *)
Record NiAVObject := mkObject { flags : Z; local_scale : num }.

Definition cull (node : NiAVObject) : NiAVObject :=
  mkObject (Z.lor (flags node) 1) (local_scale node).

(** [node = getNode(name, base); if (node != nullptr) node->flags |= 0x1;]
    with the objects under [base] given by name. *)
Definition cull_named (name : string) (base : gmap string NiAVObject)
  : gmap string NiAVObject :=
  alter cull name base.

(** [Skeleton::hideFistHelpers], on the objects under
    [primaryWandNode] and under [SecondaryWandNode]. *)
Definition hideFistHelpers (isLeftHandedMode : bool)
    (primaryWandNode SecondaryWandNode : gmap string NiAVObject)
  : gmap string NiAVObject * gmap string NiAVObject :=
  let '(primaryWandNode, SecondaryWandNode) :=
    if negb isLeftHandedMode then
      let primaryWandNode := cull_named "fist_M_Right_HELPER" primaryWandNode in
      let primaryWandNode := cull_named "fist_F_Right_HELPER" primaryWandNode in
      let primaryWandNode := cull_named "PA_fist_R_HELPER" primaryWandNode in
      let SecondaryWandNode := cull_named "fist_M_Left_HELPER" SecondaryWandNode in
      let SecondaryWandNode := cull_named "fist_F_Left_HELPER" SecondaryWandNode in
      let SecondaryWandNode := cull_named "PA_fist_L_HELPER" SecondaryWandNode in
      (primaryWandNode, SecondaryWandNode)
    else
      let SecondaryWandNode := cull_named "fist_M_Right_HELPER" SecondaryWandNode in
      let SecondaryWandNode := cull_named "fist_F_Right_HELPER" SecondaryWandNode in
      let SecondaryWandNode := cull_named "PA_fist_R_HELPER" SecondaryWandNode in
      let primaryWandNode := cull_named "fist_M_Left_HELPER" primaryWandNode in
      let primaryWandNode := cull_named "fist_F_Left_HELPER" primaryWandNode in
      let primaryWandNode := cull_named "PA_fist_L_HELPER" primaryWandNode in
      (primaryWandNode, SecondaryWandNode) in
  let SecondaryWandNode :=
    alter (fun uiNode => mkObject (flags uiNode) (lit 0)) "Point002" SecondaryWandNode in
  (primaryWandNode, SecondaryWandNode).

(** The names of the fist helpers of one side. *)
Definition is_fist_helper (right : bool) (name : string) : bool :=
  if right
  then bool_decide (name = "fist_M_Right_HELPER") || bool_decide (name = "fist_F_Right_HELPER")
       || bool_decide (name = "PA_fist_R_HELPER")
  else bool_decide (name = "fist_M_Left_HELPER") || bool_decide (name = "fist_F_Left_HELPER")
       || bool_decide (name = "PA_fist_L_HELPER").

End Visibility.

Arguments NiAVObject {_}.

(** ** The weapon nodes of a left-handed player *)

Section WeaponSwitch.

(** The scene graph and its nodes are the engine's; so are
    [RemoveChild] and [AttachChild]. *)
Variables (Scene Node : Type).
Variable RemoveChild : Scene -> Node -> Node -> Scene.
Variable AttachChild : Scene -> Node -> Node -> bool -> Scene.

(** [Skeleton::handleLeftHandedWeaponNodesSwitch]: the state is
    [_lastLeftHandedModeSwitch] and the scene; the four nodes are the
    ones that the function looks up, null when they are not there. *)
Definition handleLeftHandedWeaponNodesSwitch (isLeftHandedMode : bool)
    (rightWeapon leftWeapon rHand lHand : option Node)
    (st : bool * Scene) : bool * Scene :=
  let '(_lastLeftHandedModeSwitch, scene) := st in
  if Bool.eqb _lastLeftHandedModeSwitch isLeftHandedMode then st
  else
    let _lastLeftHandedModeSwitch := isLeftHandedMode in
    match rightWeapon, rHand, leftWeapon, lHand with
    | Some rightWeapon, Some rHand, Some leftWeapon, Some lHand =>
        let scene := RemoveChild scene rHand rightWeapon in
        let scene := RemoveChild scene rHand leftWeapon in
        let scene := RemoveChild scene lHand rightWeapon in
        let scene := RemoveChild scene lHand leftWeapon in
        let scene :=
          if isLeftHandedMode then
            let scene := AttachChild scene rHand leftWeapon true in
            AttachChild scene lHand rightWeapon true
          else
            let scene := AttachChild scene rHand rightWeapon true in
            AttachChild scene lHand leftWeapon true in
        (_lastLeftHandedModeSwitch, scene)
    | _, _, _, _ =>
        (* cannot set up weapon nodes for the switch *)
        (isLeftHandedMode, scene)
    end.

End WeaponSwitch.

(** ** The body under the headset *)

Section BodyUnderHMD.
Context `{Scalar} `{!Helpers}.
Local Open Scope fl_scope.

(** More helper code outside the sources at hand: two methods of
    common/Matrix.h and the constant of the camera height. *)
Variable setAngleAxis : Quaternion -> num -> NiPoint3 -> Quaternion.
Variable makeIdentity : Matrix44 -> Matrix44.
Variable DEFAULT_CAMERA_HEIGHT : num.

(** What [setBodyUnderHMD] and [selfieSkelly] read and do not write:
    the configuration, the position of the camera and the nodes of
    the headset and the controllers, which are dereferenced without a
    check. *)
Record BodyInput := mkBodyInput {
  disableSmoothMovement : bool;
  body_inPowerArmor : bool;
  PACameraHeight : num;
  cameraHeight : num;
  getDynamicCameraHeight : num;
  playerHeight : num;
  getSelfieMode : bool;
  selfieOutFrontDistance : num;
  body_curentPosition : NiPoint3;
  body_playerNodes : PlayerNodes
}.

(** What they write: the node [playerworldnode], the root of the
    skeleton [_root], its parent ([body] in the code), either of
    which may be null, and the two directions of the body. *)
Record BodyState := mkBodyState {
  playerworldnode : NiNode;
  body_root : option NiNode;
  body_parent : option NiNode;
  body_forwardDir : NiPoint3;
  body_sidewaysRDir : NiPoint3
}.

(** [updateDown(_playerNodes->playerworldnode, true)] recomputes world
    transforms below the node, which may include the nodes of the
    state. *)
Variable updateDownWorld : BodyState -> BodyState.

(** [Skeleton::getNeckPitch]. *)
Definition getNeckPitch (pn : PlayerNodes) : num :=
  let lookDir := vec3Norm (Transpose (rot (m_worldTransform (HmdNode pn)))
                           *m pos (m_localTransform (HmdNode pn))) in
  atan2f (y lookDir) (z lookDir).

(** [Skeleton::setBodyUnderHMD]. *)
Definition setBodyUnderHMD (inp : BodyInput) (st : BodyState) : option BodyState :=
  let st :=
    if disableSmoothMovement inp then
      let height := if body_inPowerArmor inp
                    then PACameraHeight inp + getDynamicCameraHeight inp
                    else cameraHeight inp + getDynamicCameraHeight inp in
      let pw := playerworldnode st in
      let pw := set_local_pos pw (set_z (pos (m_localTransform pw)) height) in
      updateDownWorld (mkBodyState pw (body_root st) (body_parent st)
                         (body_forwardDir st) (body_sidewaysRDir st))
    else st in
  let mat := Matrix44_assign Matrix44_new (lit 0) in
  root ← body_root st;
  let z0 := z (pos (m_localTransform root)) in
  let neckYaw := getNeckYaw (Some (body_playerNodes inp)) in
  let neckPitch := getNeckPitch (body_playerNodes inp) in
  let qa := setAngleAxis Quaternion_new (- neckPitch) (pt (-1) 0 0) in
  let mat := getRot qa in
  let newRot := multiply43Left mat (rot (m_localTransform (HmdNode (body_playerNodes inp)))) in
  let forwardDir := rotateXY (mkPoint (x (row1 newRot)) (y (row1 newRot)) (lit 0))
                      (neckYaw * lit 0.7) in
  let sidewaysRDir := mkPoint (y forwardDir) (- x forwardDir) (lit 0) in
  body ← body_parent st;
  let body := set_local_pos body (pos (m_localTransform body) *v lit 0) in
  let bw := pos (m_worldTransform body) in
  let bw := mkPoint (x (body_curentPosition inp)) (y bw) (z bw) in
  let bw := mkPoint (x bw) (y (body_curentPosition inp)) (z bw) in
  let bw := set_z bw (z bw + z (pos (m_localTransform (playerworldnode st)))) in
  let body := set_world body (set_pos (m_worldTransform body) bw) in
  let back := vec3Norm (mkPoint (x forwardDir) (y forwardDir) (lit 0)) in
  let bodyDir := pt 0 1 0 in
  let mat := rotateVectorVec mat back bodyDir in
  let root := set_local_rot root (multiply43Left mat (Transpose (rot (m_worldTransform body)))) in
  let root := set_local_pos root (pos (m_worldTransform body) -v body_curentPosition inp) in
  let root := set_local_pos root (set_z (pos (m_localTransform root)) z0) in
  (* set scale based off specified user height *)
  let root := set_local root
                (mkTransform (rot (m_localTransform root)) (pos (m_localTransform root))
                   (playerHeight inp / DEFAULT_CAMERA_HEIGHT)) in
  Some (mkBodyState (playerworldnode st) (Some root) (Some body) forwardDir sidewaysRDir).

(** [Skeleton::selfieSkelly]: projects the body out in front of the
    player. *)
Definition selfieSkelly (inp : BodyInput) (st : BodyState) : option BodyState :=
  match getSelfieMode inp, body_root st with
  | true, Some root =>
      let z0 := z (pos (m_localTransform root)) in
      body ← body_parent st;
      let forwardDir := body_forwardDir st in
      let back := vec3Norm (mkPoint (- x forwardDir) (- y forwardDir) (lit 0)) in
      let bodyDir := pt 0 1 0 in
      let mat := makeIdentity Matrix44_new in
      let mat := rotateVectorVec mat back bodyDir in
      let root := set_local_rot root
                    (multiply43Left mat (Transpose (rot (m_worldTransform body)))) in
      let root := set_local_pos root
                    (pos (m_worldTransform body) -v body_curentPosition inp) in
      let p := pos (m_localTransform root) in
      let root := set_local_pos root
                    (mkPoint (x p) (y p + selfieOutFrontDistance inp) (z p)) in
      let root := set_local_pos root (set_z (pos (m_localTransform root)) z0) in
      Some (mkBodyState (playerworldnode st) (Some root) (Some body)
              (body_forwardDir st) (body_sidewaysRDir st))
  | _, _ => Some st
  end.

End BodyUnderHMD.

(** ** Notions used by the further properties *)

(** The values of [_footStepping]: no foot, the right one, the left
    one. *)
Definition foot_in_range (f : Z) : Prop := f = 0%Z \/ f = 1%Z \/ f = 2%Z.

(** The side of a finger bone, as [setHandPose] reads it off the first
    letter of the name, and the register of touched buttons of that
    side. *)
Definition bone_is_left (name : string) : bool :=
  match String.get 0 name with
  | Some c => if Ascii.ascii_dec c "L"%char then true else false
  | None => false
  end.

Definition bone_buttons `{Scalar} `{!Helpers} (inp : HandInput) (name : string) : Z :=
  if bone_is_left name then leftButtonTouched inp else rightButtonTouched inp.

(** What one turn of the loop leaves in entry [i]. *)
Definition entry_posed `{Scalar} `{!Helpers} (inp : HandInput) (name : string) (b b' : BoneTransforms) : Prop :=
  parPos b' = parPos b /\
  (forall n, refNode b' = Some n -> world b' = m_worldTransform n) /\
  match _fingerRelations inp !! name with
  | None => local b' = local b /\ refNode b' = refNode b
  | Some _ =>
      pos (local b') = pos (map_index NiTransform_new (handOpen inp) name) /\
      scale (local b') = scale (local b) /\
      refNode b' = (fun n => set_local n (local b')) <$> refNode b
  end.

(** The closed-hand flags that [setHandPose] stores while it goes
    through the bones [l]: for a finger bone, whether the button of
    the bone is touched on the controller of its side. *)
Definition closed_flags `{Scalar} `{!Helpers} (inp : HandInput) (l : list string)
    (m : gmap string bool) : gmap string bool :=
  foldl (fun m name =>
           match _fingerRelations inp !! name, _handBonesButton inp !! name with
           | Some _, Some button => <[name := has_button (bone_buttons inp name) button]> m
           | _, _ => m
           end) m l.

(** A point with three real coordinates, in the exact model. *)
Definition real_point (a b c : R) : @NiPoint3 XR.scalar :=
  @mkPoint XR.scalar (XR.Fin a) (XR.Fin b) (XR.Fin c).

(** ** More sample inputs *)

Section MoreSamples.
Context `{Scalar}.
Local Open Scope fl_scope.

(** The frame of [sample_fast] with the player in the air. *)
Definition sample_air : WalkInput :=
  {| _inPowerArmor := false; _lastPosition := pt 0 0 70; _curentPosition := pt 1 0 70;
     _frameTime := lit (1 # 64); isJumpingOrInAir := true; rand := 0 |}.

(** The arm of [sample_arm] without its second forearm bone. *)
Definition sample_arm_short : ArmNodes :=
  {| shoulder := sample_node zero3;
     upper := sample_bone (pt 5 0 0) (pt 5 0 0);
     forearm1 := sample_bone (pt 10 0 0) (pt 15 0 0);
     forearm2 := None;
     forearm3 := Some (sample_bone (pt 3 0 0) (pt 21 0 0));
     hand := sample_bone (pt 4 0 0) (pt 25 0 0) |}.

(** The state of [sample_arms] with that arm on the right. *)
Definition sample_arms_short (handPos : NiPoint3) : ArmsState :=
  {| rightWeapon := sample_node zero3; WeaponLeftNode := sample_node zero3;
     primaryWeaponOffsetNOde := sample_node zero3;
     SecondaryMeleeWeaponOffsetNode2 := sample_node zero3;
     _leftHand := sample_node (pt (-5) 15 0); _rightHand := sample_hand handPos;
     _leftHandPrevFrame := sample_transform zero3;
     _rightHandPrevFrame := sample_transform zero3;
     _leftArm := sample_arm; _rightArm := sample_arm_short;
     prevAngle0 := lit 0.1; prevAngle1 := lit 0.2 |}.

(** The right touchpad touched, with the finger tables of the game:
    [sample_hand_input] otherwise. *)
Definition sample_finger_input : HandInput :=
  {| _fingerRelations := makeFingerRelations; _handBonesButton := getHandBonesButtonMap;
     handOpen := ∅; handClosed := ∅;
     handPapyrusHasControl := ∅; handPapyrusPose := ∅;
     leftButtonTouched := 0;
     rightButtonTouched := ButtonMaskFromId k_EButton_SteamVR_Touchpad;
     leftGripAxis := lit 0; rightGripAxis := lit 0;
     isWeaponVisible := false; isPipboyOn := false; isOperatingPipboy := false;
     hand_isLeftHandedMode := false; hand_frameTime := lit (1 # 64);
     fpTransforms := []; fpBoneIndex := ∅ |}.

(** A transform from thirteen numbers, to run the tables of default
    transforms on: a position, the rows of a rotation and a scale. *)
Definition sample_getTransform (px py pz r00 r01 r02 r10 r11 r12 r20 r21 r22 s : num)
  : NiTransform :=
  mkTransform (mkMatrix (mkPoint r00 r01 r02) (mkPoint r10 r11 r12) (mkPoint r20 r21 r22))
    (mkPoint px py pz) s.

(** A camera at (3, 4, 70) over a root at height 5 whose parent is
    at (1, 1, 0); the selfie mode is on, 120 units out. *)
Definition sample_body_input : BodyInput :=
  {| disableSmoothMovement := false; body_inPowerArmor := false;
     PACameraHeight := lit 0; cameraHeight := lit 0; getDynamicCameraHeight := lit 0;
     playerHeight := lit 120; getSelfieMode := true; selfieOutFrontDistance := lit 120;
     body_curentPosition := pt 3 4 70; body_playerNodes := sample_player |}.

Definition sample_body : BodyState :=
  {| playerworldnode := sample_node zero3;
     body_root := Some (sample_node (pt 0 0 5));
     body_parent := Some (sample_node (pt 1 1 0));
     body_forwardDir := pt 0 1 0; body_sidewaysRDir := pt 1 0 0 |}.

(** A leg in power armor with the bind positions that the table of
    default transforms gives the calf and the foot, the hip at the
    origin, and the left foot sent straight down to the full length
    of the leg: the sum of the two bind lengths as [float] adds
    them. *)
Definition sample_pa_leg_nodes : gmap string NiNode :=
  list_to_map
    [("Pelvis", sample_node zero3);
     ("LLeg_Thigh", sample_node zero3);
     ("LLeg_Calf", sample_bone (pt 34.298 0 0) (pt 0 0 (-34)));
     ("LLeg_Foot", sample_bone (pt 52.5412 0 0) (pt 0 0 (-86)))].

Definition sample_pa_stretched : Walk :=
  {| nodes := sample_pa_leg_nodes; _root := sample_node zero3;
     _prevSpeed := lit 0; _walkingState := 0; _footStepping := 0;
     _stepDir := zero3; _stepTimeinStep := lit 0; _delayFrame := 0;
     _rightFootTarget := zero3; _rightFootStart := zero3;
     _leftFootTarget := zero3; _leftFootStart := zero3;
     _leftFootPos := mkPoint (lit 0) (lit 0) (- (lit 34.298 + lit 52.5412));
     _rightFootPos := zero3;
     _currentStepTime := lit 0; spineAngle := lit 0 |}.

(** A quarter turn about z and a quarter turn about x. *)
Definition turn_z : NiMatrix43 := mkMatrix (pt 0 (-1) 0) (pt 1 0 0) (pt 0 0 1).
Definition turn_x : NiMatrix43 := mkMatrix (pt 1 0 0) (pt 0 0 (-1)) (pt 0 1 0).

(** A flattened tree of two entries with rotations that do not
    commute: a root that mirrors a node turned about z, at scale 2 and
    height 70, and under it a bone turned about x. *)
Definition sample_turned_tree : list BoneTransforms :=
  [ {| local := sample_transform zero3; world := mkTransform turn_z (pt 0 0 70) (lit 2);
       parPos := -1;
       refNode := Some (mkNode (sample_transform zero3)
                          (mkTransform turn_z (pt 0 0 70) (lit 2))) |};
    {| local := mkTransform turn_x (pt 2 0 0) (lit 1); world := sample_transform zero3;
       parPos := 0; refNode := None |} ].

Definition sample_turned_state : HandState :=
  {| transforms := sample_turned_tree; _handBones := ∅; _closedHand := ∅ |}.

End MoreSamples.

(** * Properties *)

Section Propagation.
Context `{Scalar} `{!Helpers}.

Lemma shape_insert (rt : list BoneTransforms) i b b' :
  rt !! i = Some b -> shape b' = shape b -> shape <$> <[i := b']> rt = shape <$> rt.
Proof.
  intros Hi Hs. rewrite list_fmap_insert, Hs.
  apply list_insert_id. by rewrite list_lookup_fmap, Hi.
Qed.

Lemma shape_lookup (rt rt' : list BoneTransforms) i b' :
  shape <$> rt' = shape <$> rt -> rt' !! i = Some b' ->
  exists b, rt !! i = Some b /\ shape b = shape b'.
Proof.
  intros Hs Hi.
  assert (Hl : (shape <$> rt) !! i = Some (shape b')).
  { rewrite <- Hs, list_lookup_fmap, Hi. done. }
  rewrite list_lookup_fmap in Hl.
  destruct (rt !! i) as [b|]; simpl in Hl; [|discriminate].
  exists b. split; [done|congruence].
Qed.

Lemma at_index_insert_lt (rt : list BoneTransforms) i b p :
  (0 <= p < Z.of_nat i)%Z -> at_index (<[i := b]> rt) p = at_index rt p.
Proof.
  intros Hp. unfold at_index. destruct (0 <=? p)%Z; [|done].
  apply list_lookup_insert_ne. lia.
Qed.

Lemma at_index_is_Some (rt : list BoneTransforms) i p :
  i < length rt -> (0 <= p < Z.of_nat i)%Z -> is_Some (at_index rt p).
Proof.
  intros Hi Hp. unfold at_index.
  destruct (Z.leb_spec 0 p); [|lia]. apply lookup_lt_is_Some. lia.
Qed.

Lemma topological_shape (rt rt' : list BoneTransforms) :
  shape <$> rt' = shape <$> rt -> topological rt -> topological rt'.
Proof.
  intros Hs Ht i b' Hi Hr.
  destruct (shape_lookup rt rt' i b' Hs Hi) as (b & Hb & Hsh).
  unfold shape in Hsh. injection Hsh as Hp Hn.
  rewrite <- Hp. apply (Ht i b Hb).
  rewrite Hr in Hn. by destruct (refNode b).
Qed.

Lemma calculateHandPose_transforms inp st bone g t l st' :
  calculateHandPose inp st bone g t l = Some st' -> transforms st' = transforms st.
Proof.
  unfold calculateHandPose. intros Hc.
  destruct (handPoseTarget _ _ _ _ _ _); simplify_eq/=. done.
Qed.

Lemma copy1StPerson_transforms inp st bone st' :
  copy1StPerson inp st bone = Some st' -> transforms st' = transforms st.
Proof.
  unfold copy1StPerson. intros Hc.
  destruct (fpBoneIndex inp !! bone); [|by simplify_eq].
  destruct (fpTransforms inp !! _); simplify_eq/=. done.
Qed.

(** The finger part of a turn changes entry [i] at most, and neither
    its shape nor its world transform. *)
Lemma setHandPose_finger_spec inp names st i st' :
  setHandPose_finger inp names st i = Some st' ->
  transforms st' = transforms st \/
  exists b b', transforms st !! i = Some b /\ transforms st' = <[i := b']> (transforms st) /\
               shape b' = shape b /\ world b' = world b.
Proof.
  unfold setHandPose_finger. intros Hf.
  destruct (names !! i) as [name|]; simpl in Hf; [|done].
  destruct (_fingerRelations inp !! name); [|left; by simplify_eq].
  destruct (_handBonesButton inp !! name) as [button|]; simpl in Hf; [|done].
  match type of Hf with context [if ?c then _ else _] => destruct c end.
  - destruct (copy1StPerson _ _ _) as [st1|] eqn:Hc; simpl in Hf; [|done].
    apply copy1StPerson_transforms in Hc. simpl in Hc. rewrite Hc in Hf.
    destruct (transforms st !! i) as [b|] eqn:Hb; simpl in Hf; [|done].
    right. eexists b, _. split; [done|]. simplify_eq/=.
    split; [done|]. destruct (refNode b) eqn:E; unfold shape; simpl; rewrite ?E; done.
  - destruct (calculateHandPose _ _ _ _ _ _) as [st1|] eqn:Hc; simpl in Hf; [|done].
    apply calculateHandPose_transforms in Hc. simpl in Hc. rewrite Hc in Hf.
    destruct (transforms st !! i) as [b|] eqn:Hb; simpl in Hf; [|done].
    right. eexists b, _. split; [done|]. simplify_eq/=.
    split; [done|]. destruct (refNode b) eqn:E; unfold shape; simpl; rewrite ?E; done.
Qed.

Lemma handPoseTarget_total inp closed bone g t l :
  is_Some (_handBonesButton inp !! bone) -> is_Some (handPoseTarget inp closed bone g t l).
Proof.
  intros [button Hb]. unfold handPoseTarget. rewrite Hb. simpl.
  repeat match goal with |- context [if ?c then _ else _] => destruct c end; eauto.
Qed.

Lemma setHandPose_finger_total inp names st i :
  i < length (transforms st) ->
  hand_tables_complete inp names (length (transforms st)) ->
  is_Some (setHandPose_finger inp names st i).
Proof.
  intros Hi (Hn & Hbtn & Hfp). unfold setHandPose_finger.
  destruct (lookup_lt_is_Some_2 names i) as [name Hname]; [lia|]. rewrite Hname. simpl.
  destruct (_fingerRelations inp !! name) eqn:Hrel; [|eauto].
  destruct (Hbtn name) as [button Hbutton]; [eauto|]. rewrite Hbutton. simpl.
  destruct (lookup_lt_is_Some_2 (transforms st) i Hi) as [b Hb].
  match goal with |- context [if ?c then _ else _] => destruct c end.
  - unfold copy1StPerson. destruct (fpBoneIndex inp !! name) as [k|] eqn:Hk; simpl.
    + destruct (lookup_lt_is_Some_2 (fpTransforms inp) k) as [fb Hfb]; [eauto|].
      rewrite Hfb. simpl. rewrite Hb. simpl. eauto.
    + rewrite Hb. simpl. eauto.
  - unfold calculateHandPose.
    match goal with |- context [handPoseTarget ?a ?b ?c ?d ?e ?f] =>
      destruct (handPoseTarget_total a b c d e f) as [qt Hqt]; [eauto|]; rewrite Hqt end.
    simpl. rewrite Hb. simpl. eauto.
Qed.

(** The propagation part of a turn rewrites entry [i] only, keeps its
    shape and local transform, and leaves it propagated. *)
Lemma setHandPose_world_spec (rt : list BoneTransforms) i :
  i < length rt -> topological rt ->
  exists b b', rt !! i = Some b /\ setHandPose_world rt i = Some (<[i := b']> rt) /\
    shape b' = shape b /\ local b' = local b /\
    (refNode b' = None -> propagated Matrix44_new (<[i := b']> rt) b').
Proof.
  intros Hi Ht. destruct (lookup_lt_is_Some_2 rt i Hi) as [b Hb].
  unfold setHandPose_world. rewrite Hb. simpl.
  destruct (refNode b) as [n|] eqn:Hr.
  - eexists b, _. split; [done|]. split; [done|].
    unfold shape. simpl. rewrite Hr. repeat split; done.
  - pose proof (Ht i b Hb Hr) as Hp.
    destruct (at_index_is_Some rt i (parPos b) Hi Hp) as [parent Hpar].
    rewrite Hpar. simpl. eexists b, _. split; [done|]. split; [done|].
    unfold shape. simpl. rewrite Hr. repeat split; try done.
    intros _. exists parent. simpl. rewrite at_index_insert_lt by done. done.
Qed.

Lemma propagated_insert work (rt : list BoneTransforms) i b' j b :
  j < i -> (0 <= parPos b < Z.of_nat j)%Z ->
  propagated work rt b -> propagated work (<[i := b']> rt) b.
Proof.
  intros Hj Hp (parent & Hpar & Heq). exists parent.
  rewrite at_index_insert_lt by lia. done.
Qed.

Lemma setHandPose_loop_spec inp names n : forall st i,
  i + n = length (transforms st) ->
  hand_tables_complete inp names (length (transforms st)) ->
  topological (transforms st) ->
  (forall j b, j < i -> transforms st !! j = Some b -> refNode b = None ->
               propagated Matrix44_new (transforms st) b) ->
  exists st', setHandPose_loop inp names st i n = Some st' /\
    shape <$> transforms st' = shape <$> transforms st /\
    forall j b, transforms st' !! j = Some b -> refNode b = None ->
                propagated Matrix44_new (transforms st') b.
Proof.
  induction n as [|n IH]; intros st i Hlen Hwf Htopo Hinv.
  - exists st. split; [done|]. split; [done|]. intros j b Hj. apply (Hinv j); [|done].
    apply lookup_lt_Some in Hj. lia.
  - simpl. unfold setHandPose_step.
    destruct (setHandPose_finger_total inp names st i) as [st1 Hf]; [lia|done|].
    rewrite Hf. simpl.
    assert (Hst1 : shape <$> transforms st1 = shape <$> transforms st /\
              forall j b, j < i -> transforms st1 !! j = Some b -> refNode b = None ->
                          propagated Matrix44_new (transforms st1) b).
    { destruct (setHandPose_finger_spec _ _ _ _ _ Hf) as [Heq|(b & b' & Hb & Heq & Hsh & _)].
      - rewrite Heq. done.
      - rewrite Heq. split; [by eapply shape_insert|].
        intros j bj Hj Hbj Hr. rewrite list_lookup_insert_ne in Hbj by lia.
        apply propagated_insert with (j := j); eauto. }
    destruct Hst1 as [Hsh1 Hinv1].
    assert (Hlen1 : length (transforms st1) = length (transforms st)).
    { rewrite <- (length_fmap shape (transforms st1)), Hsh1. apply length_fmap. }
    assert (Htopo1 : topological (transforms st1)) by (by eapply topological_shape).
    destruct (setHandPose_world_spec (transforms st1) i) as (b & b' & Hb & Hw & Hsh & _ & Hprop);
      [lia|done|].
    rewrite Hw. simpl.
    set (st2 := mkHandState (<[i := b']> (transforms st1)) (_handBones st1) (_closedHand st1)).
    assert (Hsh2 : shape <$> transforms st2 = shape <$> transforms st).
    { simpl. rewrite <- Hsh1. by eapply shape_insert. }
    destruct (IH st2 (S i)) as (st' & Hloop & Hsh' & Hfin).
    + simpl. rewrite length_insert. lia.
    + simpl. rewrite length_insert, Hlen1. done.
    + by eapply topological_shape.
    + simpl. intros j bj Hj Hbj Hr. destruct (decide (j = i)) as [->|Hne].
      * rewrite list_lookup_insert_eq in Hbj by lia. simplify_eq. by apply Hprop.
      * rewrite list_lookup_insert_ne in Hbj by done.
        apply propagated_insert with (j := j); [lia|by eapply Htopo1|].
        apply (Hinv1 j); [lia|done..].
    + exists st'. split; [done|]. split; [congruence|done].
Qed.

Lemma rotateLeg_spec (rt : list BoneTransforms) i angle b :
  rt !! i = Some b -> (0 <= parPos b < Z.of_nat i)%Z ->
  exists rt' b', rotateLeg rt i angle = Some rt' /\ rt' !! i = Some b' /\
    rot (local b') = multiply43Left
                       (setEulerAngles Matrix44_new (degreesToRads angle) (lit 0) (lit 0))
                       (rot (local b)) /\
    propagated (setEulerAngles Matrix44_new (degreesToRads angle) (lit 0) (lit 0)) rt' b'.
Proof.
  intros Hb Hp. unfold rotateLeg. rewrite Hb. simpl.
  assert (Hi : i < length rt) by (by eapply lookup_lt_Some).
  rewrite at_index_insert_lt by done.
  destruct (at_index_is_Some rt i (parPos b) Hi Hp) as [parent Hpar].
  rewrite Hpar. simpl. eexists _, _. split; [done|].
  rewrite list_lookup_insert_eq by (rewrite length_insert; lia).
  split; [done|]. split; [done|].
  exists parent. simpl. rewrite !at_index_insert_lt by done. done.
Qed.

(** The propagation as the code writes it, for any helpers: the
    world rotation is what [makeTransformMatrix] and [multiply43Left]
    make of the local rotation and the parent's world rotation. *)
Lemma propagation_steps (inp : HandInput) (names : list string) (st : HandState)
    (rt : list BoneTransforms) (i : nat) (angle : num) (b : BoneTransforms)
    (Htables : hand_tables_complete inp names (length (transforms st)))
    (Htopo : topological (transforms st))
    (Hb : rt !! i = Some b)
    (Hpar : (0 <= parPos b < Z.of_nat i)%Z) :
  (exists st', setHandPose inp names st = Some st' /\
     forall j bj, transforms st' !! j = Some bj -> refNode bj = None ->
       exists parent, at_index (transforms st') (parPos bj) = Some parent /\
         pos (world bj) = pos (world parent)
                          +v rot (world parent) *m (pos (local bj) *v scale (world parent)) /\
         rot (world bj) = multiply43Left
                            (makeTransformMatrix Matrix44_new (rot (local bj)) zero3)
                            (rot (world parent))) /\
  (exists rt' b', rotateLeg rt i angle = Some rt' /\ rt' !! i = Some b' /\
     exists parent, at_index rt' (parPos b') = Some parent /\
       pos (world b') = pos (world parent)
                        +v rot (world parent) *m (pos (local b') *v scale (world parent)) /\
       rot (world b') = multiply43Left
                          (makeTransformMatrix
                             (setEulerAngles Matrix44_new (degreesToRads angle) (lit 0) (lit 0))
                             (rot (local b')) zero3)
                          (rot (world parent))).
Proof.
  split.
  - destruct (setHandPose_loop_spec inp names (length (transforms st)) st 0)
      as (st' & Hloop & _ & Hfin); [done..|intros j bj Hj; lia|].
    exists st'. split; [done|]. exact Hfin.
  - destruct (rotateLeg_spec rt i angle b Hb Hpar) as (rt' & b' & Hr & Hb' & _ & Hprop).
    exists rt', b'. split; [done|]. split; [done|]. exact Hprop.
Qed.

(** The law of the reference helpers. *)
Lemma ref_left_factor_law : left_factor_law (H0 := RefHelpers).
Proof.
  intros work [[a1 a2 a3] [b1 b2 b3] [c1 c2 c3]] p. reflexivity.
Qed.

(** C1.  After [setHandPose] has run over a flattened bone tree whose
    computed entries come after their parents, every entry without a
    scene-graph node has world position
    [parent.world.pos + parent.world.rot * (local.pos * parent.world.scale)]
    and world rotation [parent.world.rot * local.rot], the parent
    being the entry at [parPos] of the resulting array; [rotateLeg]
    leaves the entry it is called on in the same relation to its
    parent.  The position is what the code computes itself; the order
    of the product is that of [multiply43Left], whose argument is the
    factor on the left. *)
Theorem propagation_correct (inp : HandInput) (names : list string) (st : HandState)
    (rt : list BoneTransforms) (i : nat) (angle : num) (b : BoneTransforms)
    (Hleft : left_factor_law)
    (Htables : hand_tables_complete inp names (length (transforms st)))
    (Htopo : topological (transforms st))
    (Hb : rt !! i = Some b)
    (Hpar : (0 <= parPos b < Z.of_nat i)%Z) :
  (exists st', setHandPose inp names st = Some st' /\
     forall j bj, transforms st' !! j = Some bj -> refNode bj = None ->
       exists parent, at_index (transforms st') (parPos bj) = Some parent /\
         pos (world bj) = pos (world parent)
                          +v rot (world parent) *m (pos (local bj) *v scale (world parent)) /\
         rot (world bj) = mat_mul (rot (world parent)) (rot (local bj))) /\
  (exists rt' b', rotateLeg rt i angle = Some rt' /\ rt' !! i = Some b' /\
     exists parent, at_index rt' (parPos b') = Some parent /\
       pos (world b') = pos (world parent)
                        +v rot (world parent) *m (pos (local b') *v scale (world parent)) /\
       rot (world b') = mat_mul (rot (world parent)) (rot (local b'))).
Proof.
  destruct (propagation_steps inp names st rt i angle b Htables Htopo Hb Hpar)
    as [(st' & Hpose & Hall) (rt' & b' & Hrot & Hb' & parent & Hparent & Hpos & Hr)].
  split.
  - exists st'. split; [exact Hpose|]. intros j bj Hj Hnone.
    destruct (Hall j bj Hj Hnone) as (pj & Hpj & Hposj & Hrotj).
    exists pj. split; [exact Hpj|]. split; [exact Hposj|].
    rewrite Hrotj. apply Hleft.
  - exists rt', b'. split; [exact Hrot|]. split; [exact Hb'|].
    exists parent. split; [exact Hparent|]. split; [exact Hpos|].
    rewrite Hr. apply Hleft.
Qed.

End Propagation.

Section WalkProperties.
Context `{Scalar} `{!Helpers}.
Local Open Scope fl_scope.

(** After the [switch], the walking state is 0, 1 or 2: state 3 and
    every other value have been turned into 1 or 0. *)
Lemma walk_switch_state inp curSpeed stepTime dir lFoot rFoot st :
  let s := _walkingState (walk_switch inp curSpeed stepTime dir lFoot rFoot st) in
  s = 0%Z \/ s = 1%Z \/ s = 2%Z.
Proof.
  unfold walk_switch. destruct (isJumpingOrInAir inp); simpl; [by left|].
  destruct (_walkingState st) as [|[[]|[]|]|] eqn:Hs; simpl;
    repeat match goal with |- context [if ?c then _ else _] => destruct c; simpl end;
    rewrite ?Hs; auto.
Qed.

Lemma walk_switch_nodes inp curSpeed stepTime dir lFoot rFoot st :
  nodes (walk_switch inp curSpeed stepTime dir lFoot rFoot st) = nodes st.
Proof.
  unfold walk_switch. destruct (isJumpingOrInAir inp); simpl; [done|].
  destruct (_walkingState st) as [|[[]|[]|]|]; simpl;
    repeat match goal with |- context [if ?c then _ else _] => destruct c; simpl end;
    done.
Qed.

(** The walking block does not touch the walking state; it fails only
    when the skeleton has no ["SPINE2"] node. *)
Lemma walk_walking_state inp curSpeed stepTime dir lFoot rFoot st :
  is_Some (nodes st !! "SPINE2") ->
  exists st', walk_walking inp curSpeed stepTime dir lFoot rFoot st = Some st' /\
              _walkingState st' = _walkingState st.
Proof.
  intros [spine Hspine]. unfold walk_walking. cbn.
  destruct (_footStepping st =? 1)%Z eqn:Hfoot; cbn;
    destruct (walk_delay _ _) as [delay [|]]; cbn; rewrite Hspine; cbn;
    repeat match goal with |- context [if ?c then _ else _] => destruct c; cbn end;
    eauto.
Qed.

(** With the spine there, a call of [walk] returns: unchanged when a
    leg node is missing, with the state 0 or 1 otherwise. *)
Lemma walk_returns (inp : WalkInput) (st : Walk) :
  is_Some (nodes st !! "SPINE2") ->
  exists st', walk inp st = Some st' /\
    (st' = st \/ _walkingState st' = 0%Z \/ _walkingState st' = 1%Z).
Proof.
  intros Hspine.
  unfold walk, getNode.
  destruct (nodes st !! "LLeg_Thigh") as [lHip|]; [|eauto].
  destruct (nodes st !! "RLeg_Thigh") as [rHip|]; [|eauto].
  destruct (nodes st !! "LLeg_Calf") as [lKnee|]; [|eauto].
  destruct (nodes st !! "RLeg_Calf") as [rKnee|]; [|eauto].
  destruct (nodes st !! "LLeg_Foot") as [lFoot|]; [|eauto].
  destruct (nodes st !! "RLeg_Foot") as [rFoot|]; [|eauto].
  destruct (walk_feet inp lFoot rFoot) as [lF rF]. cbv zeta.
  match goal with |- context [walk_switch ?a ?b ?c ?d ?e ?f ?g] =>
    pose proof (walk_switch_state a b c d e f g) as Hsw;
    assert (Hn : nodes (walk_switch a b c d e f g) !! "SPINE2" = nodes st !! "SPINE2");
    [|generalize dependent (walk_switch a b c d e f g)]
  end.
  { rewrite walk_switch_nodes. unfold walk_enter.
    match goal with |- context [if ?c then _ else _] => destruct c end; cbn;
      rewrite !lookup_insert_ne by done; done. }
  intros w Hsw Hn. cbv zeta in Hsw. unfold walk_finish.
  destruct Hsw as [Hs|[Hs|Hs]]; rewrite Hs; cbn.
  - eexists. split; [done|]. right. left. cbn. done.
  - match goal with |- context [walk_walking ?a ?b ?c ?d ?e ?f ?g] =>
      destruct (walk_walking_state a b c d e f g) as (st' & Hw & Hst'); [by rewrite Hn|]
    end.
    rewrite Hw. exists st'. split; [done|]. right. right. congruence.
  - eexists. split; [done|]. right. left. done.
Qed.


Lemma walk_switch_prevSpeed inp curSpeed stepTime dir lFoot rFoot st :
  _prevSpeed (walk_switch inp curSpeed stepTime dir lFoot rFoot st) = _prevSpeed st.
Proof.
  unfold walk_switch. destruct (isJumpingOrInAir inp); simpl; [done|].
  destruct (_walkingState st) as [|[[]|[]|]|]; simpl;
    repeat match goal with |- context [if ?c then _ else _] => destruct c; simpl end;
    done.
Qed.

(** The walking block keeps the recorded speed; the planned step
    time it leaves is the old one or this frame's. *)
Lemma walk_walking_fields inp curSpeed stepTime dir lFoot rFoot st st' :
  walk_walking inp curSpeed stepTime dir lFoot rFoot st = Some st' ->
  _prevSpeed st' = _prevSpeed st /\
  (_stepTimeinStep st' = _stepTimeinStep st \/ _stepTimeinStep st' = stepTime).
Proof.
  unfold walk_walking. cbn.
  destruct (_footStepping st =? 1)%Z eqn:Hfoot; cbn;
    destruct (walk_delay _ _) as [delay [|]]; cbn;
    (destruct (nodes st !! "SPINE2") as [spine|]; cbn; [|done]);
    repeat match goal with |- context [if ?c then _ else _] => destruct c; cbn end;
    intros [= <-]; cbn; auto.
Qed.

Lemma walk_unfold inp st lHip rHip lKnee rKnee lFoot rFoot :
  getNode "LLeg_Thigh" st = Some lHip -> getNode "RLeg_Thigh" st = Some rHip ->
  getNode "LLeg_Calf" st = Some lKnee -> getNode "RLeg_Calf" st = Some rKnee ->
  getNode "LLeg_Foot" st = Some lFoot -> getNode "RLeg_Foot" st = Some rFoot ->
  let speed := walk_curSpeed inp (_prevSpeed st) in
  let stepTime := walk_stepTime speed in
  let dir := vec3Norm (walk_dir inp) in
  let lF := fst (walk_feet inp lFoot rFoot) in
  let rF := snd (walk_feet inp lFoot rFoot) in
  walk inp st = walk_finish inp speed stepTime dir lF rF
                  (walk_switch inp speed stepTime dir lF rF (walk_enter inp lF rF st)).
Proof.
  intros H1 H2 H3 H4 H5 H6. unfold walk. rewrite H1, H2, H3, H4, H5, H6.
  destruct (walk_feet inp lFoot rFoot). done.
Qed.

(** C6, as the code has it.  With the leg nodes present and the
    player on the ground, the state in which the [switch] is entered
    is 3 (Redirecting) when this frame's speed is more than 20 below
    the previous one, and the stored state otherwise; the [switch]
    then moves the state as the specification's transition table
    says.  Starting to walk picks the stepping foot at random, aims
    it at its current position plus [dir * (speed * stepTime * 1.5)]
    and sets the step timer to [stepTime / 2]; redirecting keeps the
    stepping foot and sets its target to the foot's current position
    plus [dir * (speed * stepTime * 0.1)]. *)
Theorem walk_transitions (inp : WalkInput) (st : Walk)
    (lHip rHip lKnee rKnee lFoot rFoot : NiNode)
    (HlHip : getNode "LLeg_Thigh" st = Some lHip)
    (HrHip : getNode "RLeg_Thigh" st = Some rHip)
    (HlKnee : getNode "LLeg_Calf" st = Some lKnee)
    (HrKnee : getNode "RLeg_Calf" st = Some rKnee)
    (HlFoot : getNode "LLeg_Foot" st = Some lFoot)
    (HrFoot : getNode "RLeg_Foot" st = Some rFoot)
    (Hground : isJumpingOrInAir inp = false) :
  let speed := walk_curSpeed inp (_prevSpeed st) in
  let stepTime := walk_stepTime speed in
  let dir := vec3Norm (walk_dir inp) in
  let lF := fst (walk_feet inp lFoot rFoot) in
  let rF := snd (walk_feet inp lFoot rFoot) in
  let st0 := walk_enter inp lF rF st in
  let st1 := walk_switch inp speed stepTime dir lF rF st0 in
  walk inp st = walk_finish inp speed stepTime dir lF rF st1 /\
  _walkingState st0 = (if speed - _prevSpeed st <? lit (-20) then 3%Z else _walkingState st) /\
  _walkingState st1 = spec_walk_transition (_walkingState st0) speed /\
  match _walkingState st0 with
  | 0%Z =>
      if speed >=? lit 35 then
        _footStepping st1 = (Z.rem (rand inp) 2 + 1)%Z /\
        _currentStepTime st1 = stepTime / lit 2 /\
        (if (_footStepping st1 =? 1)%Z
         then _rightFootTarget st1 = foot_pos rF +v dir *v (speed * stepTime * lit 1.5)
         else _leftFootTarget st1 = foot_pos lF +v dir *v (speed * stepTime * lit 1.5))
      else True
  | 3%Z =>
      _footStepping st1 = _footStepping st /\
      (if (_footStepping st =? 1)%Z
       then _rightFootTarget st1 = foot_pos rF +v dir *v (speed * stepTime * lit 0.1)
       else _leftFootTarget st1 = foot_pos lF +v dir *v (speed * stepTime * lit 0.1))
  | _ => True
  end.
Proof.
  intros speed stepTime dir lF rF st0 st1.
  split; [by eapply walk_unfold|].
  assert (Hfoot0 : _footStepping st0 = _footStepping st).
  { unfold st0, walk_enter. cbn. by destruct (_ <? _). }
  assert (Hst0 : _walkingState st0
                 = (if speed - _prevSpeed st <? lit (-20) then 3%Z else _walkingState st)).
  { unfold st0, walk_enter. cbn. fold speed. by destruct (_ <? _). }
  split; [done|]. clear Hst0. clearbody st0.
  unfold st1, walk_switch. rewrite Hground. simpl negb. cbv iota.
  destruct (_walkingState st0) as [|[[]|[]|]|] eqn:Hs; cbn; rewrite ?Hs, ?Hfoot0; try done;
    repeat match goal with |- context [if ?c then _ else _] => destruct c eqn:?; cbn end;
    rewrite ?Hs; done.
Qed.

(** C7.  With the leg nodes present, the speed that a call of [walk]
    records is [clamp(|d| / dt, 0, 350)], [d] the displacement of the
    head with its height dropped, averaged with the speed of the
    previous frame when that one was above 20; the step time is
    [clamp(cos(speed / 140), 0.28, 0.50)], which is what the call
    stores as the planned step time when it starts to walk. *)
Theorem walk_speed_and_step_time (inp : WalkInput) (st : Walk)
    (lHip rHip lKnee rKnee lFoot rFoot : NiNode)
    (HlHip : getNode "LLeg_Thigh" st = Some lHip)
    (HrHip : getNode "RLeg_Thigh" st = Some rHip)
    (HlKnee : getNode "LLeg_Calf" st = Some lKnee)
    (HrKnee : getNode "RLeg_Calf" st = Some rKnee)
    (HlFoot : getNode "LLeg_Foot" st = Some lFoot)
    (HrFoot : getNode "RLeg_Foot" st = Some rFoot)
    (Hspine : is_Some (nodes st !! "SPINE2")) :
  let d := set_z (_curentPosition inp) (lit 0) -v set_z (_lastPosition inp) (lit 0) in
  let raw := std_clamp (fabs (vec3Len d) / _frameTime inp) (lit 0) (lit 350) in
  let speed := if _prevSpeed st >? lit 20 then (raw + _prevSpeed st) / lit 2 else raw in
  let stepTime := std_clamp (cosf (speed / lit 140)) (lit 0.28) (lit 0.50) in
  exists st', walk inp st = Some st' /\
    _prevSpeed st' = speed /\
    (isJumpingOrInAir inp = false -> _walkingState st = 0%Z ->
     (speed - _prevSpeed st <? lit (-20)) = false -> (speed >=? lit 35) = true ->
     _walkingState st' = 1%Z /\ _stepTimeinStep st' = stepTime).
Proof.
  intros d raw speed stepTime.
  destruct (walk_returns inp st Hspine) as (st' & Hw & _).
  exists st'. split; [done|].
  rewrite (walk_unfold inp st lHip rHip lKnee rKnee lFoot rFoot) in Hw by done.
  change (walk_curSpeed inp (_prevSpeed st)) with speed in Hw.
  change (walk_stepTime speed) with stepTime in Hw.
  set (lF := fst (walk_feet inp lFoot rFoot)) in Hw.
  set (rF := snd (walk_feet inp lFoot rFoot)) in Hw.
  set (dir := vec3Norm (walk_dir inp)) in Hw.
  set (st0 := walk_enter inp lF rF st) in Hw.
  assert (Hp0 : _prevSpeed st0 = speed).
  { unfold st0, walk_enter. cbn. done. }
  set (st1 := walk_switch inp speed stepTime dir lF rF st0) in Hw.
  assert (Hp1 : _prevSpeed st1 = speed).
  { unfold st1. rewrite walk_switch_prevSpeed. done. }
  split.
  - unfold walk_finish in Hw.
    destruct (_walkingState st1 =? 0)%Z; [by simplify_eq/=|].
    destruct (_walkingState st1 =? 1)%Z.
    { apply walk_walking_fields in Hw. destruct Hw as [-> _]. done. }
    destruct (_walkingState st1 =? 2)%Z; by simplify_eq/=.
  - intros Hground Hidle Hdecel Hfast.
    assert (Hs0 : _walkingState st0 = 0%Z).
    { unfold st0, walk_enter. cbn. fold d raw speed.
      change (walk_curSpeed inp (_prevSpeed st)) with speed. rewrite Hdecel. done. }
    assert (Hs1 : _walkingState st1 = 1%Z /\ _stepTimeinStep st1 = stepTime).
    { unfold st1, walk_switch. rewrite Hground, Hs0, Hfast. cbn.
      destruct (_ =? 1)%Z; done. }
    destruct Hs1 as [Hs1 Ht1]. unfold walk_finish in Hw. rewrite Hs1 in Hw.
    change (1 =? 0)%Z with false in Hw. change (1 =? 1)%Z with true in Hw. cbv iota in Hw.
    destruct (walk_walking_state inp speed stepTime dir lF rF st1) as (st2 & Hw2 & Hs2).
    { unfold st1. rewrite walk_switch_nodes. unfold st0, walk_enter.
      destruct Hspine as [spine Hspine]. exists spine.
      match goal with |- context [if ?c then _ else _] => destruct c end; cbn;
        rewrite !lookup_insert_ne by done; done. }
    rewrite Hw2 in Hw. injection Hw as <-. split; [congruence|].
    apply walk_walking_fields in Hw2. destruct Hw2 as [_ [Hk|Hk]]; congruence.
Qed.

End WalkProperties.

Section NeckProperties.
Context `{Scalar} `{!Helpers}.
Local Open Scope fl_scope.

(** A clamped number is not a number or lies between the bounds. *)
Lemma std_clamp_range (Hlaws : ScalarLaws _) (v lo hi : num) :
  (lo <=? hi) = true ->
  let r := std_clamp v lo hi in
  isnan r = true \/ ((lo <=? r) = true /\ (r <=? hi) = true).
Proof.
  intros Hlohi r. destruct (fle_not_nan Hlaws lo hi Hlohi) as [Hlo Hhi].
  assert (Hll : (lo <=? lo) = true) by (apply (fle_total Hlaws); auto using flt_irrefl).
  assert (Hhh : (hi <=? hi) = true) by (apply (fle_total Hlaws); auto using flt_irrefl).
  unfold r, std_clamp. destruct (v <? lo) eqn:Hvlo; [right; done|].
  destruct (hi <? v) eqn:Hhiv; [right; done|].
  destruct (isnan v) eqn:Hv; [left; done|]. right.
  split; apply (fle_total Hlaws); done.
Qed.

(** C8, as the code has it.  [getNeckYaw] returns 0 when the player
    nodes are not set or one of the two vectors from the head to a
    controller is shorter than 10; otherwise it returns the negated
    candidate angle scaled by the weight and then clamped to 50
    degrees either way.  So the result is never below -50 degrees nor
    above 50 degrees: it lies between them, or is not a number. *)
Theorem getNeckYaw_spec (_playerNodes : option PlayerNodes)
    (Hlaws : ScalarLaws _)
    (Hlo : (degreesToRads (lit (-50)) <=? lit 0) = true)
    (Hhi : (lit 0 <=? degreesToRads (lit 50)) = true)
    (Hlohi : (degreesToRads (lit (-50)) <=? degreesToRads (lit 50)) = true) :
  let r := getNeckYaw _playerNodes in
  match _playerNodes with
  | None => r = lit 0
  | Some pn =>
      if (vec3Len (neckYaw_hmdToLeft pn) <? lit 10) || (vec3Len (neckYaw_hmdToRight pn) <? lit 10)
      then r = lit 0
      else r = std_clamp (- neckYaw_angleFinal pn * neckYaw_weight pn)
                 (degreesToRads (lit (-50))) (degreesToRads (lit 50))
  end /\
  (isnan r = true \/
   ((degreesToRads (lit (-50)) <=? r) = true /\ (r <=? degreesToRads (lit 50)) = true)).
Proof.
  intros r. unfold r, getNeckYaw. destruct _playerNodes as [pn|]; [|by auto].
  destruct (_ || _); [by auto|]. split; [done|].
  by apply std_clamp_range.
Qed.

End NeckProperties.

Section HandProperties.
Context `{Scalar} `{!Helpers}.
Local Open Scope fl_scope.

(** C10.  With the thumbs-up combination active and no override on
    the bone, a bone whose name contains "Finger1" but neither
    "Finger11" nor "Finger13" is blended towards the
    default-constructed quaternion: its open pose, its closed pose
    and the thumb-up rotations play no part. *)
Theorem thumb_middle_bone_target (inp : HandInput) (st : HandState) (bone : string)
    (gripProx : num) (isLeft : bool)
    (Hfree : map_index false (handPapyrusHasControl inp) bone = false)
    (Hthumb : contains bone "Finger1" = true)
    (Hnot1 : contains bone "Finger11" = false)
    (Hnot3 : contains bone "Finger13" = false) :
  handPoseTarget inp (_closedHand st) bone gripProx true isLeft = Some Quaternion_new /\
  calculateHandPose inp st bone gripProx true isLeft =
    let cur := map_index NiTransform_new (_handBones st) bone in
    let qc := slerp (fromRot Quaternion_new (rot cur))
                (std_clamp (hand_frameTime inp * lit 7) (lit 0) (lit 1)) Quaternion_new in
    Some (mkHandState (transforms st)
            (<[bone := set_rot cur (make43 (getRot qc))]> (_handBones st))
            (_closedHand st)).
Proof.
  assert (Ht : handPoseTarget inp (_closedHand st) bone gripProx true isLeft
               = Some Quaternion_new).
  { unfold handPoseTarget. rewrite Hfree, Hthumb, Hnot1, Hnot3. done. }
  split; [done|]. unfold calculateHandPose. rewrite Ht. done.
Qed.

End HandProperties.

Section ArmProperties.
Context `{Scalar} `{!Helpers}.
Local Open Scope fl_scope.

(** The first part of [setArms] leaves the bones of both arms and the
    remembered twist angles alone. *)
Lemma setArms_prepare_frame inp isLeft st :
  let st1 := setArms_prepare inp isLeft st in
  _leftArm st1 = _leftArm st /\ _rightArm st1 = _rightArm st /\
  prevAngle0 st1 = prevAngle0 st /\ prevAngle1 st1 = prevAngle1 st.
Proof.
  unfold setArms_prepare.
  destruct (xorb _ _); cbn;
    destruct (dampenHand _ _ _ _ _) as [[offsetNode prevL] prevR]; cbn;
    destruct (Update1StPersonArm _ _ _) as [lh rh]; cbn; done.
Qed.

Lemma arm_of_prepare inp isLeft side st :
  arm_of side (setArms_prepare inp isLeft st) = arm_of side st.
Proof.
  destruct (setArms_prepare_frame inp isLeft st) as (Hl & Hr & _).
  unfold arm_of. by destruct side.
Qed.

Lemma arm_of_put side st a : arm_of side (put_arm side st a) = a.
Proof. by destruct side. Qed.

Lemma arm_of_put_other side st a : arm_of (negb side) (put_arm side st a) = arm_of (negb side) st.
Proof. by destruct side. Qed.

Lemma arm_chain_upper_forearms handPos elbowWorld arm rotatedM :
  forearms_present (arm_chain_upper handPos elbowWorld arm rotatedM).1.1.1
  = forearms_present arm.
Proof. reflexivity. Qed.

Lemma arm_chain_forearm_forearms handPos elbowWorld arm rotatedM Uwr :
  forearms_present (arm_chain_forearm handPos elbowWorld arm rotatedM Uwr).1.1
  = forearms_present arm.
Proof. reflexivity. Qed.

Lemma arm_chain_wrist_forearms inp isLeft handRot arm rotatedM twist Fwr :
  forearms_present (arm_chain_wrist inp isLeft handRot arm rotatedM twist Fwr).1.1
  = forearms_present arm.
Proof.
  unfold arm_chain_wrist.
  destruct (arms_inPowerArmor inp), (forearm2 arm) as [f2|] eqn:H2,
    (forearm3 arm) as [f3|] eqn:H3; unfold forearms_present; simpl; rewrite ?H2, ?H3; done.
Qed.

Lemma arm_chain_hand_total inp handPos handRot arm rotatedM Uwp Uwr Fwr Fwr3 forearmLen
    elbowWorld :
  arms_inPowerArmor inp = true \/ forearms_present arm = (true, true) ->
  is_Some (arm_chain_hand inp handPos handRot arm rotatedM Uwp Uwr Fwr Fwr3 forearmLen
             elbowWorld).
Proof.
  unfold arm_chain_hand, forearms_present. intros Hok.
  destruct (forearm2 arm) as [f2|] eqn:H2; simpl; rewrite H2; simpl.
  - destruct (arms_inPowerArmor inp); simpl; [eauto|].
    destruct Hok as [|Hok]; [done|].
    destruct (forearm3 arm) as [f3|] eqn:H3; simpl; rewrite ?H3; simpl; [eauto|].
    by injection Hok.
  - eauto.
Qed.

(** Once the bind lengths could be read, the chain step cannot fail. *)
Lemma arm_chain_total inp isLeft handPos handRot arm rotatedM forearmLen elbowWorld lens :
  arm_bind_lengths inp arm = Some lens ->
  is_Some (arm_chain inp isLeft handPos handRot arm rotatedM forearmLen elbowWorld).
Proof.
  intros Hlens.
  assert (Hok : arms_inPowerArmor inp = true \/ forearms_present arm = (true, true)).
  { unfold arm_bind_lengths in Hlens. destruct (arms_inPowerArmor inp); [by left|right].
    unfold forearms_present.
    destruct (forearm2 arm); [|done]. destruct (forearm3 arm); done. }
  unfold arm_chain.
  pose proof (arm_chain_upper_forearms handPos elbowWorld arm rotatedM) as H1.
  destruct (arm_chain_upper handPos elbowWorld arm rotatedM) as [[[arm1 rotatedM1] twist] Uwr].
  pose proof (arm_chain_forearm_forearms handPos elbowWorld arm1 rotatedM1 Uwr) as H2.
  destruct (arm_chain_forearm handPos elbowWorld arm1 rotatedM1 Uwr) as [[arm2 rotatedM2] Fwr].
  pose proof (arm_chain_wrist_forearms inp isLeft handRot arm2 rotatedM2 twist Fwr) as H3.
  destruct (arm_chain_wrist inp isLeft handRot arm2 rotatedM2 twist Fwr)
    as [[arm3 rotatedM3] Fwr3].
  simpl in H1, H2, H3. apply arm_chain_hand_total.
  destruct Hok as [Hok|Hok]; [by left|right]. congruence.
Qed.

(** C3, as the code has it.  When the hand position placed by the
    game has a NaN or infinite coordinate, or is more than 200 units
    from the upper arm, [setArms] returns with the bones of both arms
    exactly as they were.  When the hand passes that test but is
    further than 2.25 arm lengths from the upper arm, [setArms]
    returns after the shoulder step: the local rotation of the collar
    bone has been replaced and [updateDown] has run on it; as long as
    [updateDown] recomputes world transforms only, every other local
    transform of the arm is as it was.  The other arm is untouched. *)
Theorem setArms_abort (inp : ArmsInput) (isLeft : bool) (st : ArmsState)
    (Hfp : firstPersonSkeleton inp = true)
    (Hdown : forall a b, arm_locals (updateDownArm a b) = arm_locals a) :
  let handPos := setArms_handPos isLeft (setArms_prepare inp isLeft st) in
  let arm := arm_of isLeft st in
  let adjustedArmLength := armLength inp / lit 36.74 in
  if isnan (x handPos) || isnan (y handPos) || isnan (z handPos)
     || isinf (x handPos) || isinf (y handPos) || isinf (z handPos)
     || (vec3Len (world_pos (upper arm) -v handPos) >? lit 200)
  then
    exists st', setArms inp isLeft st = Some st' /\
      _leftArm st' = _leftArm st /\ _rightArm st' = _rightArm st
  else
    let arm' := setArms_shoulder inp handPos arm in
    match arm_bind_lengths inp arm' with
    | Some (originalUpperLen, originalForearmLen) =>
        if arm_hsLen handPos arm'
           >? (originalUpperLen * adjustedArmLength
               + originalForearmLen * adjustedArmLength) * lit 2.25
        then
          exists st', setArms inp isLeft st = Some st' /\
            arm_of isLeft st' = arm' /\
            arm_of (negb isLeft) st' = arm_of (negb isLeft) st /\
            arm_locals arm' =
              arm_locals
                (set_arm_shoulder arm
                   (set_local_rot (shoulder arm)
                      (multiply43Left (setArms_rotatedM inp handPos arm)
                         (local_rot (shoulder arm)))))
        else True
    | None => True
    end.
Proof.
  intros handPos arm adjustedArmLength.
  unfold setArms. rewrite Hfp. simpl negb. cbv iota zeta.
  rewrite (arm_of_prepare inp isLeft isLeft st). fold handPos arm.
  unfold hand_invalid.
  destruct (isnan (x handPos) || isnan (y handPos) || isnan (z handPos)
            || isinf (x handPos) || isinf (y handPos) || isinf (z handPos)
            || (vec3Len (world_pos (upper arm) -v handPos) >? lit 200)).
  - eexists. split; [done|].
    destruct (setArms_prepare_frame inp isLeft st) as (Hl & Hr & _). done.
  - cbv zeta. destruct (arm_bind_lengths inp (setArms_shoulder inp handPos arm))
      as [[originalUpperLen originalForearmLen]|]; [|done].
    cbn. unfold hand_too_far. fold adjustedArmLength.
    destruct (_ >? _); [|done].
    eexists. split; [done|]. rewrite arm_of_put, arm_of_put_other.
    split; [done|]. split; [apply arm_of_prepare|].
    unfold setArms_shoulder. apply Hdown.
Qed.

(** C5.  A call of [setArms] that gets to the solve stores, for its
    side, the twist angle [A + 0.25 * (T - A)], where [A] is the
    angle stored for that side before the call and [T] the blended
    twist angle of this frame; the elbow is placed with that same
    angle and the angle stored for the other side is left alone. *)
Theorem twist_smoothing (inp : ArmsInput) (isLeft : bool) (st : ArmsState)
    (originalUpperLen originalForearmLen : num)
    (Hlaws : ScalarLaws _)
    (Hfp : firstPersonSkeleton inp = true) :
  let st1 := setArms_prepare inp isLeft st in
  let handPos := setArms_handPos isLeft st1 in
  let handRot := setArms_handRot isLeft st1 in
  let arm := setArms_shoulder inp handPos (arm_of isLeft st) in
  let adjustedArmLength := armLength inp / lit 36.74 in
  let hsLen := arm_hsLen handPos arm in
  let A := if isLeft then prevAngle0 st else prevAngle1 st in
  let T := arm_rawTwist handRot in
  let smoothed := A + lit 0.25 * (T - A) in
  hand_invalid handPos (arm_of isLeft st) = false ->
  arm_bind_lengths inp arm = Some (originalUpperLen, originalForearmLen) ->
  hand_too_far hsLen (originalUpperLen * adjustedArmLength)
                     (originalForearmLen * adjustedArmLength) = false ->
  exists st' arm',
    setArms inp isLeft st = Some st' /\
    (if isLeft then prevAngle0 st' else prevAngle1 st') = smoothed /\
    (if isLeft then prevAngle1 st' else prevAngle0 st')
      = (if isLeft then prevAngle1 st else prevAngle0 st) /\
    arm_of isLeft st' = arm' /\
    let '(upperLen, forearmLen, wristAngle) :=
      arm_solve originalUpperLen originalForearmLen adjustedArmLength hsLen in
    arm_chain inp isLeft handPos handRot arm (setArms_rotatedM inp handPos (arm_of isLeft st))
      forearmLen
      (arm_elbowWorld inp isLeft handPos handRot arm smoothed forearmLen wristAngle)
    = Some arm'.
Proof.
  intros st1 handPos handRot arm adjustedArmLength hsLen A T smoothed Hvalid Hlens Hnear.
  destruct (setArms_prepare_frame inp isLeft st) as (_ & _ & Hp0 & Hp1).
  fold st1 in Hp0, Hp1.
  assert (Hsm : arm_smoothTwist (if isLeft then prevAngle0 st1 else prevAngle1 st1) T
                = smoothed).
  { unfold arm_smoothTwist, smoothed, A. rewrite Hp0, Hp1.
    by rewrite (fmul_comm Hlaws (lit 0.25)). }
  pose proof (arm_of_prepare inp isLeft isLeft st) as Harm. fold st1 in Harm.
  unfold setArms. rewrite Hfp. simpl negb. cbv iota zeta.
  fold st1. rewrite Harm.
  fold handPos handRot. rewrite Hvalid. fold arm. rewrite Hlens. simpl mbind.
  fold adjustedArmLength hsLen. rewrite Hnear. fold T. rewrite Hsm.
  destruct (arm_solve originalUpperLen originalForearmLen adjustedArmLength hsLen)
    as [[upperLen forearmLen] wristAngle].
  destruct (arm_chain_total inp isLeft handPos handRot arm
              (setArms_rotatedM inp handPos (arm_of isLeft st)) forearmLen
              (arm_elbowWorld inp isLeft handPos handRot arm smoothed forearmLen wristAngle)
              _ Hlens) as [arm' Hchain].
  rewrite Hchain. simpl mbind.
  eexists _, arm'. split; [done|].
  split; [by destruct isLeft|]. split; [by destruct isLeft|].
  split; [apply arm_of_put|done].
Qed.

End ArmProperties.

Section LegProperties.
Context `{Scalar} `{!Helpers}.
Local Open Scope fl_scope.

(** The solve, with the stretched lengths and the first angle named. *)
Lemma leg_solve_eq (thighLenOrig calfLenOrig ftLen : num) :
  leg_solve thighLenOrig calfLenOrig ftLen =
  let s := leg_stretch thighLenOrig calfLenOrig ftLen in
  let first := cosine_law (fst s) (snd s) ftLen in
  if isnan first || isinf first then
    ((thighLenOrig + calfLenOrig) / lit 2, (thighLenOrig + calfLenOrig) / lit 2,
     cosine_law ((thighLenOrig + calfLenOrig) / lit 2)
       ((thighLenOrig + calfLenOrig) / lit 2) ftLen)
  else (fst s, snd s, first).
Proof. unfold leg_solve. by destruct (leg_stretch _ _ _). Qed.

Lemma arm_solve_eq (originalUpperLen originalForearmLen adjustedArmLength hsLen : num) :
  arm_solve originalUpperLen originalForearmLen adjustedArmLength hsLen =
  let s := arm_stretch (originalUpperLen * adjustedArmLength)
             (originalForearmLen * adjustedArmLength) hsLen in
  let first := cosine_law (fst s) (snd s) hsLen in
  let avg := (originalUpperLen + originalForearmLen) / lit 2 * adjustedArmLength in
  if isnan first || isinf first then (avg, avg, cosine_law avg avg hsLen)
  else (fst s, snd s, first).
Proof. unfold arm_solve. by destruct (arm_stretch _ _ _). Qed.

(** Shortening to the bind length: the result is not longer than the
    bone it is compared with, as soon as a vector rescaled to a
    length is not longer than that length. *)
Lemma clamp_to_bind_bound (p q : NiPoint3) :
  ((vec3Len p >? vec3Len q) = true ->
   (vec3Len (vec3Norm p *v vec3Len q) >? vec3Len q) = false) ->
  (vec3Len (clamp_to_bind p (vec3Len q)) >? vec3Len q) = false.
Proof.
  intros Hnorm. unfold clamp_to_bind.
  destruct (vec3Len p >? vec3Len q) eqn:Hlong; [by apply Hnorm|done].
Qed.


End LegProperties.

(** ** The laws in the binary32 model *)

Lemma F32_mul_comm (a b : spec_float) : F32.mul a b = F32.mul b a.
Proof.
  unfold F32.mul, SFmul.
  destruct a as [sa|sa| |sa ma ea], b as [sb|sb| |sb mb eb];
    rewrite ?(xorb_comm sa sb); try reflexivity.
  by rewrite (Pos.mul_comm ma mb), (Z.add_comm ea eb).
Qed.

Lemma F32_compare_antisym (a b : spec_float) :
  SFcompare b a = CompOpp <$> SFcompare a b.
Proof.
  destruct a as [sa|sa| |sa ma ea], b as [sb|sb| |sb mb eb]; simpl;
    try reflexivity; try (by destruct sa); try (by destruct sb);
    try (by destruct sa, sb).
  pose proof (Pos.compare_cont_antisym ma mb Eq) as Hanti. simpl in Hanti.
  destruct sa, sb; simpl; try reflexivity;
    rewrite (Z.compare_antisym ea eb); destruct (ea ?= eb)%Z; simpl; try reflexivity;
    rewrite <- Hanti; by destruct (Pos.compare_cont Eq ma mb).
Qed.

Lemma F32_compare_refl (a : spec_float) :
  SFcompare a a = Some Eq \/ SFcompare a a = None.
Proof.
  destruct a as [s|s| |s m e]; simpl; auto; try (by destruct s; auto).
  left. destruct s; rewrite Z.compare_refl; f_equal;
    change (Pos.compare_cont Eq m m) with (m ?= m)%positive;
    by rewrite Pos.compare_refl.
Qed.

Lemma F32_compare_nan (a b : spec_float) :
  F32.is_nan a = false -> F32.is_nan b = false -> is_Some (SFcompare a b).
Proof. destruct a, b; simpl; intros; try discriminate; eauto. Qed.

Lemma F32_laws : ScalarLaws F32.scalar.
Proof.
  split; simpl.
  - apply F32_mul_comm.
  - intros a. unfold SFltb. by destruct (F32_compare_refl a) as [-> | ->].
  - intros a b Ha Hb. unfold SFltb, SFleb. rewrite (F32_compare_antisym a b).
    destruct (F32_compare_nan a b Ha Hb) as [c ->]. by destruct c.
  - intros a b. unfold SFleb. by destruct a, b.
Qed.

(** ** The laws in the exact model *)

Section ExactModel.
Local Open Scope R_scope.
Import XR.

Lemma XR_lt_Fin (a b : R) : XR.lt (Fin a) (Fin b) = true <-> a < b.
Proof. simpl. destruct (Rlt_dec a b); split; intros; try done; lra. Qed.

Lemma XR_lt_Fin_false (a b : R) : XR.lt (Fin a) (Fin b) = false <-> b <= a.
Proof. simpl. destruct (Rlt_dec a b); split; intros; try done; lra. Qed.

Lemma XR_div_Fin (a b : R) : b <> 0 -> XR.div (Fin a) (Fin b) = Fin (a / b).
Proof. intros Hb. simpl. by destruct (Req_EM_T b 0). Qed.

Lemma XR_sqrt_Fin (a : R) : 0 <= a -> XR.sqrt (Fin a) = Fin (R_sqrt.sqrt a).
Proof. intros Ha. simpl. destruct (Rlt_dec a 0); [lra|done]. Qed.

Lemma XR_on_unit_Fin (f : R -> R) (r : R) : -1 <= r <= 1 -> on_unit f (Fin r) = Fin (f r).
Proof.
  intros [Hlo Hhi]. simpl.
  destruct (Rle_dec (-1) r); [|lra]. destruct (Rle_dec r 1); [done|lra].
Qed.

Lemma XR_laws : ScalarLaws XR.scalar.
Proof.
  split; simpl.
  - intros [a| | |] [b| | |]; simpl; try reflexivity.
    + by rewrite Rmult_comm.
    + destruct (Req_EM_T a 0); simpl; [done|]. by destruct (Rlt_dec a 0).
    + destruct (Req_EM_T a 0); simpl; [done|]. by destruct (Rlt_dec a 0).
    + destruct (Req_EM_T b 0); simpl; [done|]. by destruct (Rlt_dec b 0).
    + destruct (Req_EM_T b 0); simpl; [done|]. by destruct (Rlt_dec b 0).
  - intros [a| | |]; simpl; try reflexivity. destruct (Rlt_dec a a); [lra|done].
  - intros [a| | |] [b| | |]; simpl; try done.
    destruct (Rlt_dec a b); [done|]. destruct (Rle_dec b a); [done|lra].
  - intros [a| | |] [b| | |]; simpl; done.
Qed.

Lemma XR_vec3Len_shape (p : @NiPoint3 XR.scalar) :
  ref_vec3Len p = NaN \/ ref_vec3Len p = PInf \/
  exists l, 0 <= l /\ ref_vec3Len p = Fin l.
Proof.
  destruct p as [[a| | |] [b| | |] [c| | |]]; cbn; auto.
  right. right. destruct (Rlt_dec _ 0) as [Hneg|_].
  - exfalso. nra.
  - eexists. split; [apply sqrt_pos|done].
Qed.

(** In exact arithmetic a vector that is longer than [l] and is
    normalised and scaled to [l] has length [l]. *)
Lemma XR_rescaled_length (a b c l : R) :
  0 <= l -> l < R_sqrt.sqrt (a * a + b * b + c * c) ->
  let m := R_sqrt.sqrt (a * a + b * b + c * c) in
  R_sqrt.sqrt (a / m * l * (a / m * l) + b / m * l * (b / m * l) + c / m * l * (c / m * l)) = l.
Proof.
  intros Hl Hm m. assert (Hs : 0 <= a * a + b * b + c * c) by nra.
  assert (Hm0 : 0 < m) by (unfold m; lra).
  assert (Hmm : m * m = a * a + b * b + c * c) by (by apply sqrt_sqrt).
  replace (a / m * l * (a / m * l) + b / m * l * (b / m * l) + c / m * l * (c / m * l))
    with (l * l).
  - by apply sqrt_square.
  - transitivity (l * l * ((a * a + b * b + c * c) / (m * m))).
    + rewrite <- Hmm. field. lra.
    + field. lra.
Qed.

(** The assumption of C2 holds for the reference helpers in exact
    arithmetic. *)
Lemma XR_renormalise (p q : @NiPoint3 XR.scalar) :
  XR.lt (ref_vec3Len q) (ref_vec3Len p) = true ->
  XR.lt (ref_vec3Len q) (ref_vec3Len (vscale (ref_vec3Norm p) (ref_vec3Len q))) = false.
Proof.
  destruct (XR_vec3Len_shape q) as [-> | [-> | (l & Hl & ->)]];
    [done|by destruct (ref_vec3Len p)|].
  destruct p as [[a| | |] [b| | |] [c| | |]]; try (cbn; done);
    try (cbn; destruct (Req_EM_T l 0); cbn; done).
  intros Hlong.
  assert (Hs : 0 <= a * a + b * b + c * c) by nra.
  assert (Hlen : ref_vec3Len (@mkPoint XR.scalar (Fin a) (Fin b) (Fin c))
                 = Fin (R_sqrt.sqrt (a * a + b * b + c * c))).
  { unfold ref_vec3Len. cbn -[XR.sqrt]. by apply XR_sqrt_Fin. }
  rewrite Hlen in Hlong. apply XR_lt_Fin in Hlong.
  unfold ref_vec3Norm. rewrite Hlen. unfold vdiv, vscale. cbn -[XR.div XR.sqrt XR.lt].
  rewrite !XR_div_Fin by lra. unfold ref_vec3Len. cbn -[XR.sqrt XR.lt].
  rewrite XR_sqrt_Fin by nra. apply XR_lt_Fin_false.
  rewrite (XR_rescaled_length a b c l) by done. lra.
Qed.

Lemma XR_lit_2 : XR.of_Q 2 = Fin 2.
Proof. unfold XR.of_Q, Q2R. simpl. f_equal; try lra. Qed.

Lemma XR_lit_1 : XR.of_Q 1 = Fin 1.
Proof. unfold XR.of_Q, Q2R. simpl. f_equal; try lra. Qed.

Lemma XR_lit_tenth : XR.of_Q 0.1 = Fin (1 / 10).
Proof. unfold XR.of_Q, Q2R. simpl. f_equal; try lra. Qed.

Lemma XR_cosine_law (a b c : R) :
  0 < b -> 0 < c ->
  cosine_law (H := XR.scalar) (Fin a) (Fin b) (Fin c)
  = on_unit Ratan.acos (Fin ((b * b + c * c - a * a) / (2 * b * c))).
Proof.
  intros Hb Hc. unfold cosine_law. cbn -[XR.div XR.of_Q on_unit].
  rewrite XR_lit_2. cbn -[XR.div on_unit]. rewrite XR_div_Fin by nra. done.
Qed.

Lemma div_unit_bounds (u v : R) : 0 < v -> - v <= u <= v -> -1 <= u / v <= 1.
Proof.
  intros Hv Hu. assert (Ht : u / v * v = u) by (field; lra).
  revert Ht. generalize (u / v). intros t Ht. split; nra.
Qed.

(** A triangle with sides [a], [b] and [c = a + b - 1/5], both [a]
    and [b] at least [1/10]: the cosine at the corner between [b] and
    [c] is a cosine. *)
Lemma stretched_cosine (a b c : R) :
  0 < c -> a + b = c + 1 / 5 -> 1 / 10 <= a -> 1 / 10 <= b ->
  -1 <= (b * b + c * c - a * a) / (2 * b * c) <= 1.
Proof.
  intros Hc Hsum Ha Hb. apply div_unit_bounds; [nra|].
  assert (Ha' : a = c + 1 / 5 - b) by lra. subst a. split; nra.
Qed.

(** The first angle of the solve, for positive lengths: without
    stretching it is the arc cosine of the law of cosines where that
    is defined; after stretching it always is. *)
Lemma XR_first_angle (a b c : R) :
  0 < a -> 0 < b -> 0 < c ->
  (c <= a + b /\
   leg_stretch (H := XR.scalar) (Fin a) (Fin b) (Fin c) = (Fin a, Fin b)) \/
  (exists a' b', 0 < b' /\
     leg_stretch (H := XR.scalar) (Fin a) (Fin b) (Fin c) = (Fin a', Fin b') /\
     -1 <= (b' * b' + c * c - a' * a') / (2 * b' * c) <= 1).
Proof.
  intros Ha Hb Hc. unfold leg_stretch. cbn -[XR.lt XR.div XR.of_Q].
  destruct (XR.lt (Fin (a + b)) (Fin c)) eqn:Hlong.
  - right. apply XR_lt_Fin in Hlong.
    rewrite XR_lit_tenth, XR_lit_1, XR_div_Fin by lra. cbn.
    eexists _, _. split; [|split; [done|]].
    + assert (0 < b / (b + a)) by (apply Rdiv_lt_0_compat; lra). nra.
    + assert (Hr0 : 0 < b / (b + a)) by (apply Rdiv_lt_0_compat; lra).
      assert (Hr1 : 0 < 1 - b / (b + a)).
      { replace (1 - b / (b + a)) with (a / (b + a)) by (field; lra).
        apply Rdiv_lt_0_compat; lra. }
      apply stretched_cosine; [done| |nra|nra].
      field. lra.
  - left. apply XR_lt_Fin_false in Hlong. done.
Qed.

(** The two-bone solve in exact arithmetic, for sides [a], [b], [c]
    and the average [L] of [a] and [b]. *)
Lemma XR_solve (a b c L : R) :
  0 < a -> 0 < b -> 0 < c -> L = (a + b) / 2 ->
  let s := leg_stretch (H := XR.scalar) (Fin a) (Fin b) (Fin c) in
  let first := cosine_law (H := XR.scalar) (fst s) (snd s) (Fin c) in
  let arg := (L * L + c * c - L * L) / (2 * L * c) in
  (XR.is_nan first || XR.is_inf first = true ->
   -1 <= arg <= 1 /\
   cosine_law (H := XR.scalar) (Fin L) (Fin L) (Fin c) = Fin (Ratan.acos arg)) /\
  (XR.is_nan first || XR.is_inf first = false ->
   exists angle, first = Fin angle /\ 0 <= angle <= Rtrigo1.PI).
Proof.
  intros Ha Hb Hc HL s first arg. unfold first, s.
  destruct (XR_first_angle a b c Ha Hb Hc) as [[Hshort ->]|(a' & b' & Hb' & -> & Hr)]; simpl fst; simpl snd.
  - rewrite XR_cosine_law by done.
    destruct (Rle_dec (-1) ((b * b + c * c - a * a) / (2 * b * c))) as [Hlo|Hlo];
      [destruct (Rle_dec ((b * b + c * c - a * a) / (2 * b * c)) 1) as [Hhi|Hhi]|].
    + rewrite XR_on_unit_Fin by done. cbn [XR.is_nan XR.is_inf orb]. split; [done|].
      intros _. eexists. split; [done|]. apply acos_bound.
    + assert (Hnan : on_unit Ratan.acos (Fin ((b * b + c * c - a * a) / (2 * b * c))) = NaN).
      { simpl. destruct (Rle_dec (-1) _); [|done]. destruct (Rle_dec _ 1); [lra|done]. }
      rewrite Hnan. cbn [XR.is_nan XR.is_inf orb]. split; [|done]. intros _.
      assert (Harg : -1 <= arg <= 1).
      { unfold arg. apply div_unit_bounds; [nra|]. split; nra. }
      split; [done|]. rewrite XR_cosine_law by lra. by apply XR_on_unit_Fin.
    + assert (Hnan : on_unit Ratan.acos (Fin ((b * b + c * c - a * a) / (2 * b * c))) = NaN).
      { simpl. destruct (Rle_dec (-1) _); [lra|done]. }
      rewrite Hnan. cbn [XR.is_nan XR.is_inf orb]. split; [|done]. intros _.
      assert (Harg : -1 <= arg <= 1).
      { unfold arg. apply div_unit_bounds; [nra|]. split; nra. }
      split; [done|]. rewrite XR_cosine_law by lra. by apply XR_on_unit_Fin.
  - rewrite XR_cosine_law by done. rewrite XR_on_unit_Fin by done.
    cbn [XR.is_nan XR.is_inf orb]. split; [done|]. intros _. eexists. split; [done|]. apply acos_bound.
Qed.

(** X25.  In exact arithmetic and for positive lengths: whenever the
    first angle of [setSingleLeg]'s or of [setArms]'s solve is NaN or
    infinite, the solve uses two segments of the average of the two
    bind lengths, the argument of the arc cosine of the second solve
    lies between -1 and 1, and the angle is that arc cosine.  In every
    case the angle that the solve returns is a real number between 0
    and pi. *)
Theorem cosine_law_fallback_finite (thigh calf ftLen upper0 forearm0 adj hsLen : R)
    (Hthigh : 0 < thigh) (Hcalf : 0 < calf) (HftLen : 0 < ftLen)
    (Hupper : 0 < upper0) (Hforearm : 0 < forearm0) (Hadj : 0 < adj) (HhsLen : 0 < hsLen) :
  (let s := leg_stretch (H := XR.scalar) (Fin thigh) (Fin calf) (Fin ftLen) in
   let first := cosine_law (H := XR.scalar) (fst s) (snd s) (Fin ftLen) in
   let L := (thigh + calf) / 2 in
   let arg := (L * L + ftLen * ftLen - L * L) / (2 * L * ftLen) in
   (XR.is_nan first || XR.is_inf first = true ->
    -1 <= arg <= 1 /\
    leg_solve (H := XR.scalar) (Fin thigh) (Fin calf) (Fin ftLen)
    = (Fin L, Fin L, Fin (Ratan.acos arg))) /\
   exists angle, snd (leg_solve (H := XR.scalar) (Fin thigh) (Fin calf) (Fin ftLen)) = Fin angle
                 /\ 0 <= angle <= Rtrigo1.PI) /\
  (let s := arm_stretch (H := XR.scalar) (Fin (upper0 * adj)) (Fin (forearm0 * adj))
              (Fin hsLen) in
   let first := cosine_law (H := XR.scalar) (fst s) (snd s) (Fin hsLen) in
   let L := (upper0 + forearm0) / 2 * adj in
   let arg := (L * L + hsLen * hsLen - L * L) / (2 * L * hsLen) in
   (XR.is_nan first || XR.is_inf first = true ->
    -1 <= arg <= 1 /\
    arm_solve (H := XR.scalar) (Fin upper0) (Fin forearm0) (Fin adj) (Fin hsLen)
    = (Fin L, Fin L, Fin (Ratan.acos arg))) /\
   exists angle,
     snd (arm_solve (H := XR.scalar) (Fin upper0) (Fin forearm0) (Fin adj) (Fin hsLen))
     = Fin angle /\ 0 <= angle <= Rtrigo1.PI).
Proof.
  split.
  - intros s first L arg.
    destruct (XR_solve thigh calf ftLen L Hthigh Hcalf HftLen eq_refl) as [Hbad Hgood].
    fold s first arg in Hbad, Hgood.
    assert (Havg : XR.div (XR.add (Fin thigh) (Fin calf)) (XR.of_Q 2) = Fin L).
    { rewrite XR_lit_2. cbn -[XR.div]. rewrite XR_div_Fin by lra. done. }
    rewrite (leg_solve_eq (H := XR.scalar) (Fin thigh) (Fin calf) (Fin ftLen)). cbv zeta.
    fold s first. change fadd with XR.add. change fdiv with XR.div.
    change lit with XR.of_Q. change isnan with XR.is_nan. change isinf with XR.is_inf.
    rewrite Havg.
    destruct (XR.is_nan first || XR.is_inf first) eqn:Hfirst.
    + destruct (Hbad eq_refl) as [Harg Hcos]. rewrite Hcos. split; [done|].
      eexists. split; [done|]. apply acos_bound.
    + split; [done|]. destruct (Hgood eq_refl) as (angle & -> & Hangle). eauto.
  - intros s first L arg.
    assert (Hu : 0 < upper0 * adj) by nra. assert (Hf : 0 < forearm0 * adj) by nra.
    destruct (XR_solve (upper0 * adj) (forearm0 * adj) hsLen L Hu Hf HhsLen) as [Hbad Hgood];
      [unfold L; lra|].
    change (leg_stretch (H := XR.scalar) (Fin (upper0 * adj)) (Fin (forearm0 * adj))
              (Fin hsLen)) with s in Hbad, Hgood.
    fold first arg in Hbad, Hgood.
    assert (Havg : XR.mul (XR.div (XR.add (Fin upper0) (Fin forearm0)) (XR.of_Q 2)) (Fin adj)
                   = Fin L).
    { rewrite XR_lit_2. cbn -[XR.div]. rewrite XR_div_Fin by lra. done. }
    rewrite (arm_solve_eq (H := XR.scalar) (Fin upper0) (Fin forearm0) (Fin adj) (Fin hsLen)).
    cbv zeta.
    change fadd with XR.add. change fdiv with XR.div.
    change fmul with XR.mul. change lit with XR.of_Q.
    change isnan with XR.is_nan. change isinf with XR.is_inf.
    change (XR.mul (Fin upper0) (Fin adj)) with (Fin (upper0 * adj)).
    change (XR.mul (Fin forearm0) (Fin adj)) with (Fin (forearm0 * adj)).
    fold s first. rewrite Havg.
    destruct (XR.is_nan first || XR.is_inf first) eqn:Hfirst.
    + destruct (Hbad eq_refl) as [Harg Hcos]. rewrite Hcos. split; [done|].
      eexists. split; [done|]. apply acos_bound.
    + split; [done|]. destruct (Hgood eq_refl) as (angle & -> & Hangle). eauto.
Qed.

End ExactModel.

(** ** More on the walk cycle *)

Section WalkCycle.
Context `{Scalar} `{!Helpers}.
Local Open Scope fl_scope.

(** In the air the cycle is reset. *)
Lemma walk_switch_air inp curSpeed stepTime dir lFoot rFoot st :
  isJumpingOrInAir inp = true ->
  walk_switch inp curSpeed stepTime dir lFoot rFoot st = set_walkingState st 0.
Proof. intros Hair. unfold walk_switch. by rewrite Hair. Qed.

(** X1.  With the six leg nodes there and the player jumping or in
    the air, [walk] returns in state 0 (Idle) with both remembered
    foot positions on the feet of the skeleton, moved together as the
    function starts by doing, at the height of the root; the speed of
    the frame is recorded, and the step in flight (foot, targets,
    timers) is left as it was. *)
Theorem walk_in_air (inp : WalkInput) (st : Walk)
    (lHip rHip lKnee rKnee lFoot rFoot : NiNode)
    (HlHip : getNode "LLeg_Thigh" st = Some lHip)
    (HrHip : getNode "RLeg_Thigh" st = Some rHip)
    (HlKnee : getNode "LLeg_Calf" st = Some lKnee)
    (HrKnee : getNode "RLeg_Calf" st = Some rKnee)
    (HlFoot : getNode "LLeg_Foot" st = Some lFoot)
    (HrFoot : getNode "RLeg_Foot" st = Some rFoot)
    (Hair : isJumpingOrInAir inp = true) :
  let lF := fst (walk_feet inp lFoot rFoot) in
  let rF := snd (walk_feet inp lFoot rFoot) in
  let rootZ := z (pos (m_worldTransform (_root st))) in
  exists st', walk inp st = Some st' /\
    _walkingState st' = 0%Z /\
    _leftFootPos st' = set_z (foot_pos lF) rootZ /\
    _rightFootPos st' = set_z (foot_pos rF) rootZ /\
    _prevSpeed st' = walk_curSpeed inp (_prevSpeed st) /\
    nodes st' = <["RLeg_Foot" := rF]> (<["LLeg_Foot" := lF]> (nodes st)) /\
    _footStepping st' = _footStepping st /\
    _rightFootTarget st' = _rightFootTarget st /\
    _leftFootTarget st' = _leftFootTarget st /\
    _currentStepTime st' = _currentStepTime st /\
    _delayFrame st' = _delayFrame st.
Proof.
  intros lF rF rootZ.
  rewrite (walk_unfold inp st lHip rHip lKnee rKnee lFoot rFoot) by done.
  cbv zeta. fold lF rF. rewrite walk_switch_air by done.
  unfold walk_finish. cbn. eexists. split; [done|].
  unfold walk_enter. cbn.
  destruct (_ <? _); cbn; done.
Qed.

(** The delay counter stays between 0 and 2. *)
Lemma walk_delay_range dot d :
  (0 <= d <= 2)%Z -> (0 <= fst (walk_delay dot d) <= 2)%Z.
Proof.
  intros Hd. unfold walk_delay.
  destruct (dot <? lit 0.9).
  - destruct (Z.eqb_spec d 0); simpl; lia.
  - destruct (Z.eqb_spec d 2); simpl; lia.
Qed.

Lemma walk_enter_counters inp lFoot rFoot st :
  _delayFrame (walk_enter inp lFoot rFoot st) = _delayFrame st /\
  _footStepping (walk_enter inp lFoot rFoot st) = _footStepping st.
Proof. unfold walk_enter. cbn. by destruct (_ <? _). Qed.

Lemma walk_switch_counters inp curSpeed stepTime dir lFoot rFoot st :
  (0 <= rand inp)%Z ->
  (0 <= _delayFrame st <= 2)%Z -> foot_in_range (_footStepping st) ->
  (0 <= _delayFrame (walk_switch inp curSpeed stepTime dir lFoot rFoot st) <= 2)%Z /\
  foot_in_range (_footStepping (walk_switch inp curSpeed stepTime dir lFoot rFoot st)).
Proof.
  intros Hrand Hd Hf.
  assert (Hpick : foot_in_range (Z.rem (rand inp) 2 + 1)).
  { pose proof (Z.rem_bound_pos (rand inp) 2 Hrand ltac:(lia)) as Hb.
    unfold foot_in_range. lia. }
  unfold walk_switch. destruct (isJumpingOrInAir inp); simpl; [done|].
  destruct (_walkingState st) as [|[[]|[]|]|]; simpl; try done;
    repeat match goal with |- context [if ?c then _ else _] => destruct c; simpl end;
    try done; try (split; [lia|done]); try (split; [lia|by left]).
Qed.

Lemma walk_walking_counters inp curSpeed stepTime dir lFoot rFoot st st' :
  walk_walking inp curSpeed stepTime dir lFoot rFoot st = Some st' ->
  (0 <= _delayFrame st <= 2)%Z -> foot_in_range (_footStepping st) ->
  (0 <= _delayFrame st' <= 2)%Z /\ foot_in_range (_footStepping st').
Proof.
  intros Hw Hd Hf. revert Hw. unfold walk_walking. cbn.
  pose proof (walk_delay_range (vec3Dot dir (_stepDir st)) (_delayFrame st) Hd) as Hr.
  destruct (_footStepping st =? 1)%Z eqn:Hfoot; cbn;
    destruct (walk_delay _ _) as [delay [|]]; cbn;
    (destruct (nodes st !! "SPINE2") as [spine|]; cbn; [|done]);
    repeat match goal with |- context [if ?c then _ else _] => destruct c eqn:?; cbn end;
    intros [= <-]; cbn; simpl in Hr; unfold foot_in_range in *; (split; [lia|]); auto.
Qed.

(** X2.  [walk] keeps its step bookkeeping in range: when
    [std::rand()] returns a number that is not negative, a delay
    counter between 0 and 2 and a stepping foot that is 0 (none), 1
    (right) or 2 (left) are so again after the call, on every path. *)
Theorem walk_keeps_counters (inp : WalkInput) (st st' : Walk)
    (Hrand : (0 <= rand inp)%Z)
    (Hdelay : (0 <= _delayFrame st <= 2)%Z)
    (Hfoot : foot_in_range (_footStepping st))
    (Hwalk : walk inp st = Some st') :
  (0 <= _delayFrame st' <= 2)%Z /\ foot_in_range (_footStepping st').
Proof.
  revert Hwalk. unfold walk.
  destruct (getNode "LLeg_Thigh" st) as [lHip|]; [|by intros [= <-]].
  destruct (getNode "RLeg_Thigh" st) as [rHip|]; [|by intros [= <-]].
  destruct (getNode "LLeg_Calf" st) as [lKnee|]; [|by intros [= <-]].
  destruct (getNode "RLeg_Calf" st) as [rKnee|]; [|by intros [= <-]].
  destruct (getNode "LLeg_Foot" st) as [lFoot|]; [|by intros [= <-]].
  destruct (getNode "RLeg_Foot" st) as [rFoot|]; [|by intros [= <-]].
  destruct (walk_feet inp lFoot rFoot) as [lF rF]. cbv zeta.
  destruct (walk_enter_counters inp lF rF st) as [Hd0 Hf0].
  set (st0 := walk_enter inp lF rF st) in *.
  match goal with |- context [walk_switch ?a ?b ?c ?d ?e ?f ?g] =>
    destruct (walk_switch_counters a b c d e f g) as [Hd1 Hf1];
      [done|by rewrite Hd0|by rewrite Hf0|];
    generalize dependent (walk_switch a b c d e f g)
  end.
  intros st1 Hd1 Hf1. unfold walk_finish.
  destruct (_walkingState st1 =? 0)%Z; [by intros [= <-]|].
  destruct (_walkingState st1 =? 1)%Z.
  { intros Hw. by eapply walk_walking_counters. }
  destruct (_walkingState st1 =? 2)%Z; by intros [= <-].
Qed.

(** X3.  A step in progress.  With the leg and spine nodes there,
    the player on the ground and walking (state 1), no deceleration
    of more than 20 and a speed that is not below 20, [walk] stays in
    state 1 and adds the frame time to the step timer.  When the
    timer then exceeds the step time of the frame, the step is handed
    over: the timer restarts at 0, the other foot becomes the
    stepping foot, starts from where it stands and is aimed
    [min(speed * stepTime * 1.5, 140)] ahead of its node along the
    direction of movement.  Otherwise the stepping foot is kept. *)
Theorem walk_step_handover (inp : WalkInput) (st : Walk)
    (lHip rHip lKnee rKnee lFoot rFoot : NiNode)
    (HlHip : getNode "LLeg_Thigh" st = Some lHip)
    (HrHip : getNode "RLeg_Thigh" st = Some rHip)
    (HlKnee : getNode "LLeg_Calf" st = Some lKnee)
    (HrKnee : getNode "RLeg_Calf" st = Some rKnee)
    (HlFoot : getNode "LLeg_Foot" st = Some lFoot)
    (HrFoot : getNode "RLeg_Foot" st = Some rFoot)
    (Hspine : is_Some (nodes st !! "SPINE2"))
    (Hground : isJumpingOrInAir inp = false)
    (Hstate : _walkingState st = 1%Z)
    (Hdecel : (walk_curSpeed inp (_prevSpeed st) - _prevSpeed st <? lit (-20)) = false)
    (Hspeed : (walk_curSpeed inp (_prevSpeed st) <? lit 20) = false) :
  let speed := walk_curSpeed inp (_prevSpeed st) in
  let stepTime := walk_stepTime speed in
  let dir := vec3Norm (walk_dir inp) in
  let lF := fst (walk_feet inp lFoot rFoot) in
  let rF := snd (walk_feet inp lFoot rFoot) in
  let reach := std_min (speed * stepTime * lit 1.5) (lit 140) in
  let timer := _currentStepTime st + _frameTime inp in
  exists st', walk inp st = Some st' /\
    _walkingState st' = 1%Z /\
    if timer >? stepTime then
      _currentStepTime st' = lit 0 /\ _stepTimeinStep st' = stepTime /\ _stepDir st' = dir /\
      (if (_footStepping st =? 1)%Z
       then _footStepping st' = 2%Z /\ _leftFootPos st' = _leftFootPos st /\
            _leftFootStart st' = _leftFootPos st /\
            _leftFootTarget st' = foot_pos lF +v dir *v reach
       else _footStepping st' = 1%Z /\ _rightFootPos st' = _rightFootPos st /\
            _rightFootStart st' = _rightFootPos st /\
            _rightFootTarget st' = foot_pos rF +v dir *v reach)
    else
      _currentStepTime st' = timer /\ _footStepping st' = _footStepping st /\
      _stepTimeinStep st' = _stepTimeinStep st.
Proof.
  intros speed stepTime dir lF rF reach timer.
  rewrite (walk_unfold inp st lHip rHip lKnee rKnee lFoot rFoot) by done.
  cbv zeta. fold speed stepTime dir lF rF.
  assert (Henter : walk_enter inp lF rF st
                   = set_prevSpeed
                       (set_nodes st (<["RLeg_Foot" := rF]> (<["LLeg_Foot" := lF]> (nodes st))))
                       speed).
  { unfold walk_enter. cbn -[walk_curSpeed]. by rewrite Hdecel. }
  rewrite Henter. set (st0 := set_prevSpeed _ _).
  assert (Hswitch : walk_switch inp speed stepTime dir lF rF st0 = st0).
  { unfold walk_switch. rewrite Hground. cbn. rewrite Hstate. fold speed in Hspeed.
    by rewrite Hspeed. }
  rewrite Hswitch. unfold walk_finish.
  change (_walkingState st0) with (_walkingState st). rewrite Hstate.
  change (1 =? 0)%Z with false. change (1 =? 1)%Z with true. cbv iota.
  assert (Hsp : is_Some (nodes st0 !! "SPINE2")).
  { unfold st0. cbn. rewrite !lookup_insert_ne by done. done. }
  destruct Hsp as [spine Hsp].
  unfold walk_walking. cbn. fold reach timer.
  destruct (_footStepping st =? 1)%Z eqn:Hfoot; cbn;
    destruct (walk_delay _ _) as [delay [|]]; cbn;
    cbn in Hsp; rewrite Hsp; cbn; fold timer;
    destruct (timer >? stepTime); cbn; rewrite ?Hfoot; cbn;
    eexists; (split; [done|]); cbn; rewrite ?Hstate; done.
Qed.

End WalkCycle.

(** ** More on the legs *)

Section LegFrame.
Context `{Scalar} `{!Helpers}.
Local Open Scope fl_scope.

(** X4.  What [setSingleLeg] leaves alone.  A call that returns has
    changed three nodes at most, the thigh, the calf and the foot of
    its side: every other node and every other member of the walk
    state is as before.  Of the three nodes it has set local
    transforms only: the world transforms are as before (they are not
    recomputed here), so are the local scales and the local position
    of the thigh. *)
Theorem setSingleLeg_frame (inPowerArmor : bool) (m_parent : string -> option string)
    (isLeft : bool) (st st' : Walk)
    (Hleg : setSingleLeg inPowerArmor m_parent isLeft st = Some st') :
  let footName := if isLeft then "LLeg_Foot" else "RLeg_Foot" in
  let kneeName := if isLeft then "LLeg_Calf" else "RLeg_Calf" in
  let hipName := if isLeft then "LLeg_Thigh" else "RLeg_Thigh" in
  st' = set_nodes st (nodes st') /\
  (forall name, name <> footName -> name <> kneeName -> name <> hipName ->
     nodes st' !! name = nodes st !! name) /\
  (forall name, name = footName \/ name = kneeName \/ name = hipName ->
     exists n n', nodes st !! name = Some n /\ nodes st' !! name = Some n' /\
       m_worldTransform n' = m_worldTransform n /\
       scale (m_localTransform n') = scale (m_localTransform n) /\
       (name = hipName -> pos (m_localTransform n') = pos (m_localTransform n))).
Proof.
  intros footName kneeName hipName. revert Hleg. unfold setSingleLeg.
  fold footName kneeName hipName.
  destruct (nodes st !! footName) as [footNode|] eqn:Hfoot; [|done].
  destruct (nodes st !! kneeName) as [kneeNode|] eqn:Hknee; [|done].
  destruct (nodes st !! hipName) as [hipNode|] eqn:Hhip; [|done].
  cbn -[clamp_to_bind leg_solve].
  destruct (leg_solve _ _ _) as [[thighLen calfLen] footAngle].
  destruct (m_parent hipName) as [parentName|]; [|done]. cbn -[clamp_to_bind].
  destruct (nodes st !! parentName) as [hipParent|]; [|done]. cbn -[clamp_to_bind].
  intros [= <-]. cbn -[clamp_to_bind].
  assert (Hfk : footName <> kneeName) by (unfold footName, kneeName; by destruct isLeft).
  assert (Hfh : footName <> hipName) by (unfold footName, hipName; by destruct isLeft).
  assert (Hkh : kneeName <> hipName) by (unfold kneeName, hipName; by destruct isLeft).
  split; [done|]. split.
  - intros name H1 H2 H3. by rewrite !lookup_insert_ne.
  - intros name [ -> | [ -> | -> ] ].
    + eexists _, _. split; [done|]. rewrite lookup_insert_eq. split; [done|]. done.
    + eexists _, _. split; [done|].
      rewrite lookup_insert_ne, lookup_insert_eq by done. split; [done|]. done.
    + eexists _, _. split; [done|].
      rewrite !lookup_insert_ne, lookup_insert_eq by done. split; [done|]. done.
Qed.

End LegFrame.

(** ** More on the arms *)

Section ArmFrame.
Context `{Scalar} `{!Helpers}.
Local Open Scope fl_scope.

(** [dampenHand] leaves the transform remembered for the other hand
    alone. *)
Lemma dampenHand_other inp (isLeft : bool) node prevL prevR :
  if isLeft then (dampenHand inp isLeft node prevL prevR).2 = prevR
  else (dampenHand inp isLeft node prevL prevR).1.2 = prevL.
Proof.
  unfold dampenHand.
  destruct (dampenHands inp); simpl; [|by destruct isLeft].
  destruct (isInScopeMenu inp && negb (dampenHandsInVanillaScope inp)); simpl;
    by destruct isLeft.
Qed.

(** X5.  [dampenHand], switched off in the configuration, or in the
    scope menu without the option for it, changes nothing.  Otherwise
    it moves the node's world rotation and position towards the
    previous frame, keeps the node's local transform and world scale,
    remembers the damped world transform for this hand and hands the
    node to [updateDown].  In every case the transform remembered for
    the other hand is untouched. *)
Theorem dampenHand_remembers (inp : ArmsInput) (isLeft : bool) (node : NiNode)
    (prevL prevR : NiTransform) :
  let r := dampenHand inp isLeft node prevL prevR in
  let off := negb (dampenHands inp)
             || (isInScopeMenu inp && negb (dampenHandsInVanillaScope inp)) in
  (if isLeft then r.2 = prevR else r.1.2 = prevL) /\
  if off then r = (node, prevL, prevR)
  else exists damped,
    r.1.1 = updateDown damped false /\
    (if isLeft then r.1.2 else r.2) = m_worldTransform damped /\
    m_localTransform damped = m_localTransform node /\
    scale (m_worldTransform damped) = scale (m_worldTransform node) /\
    pos (m_worldTransform damped)
    = world_pos node
      -v (world_pos node -v pos (if isLeft then prevL else prevR)
          -v (arms_curentPosition inp -v arms_lastPosition inp))
         *v (if isInScopeMenu inp then dampenHandsTranslationInVanillaScope inp
             else dampenHandsTranslation inp).
Proof.
  intros r off. split.
  - apply dampenHand_other.
  - unfold r, off, dampenHand.
    destruct (dampenHands inp); simpl; [|done].
    destruct (isInScopeMenu inp && negb (dampenHandsInVanillaScope inp)); simpl; [done|].
    eexists. split; [done|]. by destruct isLeft.
Qed.

(** The first part of [setArms] leaves the previous-frame transform
    of the other hand, and the weapon and offset nodes that it does
    not work with, alone. *)
Lemma setArms_prepare_other inp (isLeft : bool) st :
  let st1 := setArms_prepare inp isLeft st in
  (if isLeft then _rightHandPrevFrame st1 = _rightHandPrevFrame st
   else _leftHandPrevFrame st1 = _leftHandPrevFrame st) /\
  (if xorb (isLeftHandedMode inp) isLeft
   then rightWeapon st1 = rightWeapon st
        /\ primaryWeaponOffsetNOde st1 = primaryWeaponOffsetNOde st
   else WeaponLeftNode st1 = WeaponLeftNode st
        /\ SecondaryMeleeWeaponOffsetNode2 st1 = SecondaryMeleeWeaponOffsetNode2 st).
Proof.
  unfold setArms_prepare.
  destruct (xorb _ _); cbn;
    match goal with |- context [dampenHand ?a ?b ?c ?d ?e] =>
      pose proof (dampenHand_other a b c d e) as Ho;
      destruct (dampenHand a b c d e) as [[offsetNode prevL] prevR]
    end; cbn in *;
    destruct (Update1StPersonArm _ _ _) as [lh rh]; cbn; by destruct isLeft.
Qed.

(** X6.  What [setArms] leaves alone.  Without a first-person
    skeleton the call changes nothing at all.  Otherwise, on every
    path on which it returns, the bones of the other arm, the twist
    angle and the previous-frame transform remembered for the other
    side, and the weapon and offset nodes of the other hand are as
    before. *)
Theorem setArms_frame (inp : ArmsInput) (isLeft : bool) (st st' : ArmsState)
    (Harms : setArms inp isLeft st = Some st') :
  (firstPersonSkeleton inp = false -> st' = st) /\
  arm_of (negb isLeft) st' = arm_of (negb isLeft) st /\
  (if isLeft then prevAngle1 st' = prevAngle1 st else prevAngle0 st' = prevAngle0 st) /\
  (if isLeft then _rightHandPrevFrame st' = _rightHandPrevFrame st
   else _leftHandPrevFrame st' = _leftHandPrevFrame st) /\
  (firstPersonSkeleton inp = true ->
   if xorb (isLeftHandedMode inp) isLeft
   then rightWeapon st' = rightWeapon st
        /\ primaryWeaponOffsetNOde st' = primaryWeaponOffsetNOde st
   else WeaponLeftNode st' = WeaponLeftNode st
        /\ SecondaryMeleeWeaponOffsetNode2 st' = SecondaryMeleeWeaponOffsetNode2 st).
Proof.
  revert Harms. unfold setArms.
  destruct (firstPersonSkeleton inp); simpl negb; cbv iota;
    [|intros [= <-]; repeat split; by destruct isLeft].
  cbv zeta.
  destruct (setArms_prepare_frame inp isLeft st) as (Hl & Hr & Hp0 & Hp1).
  destruct (setArms_prepare_other inp isLeft st) as (Hprev & Hweapon).
  pose proof (arm_of_prepare inp isLeft (negb isLeft) st) as Hother.
  set (st1 := setArms_prepare inp isLeft st) in *. clearbody st1.
  destruct (hand_invalid _ _).
  { intros [= <-]. split; [done|]. split; [done|]. split; [by destruct isLeft|]. done. }
  destruct (arm_bind_lengths _ _) as [[originalUpperLen originalForearmLen]|]; [|done].
  simpl mbind. destruct (hand_too_far _ _ _).
  { intros [= <-]. split; [done|]. rewrite arm_of_put_other.
    split; [done|]. destruct isLeft, (xorb _ _); done. }
  destruct (arm_solve _ _ _ _) as [[upperLen forearmLen] wristAngle].
  destruct (arm_chain _ _ _ _ _ _ _ _) as [arm'|]; [|done]. simpl mbind.
  intros [= <-]. split; [done|]. rewrite arm_of_put_other.
  destruct isLeft, (xorb _ _); done.
Qed.

(** X7.  Outside power armor [setArms] reads the second and third
    forearm bones without a null check when it measures the forearm:
    with a hand position that passes the first test, an arm that
    lacks one of the two bones makes the call fail, although the
    later parts of the function test both bones before using them.
    ([updateDown] is assumed not to add bones to the arm.) *)
Theorem setArms_missing_forearm (inp : ArmsInput) (isLeft : bool) (st : ArmsState)
    (Hfp : firstPersonSkeleton inp = true)
    (Hpa : arms_inPowerArmor inp = false)
    (Hvalid : hand_invalid (setArms_handPos isLeft (setArms_prepare inp isLeft st))
                (arm_of isLeft st) = false)
    (Hmissing : forearms_present (arm_of isLeft st) <> (true, true))
    (Hdown : forall a b, forearms_present (updateDownArm a b) = forearms_present a) :
  setArms inp isLeft st = None.
Proof.
  unfold setArms. rewrite Hfp. simpl negb. cbv iota zeta.
  rewrite (arm_of_prepare inp isLeft isLeft st), Hvalid.
  assert (Hnone : arm_bind_lengths inp
                    (setArms_shoulder inp
                       (setArms_handPos isLeft (setArms_prepare inp isLeft st))
                       (arm_of isLeft st)) = None).
  { unfold arm_bind_lengths. rewrite Hpa.
    match goal with |- context [setArms_shoulder ?a ?b ?c] =>
      assert (Hsame : forearms_present (setArms_shoulder a b c)
                      = forearms_present (arm_of isLeft st))
        by (unfold setArms_shoulder; by rewrite Hdown);
      destruct (setArms_shoulder a b c) as [sh up f1 [f2|] [f3|] h]
    end; simpl in *; [|done..].
    exfalso. apply Hmissing. rewrite <- Hsame. done. }
  rewrite Hnone. done.
Qed.

End ArmFrame.

(** ** More on the hand pose *)

Section HandPose.
Context `{Scalar} `{!Helpers}.
Local Open Scope fl_scope.

Lemma calculateHandPose_closed inp st bone g t l st' :
  calculateHandPose inp st bone g t l = Some st' -> _closedHand st' = _closedHand st.
Proof.
  unfold calculateHandPose. intros Hc.
  destruct (handPoseTarget _ _ _ _ _ _); simplify_eq/=. done.
Qed.

Lemma copy1StPerson_closed inp st bone st' :
  copy1StPerson inp st bone = Some st' -> _closedHand st' = _closedHand st.
Proof.
  unfold copy1StPerson. intros Hc.
  destruct (fpBoneIndex inp !! bone); [|by simplify_eq].
  destruct (fpTransforms inp !! _); simplify_eq/=. done.
Qed.

(** The finger part of a turn, entry by entry. *)
Lemma setHandPose_finger_entry inp names st i st1 name :
  setHandPose_finger inp names st i = Some st1 -> names !! i = Some name ->
  match _fingerRelations inp !! name with
  | None => st1 = st
  | Some _ =>
      exists b b1 button,
        transforms st !! i = Some b /\ transforms st1 = <[i := b1]> (transforms st) /\
        _handBonesButton inp !! name = Some button /\
        _closedHand st1 = <[name := has_button (bone_buttons inp name) button]> (_closedHand st) /\
        parPos b1 = parPos b /\ world b1 = world b /\
        pos (local b1) = pos (map_index NiTransform_new (handOpen inp) name) /\
        scale (local b1) = scale (local b) /\
        refNode b1 = (fun n => set_local n (local b1)) <$> refNode b
  end.
Proof.
  unfold setHandPose_finger. intros Hf Hname. rewrite Hname in Hf. simpl in Hf.
  destruct (_fingerRelations inp !! name); [|by simplify_eq].
  destruct (_handBonesButton inp !! name) as [button|]; simpl in Hf; [|done].
  fold (bone_is_left name) in Hf. fold (bone_buttons inp name) in Hf.
  match type of Hf with context [if ?c then _ else _] => destruct c end.
  - destruct (copy1StPerson _ _ _) as [st2|] eqn:Hc; simpl in Hf; [|done].
    pose proof (copy1StPerson_transforms _ _ _ _ Hc) as Ht.
    pose proof (copy1StPerson_closed _ _ _ _ Hc) as Hcl. simpl in Ht, Hcl.
    rewrite Ht in Hf.
    destruct (transforms st !! i) as [b|] eqn:Hb; simpl in Hf; [|done].
    injection Hf as <-. simpl.
    eexists b, _, button. split; [done|]. split; [reflexivity|]. rewrite Hcl.
    destruct (refNode b) eqn:E; simpl; rewrite ?E; done.
  - destruct (calculateHandPose _ _ _ _ _ _) as [st2|] eqn:Hc; simpl in Hf; [|done].
    pose proof (calculateHandPose_transforms _ _ _ _ _ _ _ Hc) as Ht.
    pose proof (calculateHandPose_closed _ _ _ _ _ _ _ Hc) as Hcl. simpl in Ht, Hcl.
    rewrite Ht in Hf.
    destruct (transforms st !! i) as [b|] eqn:Hb; simpl in Hf; [|done].
    injection Hf as <-. simpl.
    eexists b, _, button. split; [done|]. split; [reflexivity|]. rewrite Hcl.
    destruct (refNode b) eqn:E; simpl; rewrite ?E; done.
Qed.

(** The propagation part of a turn, entry by entry. *)
Lemma setHandPose_world_entry (rt rt' : list BoneTransforms) i :
  setHandPose_world rt i = Some rt' ->
  exists b b', rt !! i = Some b /\ rt' = <[i := b']> rt /\
    local b' = local b /\ parPos b' = parPos b /\ refNode b' = refNode b /\
    forall n, refNode b = Some n -> world b' = m_worldTransform n.
Proof.
  unfold setHandPose_world. intros Hw.
  destruct (rt !! i) as [b|] eqn:Hb; simpl in Hw; [|done].
  destruct (refNode b) as [n|] eqn:Hr.
  - simplify_eq. eexists b, _. split; [done|]. split; [done|]. simpl.
    rewrite Hr. repeat split; try done. by intros ? [= <-].
  - destruct (at_index rt (parPos b)) as [parent|]; simpl in Hw; [|done].
    simplify_eq. eexists b, _. split; [done|]. split; [done|]. simpl.
    rewrite Hr. done.
Qed.

Lemma setHandPose_step_entry inp names st i st1 :
  setHandPose_step inp names st i = Some st1 ->
  exists name b b', names !! i = Some name /\ transforms st !! i = Some b /\
    transforms st1 = <[i := b']> (transforms st) /\ entry_posed inp name b b' /\
    _closedHand st1 =
      match _fingerRelations inp !! name, _handBonesButton inp !! name with
      | Some _, Some button =>
          <[name := has_button (bone_buttons inp name) button]> (_closedHand st)
      | _, _ => _closedHand st
      end.
Proof.
  unfold setHandPose_step. intros Hs.
  destruct (setHandPose_finger inp names st i) as [st2|] eqn:Hf; simpl in Hs; [|done].
  destruct (setHandPose_world (transforms st2) i) as [rt|] eqn:Hw; simpl in Hs; [|done].
  injection Hs as <-. simpl.
  destruct (names !! i) as [name|] eqn:Hname;
    [|unfold setHandPose_finger in Hf; rewrite Hname in Hf; done].
  pose proof (setHandPose_finger_entry inp names st i st2 name Hf Hname) as Hfe.
  destruct (setHandPose_world_entry _ _ _ Hw) as (b2 & b' & Hb2 & -> & Hl & Hp & Hr & Hn).
  exists name. unfold entry_posed.
  destruct (_fingerRelations inp !! name) as [rel|].
  - destruct Hfe as (b & b1 & button & Hb & Ht & Hbtn & Hcl & Hp1 & Hw1 & Hpos & Hsc & Hr1).
    rewrite Ht in Hb2. rewrite list_lookup_insert_eq in Hb2 by (by eapply lookup_lt_Some).
    injection Hb2 as <-.
    exists b, b'. split; [done|]. split; [done|].
    rewrite Ht, list_insert_insert_eq. split; [done|].
    rewrite Hbtn. split; [|done].
    split; [congruence|]. split; [intros n Hn'; apply Hn; congruence|].
    rewrite Hl. split; [done|]. split; [done|]. congruence.
  - subst st2. exists b2, b'. split; [done|]. split; [done|]. split; [done|].
    split; [|done]. split; [done|]. split; [intros n Hn'; apply Hn; congruence|]. done.
Qed.

Lemma closed_flags_cons inp a (l : list string) m :
  closed_flags inp (a :: l) m =
  closed_flags inp l
    match _fingerRelations inp !! a, _handBonesButton inp !! a with
    | Some _, Some button => <[a := has_button (bone_buttons inp a) button]> m
    | _, _ => m
    end.
Proof. reflexivity. Qed.

Lemma take_drop_S (names : list string) i n name :
  names !! i = Some name -> take (S n) (drop i names) = name :: take n (drop (S i) names).
Proof.
  intros Hi. revert i Hi. induction names as [|a names IH]; intros [|i] Hi; simplify_eq/=.
  - by rewrite drop_0.
  - by apply IH.
Qed.

(** The loop, entry by entry: the turns [i], ..., [i + n - 1] pose
    their entries and touch no other. *)
Lemma setHandPose_loop_entries inp names n : forall st i st',
  setHandPose_loop inp names st i n = Some st' ->
  length (transforms st') = length (transforms st) /\
  (forall j, ~ (i <= j < i + n) -> transforms st' !! j = transforms st !! j) /\
  (forall j, i <= j < i + n ->
     exists name b b', names !! j = Some name /\ transforms st !! j = Some b /\
       transforms st' !! j = Some b' /\ entry_posed inp name b b') /\
  _closedHand st' = closed_flags inp (take n (drop i names)) (_closedHand st).
Proof.
  induction n as [|n IH]; intros st i st' Hloop.
  - injection Hloop as <-. split; [done|]. split; [done|]. split; [intros j Hj; lia|].
    by rewrite take_0.
  - simpl in Hloop.
    destruct (setHandPose_step inp names st i) as [st1|] eqn:Hstep; simpl in Hloop; [|done].
    destruct (setHandPose_step_entry _ _ _ _ _ Hstep)
      as (name & b & b1 & Hname & Hb & Ht & Hposed & Hcl).
    destruct (IH st1 (S i) st' Hloop) as (Hlen & Hout & Hin & Hclosed).
    assert (Hi : i < length (transforms st)) by (by eapply lookup_lt_Some).
    split; [by rewrite Hlen, Ht, length_insert|]. split; [|split].
    + intros j Hj. rewrite Hout by lia. rewrite Ht.
      apply list_lookup_insert_ne. lia.
    + intros j Hj. destruct (decide (j = i)) as [->|Hne].
      * exists name, b, b1. split; [done|]. split; [done|]. split; [|done].
        rewrite Hout by lia. rewrite Ht. by apply list_lookup_insert_eq.
      * destruct (Hin j) as (name' & b' & b'' & Hn' & Hb' & Hb'' & Hp'); [lia|].
        exists name', b', b''. split; [done|]. split; [|done].
        rewrite Ht in Hb'. by rewrite list_lookup_insert_ne in Hb' by done.
    + rewrite Hclosed, (take_drop_S names i n name Hname), closed_flags_cons.
      by rewrite Hcl.
Qed.

(** X8.  What [setHandPose] leaves in the flattened tree.  A call
    that returns keeps the number of entries and the parent index of
    each.  An entry that mirrors a scene-graph node has the world
    transform of its node.  An entry whose name is not a finger bone
    keeps its local transform and its node.  A finger bone has the
    local position of the open-hand pose of its name and its old
    local scale, and its node, when it has one, has been given that
    same local transform. *)
Theorem setHandPose_entries (inp : HandInput) (names : list string) (st st' : HandState)
    (j : nat) (b' : BoneTransforms)
    (Hpose : setHandPose inp names st = Some st')
    (Hentry : transforms st' !! j = Some b') :
  length (transforms st') = length (transforms st) /\
  exists name b, names !! j = Some name /\ transforms st !! j = Some b /\
    parPos b' = parPos b /\
    (forall n, refNode b' = Some n -> world b' = m_worldTransform n) /\
    match _fingerRelations inp !! name with
    | None => local b' = local b /\ refNode b' = refNode b
    | Some _ =>
        pos (local b') = pos (map_index NiTransform_new (handOpen inp) name) /\
        scale (local b') = scale (local b) /\
        refNode b' = (fun n => set_local n (local b')) <$> refNode b
    end.
Proof.
  destruct (setHandPose_loop_entries inp names _ st 0 st' Hpose) as (Hlen & _ & Hin & _).
  split; [done|].
  destruct (Hin j) as (name & b & b'' & Hname & Hb & Hb'' & Hposed).
  { apply lookup_lt_Some in Hentry. lia. }
  rewrite Hentry in Hb''. injection Hb'' as <-.
  exists name, b. split; [done|]. split; [done|]. exact Hposed.
Qed.

Lemma closed_flags_lookup inp (l : list string) : forall m name,
  closed_flags inp l m !! name =
  match _fingerRelations inp !! name, _handBonesButton inp !! name with
  | Some _, Some button =>
      if bool_decide (name ∈ l) then Some (has_button (bone_buttons inp name) button)
      else m !! name
  | _, _ => m !! name
  end.
Proof.
  induction l as [|a l IH]; intros m name.
  - simpl. by repeat case_match.
  - rewrite closed_flags_cons, IH.
    destruct (decide (name = a)) as [->|Hne].
    + rewrite (bool_decide_eq_true_2 (a ∈ a :: l)) by apply list_elem_of_here.
      destruct (_fingerRelations inp !! a), (_handBonesButton inp !! a); try done.
      case_bool_decide; [done|]. by rewrite lookup_insert_eq.
    + assert (Hiff : bool_decide (name ∈ a :: l) = bool_decide (name ∈ l)).
      { apply bool_decide_ext. rewrite elem_of_cons. split; [intros [?|?]; done|auto]. }
      rewrite Hiff.
      destruct (_fingerRelations inp !! name), (_handBonesButton inp !! name); try done;
        destruct (_fingerRelations inp !! a), (_handBonesButton inp !! a); try done;
        rewrite ?lookup_insert_ne by done; done.
Qed.

(** X9.  The closed-hand flags after [setHandPose].  For every finger
    bone among the names of the tree the flag says whether the button
    that the table gives for the bone is touched on the controller of
    the bone's side (left for a name that starts with L, right
    otherwise); the flag of any other name is as before. *)
Theorem setHandPose_closed_hand (inp : HandInput) (names : list string) (st st' : HandState)
    (name : string)
    (Hpose : setHandPose inp names st = Some st') :
  _closedHand st' !! name =
  match _fingerRelations inp !! name, _handBonesButton inp !! name with
  | Some _, Some button =>
      if bool_decide (name ∈ take (length (transforms st)) names)
      then Some (has_button (if bone_is_left name then leftButtonTouched inp
                             else rightButtonTouched inp) button)
      else _closedHand st !! name
  | _, _ => _closedHand st !! name
  end.
Proof.
  destruct (setHandPose_loop_entries inp names _ st 0 st' Hpose) as (_ & _ & _ & Hcl).
  rewrite Hcl, drop_0. apply closed_flags_lookup.
Qed.

End HandPose.

(** ** More on the flattened tree *)

Section TreeFrame.
Context `{Scalar} `{!Helpers}.
Local Open Scope fl_scope.

(** X10.  [rotateLeg] rewrites one entry.  A call that returns keeps
    the number of entries and every entry but the one at [pos], the
    entries of the bones below it included: their world transforms
    are not recomputed here.  Of the entry at [pos] it keeps the
    parent index, the node, the local position and scale and the
    world scale. *)
Theorem rotateLeg_frame (rt rt' : list BoneTransforms) (i : nat) (angle : num)
    (Hrot : rotateLeg rt i angle = Some rt') :
  length rt' = length rt /\
  (forall j, j <> i -> rt' !! j = rt !! j) /\
  exists b b', rt !! i = Some b /\ rt' !! i = Some b' /\
    parPos b' = parPos b /\ refNode b' = refNode b /\
    pos (local b') = pos (local b) /\ scale (local b') = scale (local b) /\
    scale (world b') = scale (world b).
Proof.
  revert Hrot. unfold rotateLeg.
  destruct (rt !! i) as [b|] eqn:Hb; simpl; [|done].
  destruct (at_index _ _) as [parent|]; simpl; [|done].
  intros [= <-].
  assert (Hi : i < length rt) by (by eapply lookup_lt_Some).
  split; [by rewrite !length_insert|]. split.
  - intros j Hj. by rewrite !list_lookup_insert_ne.
  - eexists b, _. split; [done|].
    rewrite list_lookup_insert_eq by (by rewrite length_insert). done.
Qed.

End TreeFrame.

(** ** The finger tables *)

Section FingerTables.

Lemma map_insert_new_is_Some {V} (k : string) (v : V) (m : gmap string V) (k' : string) :
  is_Some (map_insert_new k v m !! k') <-> k' = k \/ is_Some (m !! k').
Proof.
  unfold map_insert_new. destruct (m !! k) as [w|] eqn:Hk.
  - split; [auto|]. intros [->|Hs]; [by rewrite Hk|done].
  - rewrite lookup_insert_is_Some. split.
    + intros [->|[_ Hs]]; auto.
    + intros [->|Hs]; [by left|]. destruct (decide (k = k')) as [->|Hne]; auto.
Qed.

Lemma addFingerRelations_is_Some hand f1 f2 f3 map (k : string) :
  is_Some (addFingerRelations hand f1 f2 f3 map !! k)
  <-> k = f1 \/ k = f2 \/ k = f3 \/ is_Some (map !! k).
Proof.
  unfold addFingerRelations. cbv zeta. rewrite !map_insert_new_is_Some. tauto.
Qed.

Lemma list_to_map_is_Some {V} (l : list (string * V)) (k : string) :
  is_Some ((list_to_map l : gmap string V) !! k) <-> In k l.*1.
Proof.
  by rewrite <- elem_of_dom, dom_list_to_map_L, elem_of_list_to_set, list_elem_of_In.
Qed.

Ltac pick_disjunct := repeat (first [left; reflexivity | right]); done.

Ltac pick_finger :=
  repeat (apply addFingerRelations_is_Some;
          first [left; reflexivity | right; left; reflexivity
                | right; right; left; reflexivity | right; right; right]).

(** X11.  The two finger tables name the same thirty bones: every
    bone of [makeFingerRelations] has a button in
    [getHandBonesButtonMap], and the other way round.  So the
    [_handBonesButton.at(name)] of [setHandPose] and of
    [calculateHandPose], which is reached for bones of the first
    table only, does not throw. *)
Theorem finger_tables_agree (name : string) :
  is_Some (makeFingerRelations !! name) <-> is_Some (getHandBonesButtonMap !! name).
Proof.
  unfold getHandBonesButtonMap. rewrite list_to_map_is_Some.
  unfold makeFingerRelations. cbv zeta. split.
  - intros Hd. unfold handBonesButtons. cbn [fmap list_fmap fst In].
    do 10 (apply addFingerRelations_is_Some in Hd;
           destruct Hd as [->|[->|[->|Hd]]]; [pick_disjunct..|]).
    rewrite lookup_empty in Hd. by destruct Hd.
  - unfold handBonesButtons. cbn [fmap list_fmap fst In]. intros Hd.
    repeat (destruct Hd as [<-|Hd]; [pick_finger|]). destruct Hd.
Qed.

(** X12.  Among the finger bones, the test [bone.find("Finger1")] of
    the thumbs-up pose in [calculateHandPose] picks the bones whose
    button is the touchpad, the three bones of each thumb, and no
    other. *)
Theorem thumb_bones_follow_touchpad (name : string) (button : Z)
    (Hbutton : getHandBonesButtonMap !! name = Some button) :
  contains name "Finger1" = true <-> button = k_EButton_SteamVR_Touchpad.
Proof.
  apply elem_of_list_to_map_2 in Hbutton. apply list_elem_of_In in Hbutton.
  unfold handBonesButtons in Hbutton. simpl In in Hbutton.
  repeat (destruct Hbutton as [Hbutton|Hbutton];
          [injection Hbutton as <- <-; vm_compute; split; intros; congruence|]).
  destruct Hbutton.
Qed.

End FingerTables.

(** ** Bones by name *)

Section BoneTreeMapProperties.
Context `{Scalar} `{!Helpers}.

Lemma map_insert_new_lookup {V} (k : string) (v : V) (m : gmap string V) (k' : string) :
  map_insert_new k v m !! k' =
  match m !! k' with
  | Some w => Some w
  | None => if decide (k' = k) then Some v else None
  end.
Proof.
  unfold map_insert_new. destruct (m !! k) as [w|] eqn:Hk.
  - destruct (m !! k') as [w'|] eqn:Hk'; [done|].
    destruct (decide (k' = k)) as [->|]; [congruence|done].
  - destruct (decide (k' = k)) as [->|Hne].
    + by rewrite lookup_insert_eq, Hk.
    + rewrite lookup_insert_ne by done. by destruct (m !! k').
Qed.

Lemma initBoneTreeMap_loop_spec (names : list string) : forall i m v name,
  (initBoneTreeMap_loop names i m v).2 = v ++ names /\
  (initBoneTreeMap_loop names i m v).1 !! name =
  match m !! name with
  | Some k => Some k
  | None => (fun p => (i + Z.of_nat p.1)%Z) <$> list_find (fun n => n = name) names
  end.
Proof.
  induction names as [|a names IH]; intros i m v name; simpl.
  - split; [by rewrite app_nil_r|]. by destruct (m !! name).
  - destruct (IH (i + 1)%Z (map_insert_new a i m) (v ++ [a]) name) as [Hv Hm].
    split; [by rewrite Hv, <- app_assoc|].
    rewrite Hm, map_insert_new_lookup.
    destruct (m !! name) as [k|]; [done|].
    destruct (decide (name = a)) as [->|Hne].
    + rewrite decide_True by done. simpl. f_equal. lia.
    + rewrite decide_False by done.
      destruct (list_find _ names) as [[p n]|]; simpl; [|done]. f_equal. lia.
Qed.

(** What [initBoneTreeMap] builds: the vector of the names, and the
    map from a name to the first position that carries it. *)
Lemma initBoneTreeMap_lookup (names : list string) (name : string) :
  (initBoneTreeMap names).2 = names /\
  (initBoneTreeMap names).1 !! name
  = (fun p => Z.of_nat p.1) <$> list_find (fun n => n = name) names.
Proof.
  unfold initBoneTreeMap.
  destruct (initBoneTreeMap_loop_spec names 0 ∅ [] name) as [Hv Hm].
  rewrite lookup_empty in Hm. simpl in Hv. split; [done|].
  rewrite Hm. by destruct (list_find _ names).
Qed.

(** X13.  [initBoneTreeMap] keeps the names of the entries in their
    order in [_boneTreeVec], one per entry, and maps each name to the
    first position that carries it; a later entry with the same name
    is in the vector and not in the map.  For a name that occurs once
    the two lookups are inverse to each other. *)
Theorem initBoneTreeMap_round_trip (names : list string) (name : string) :
  let _boneTreeMap := (initBoneTreeMap names).1 in
  let _boneTreeVec := (initBoneTreeMap names).2 in
  _boneTreeVec = names /\
  _boneTreeMap !! name = (fun p => Z.of_nat p.1) <$> list_find (fun n => n = name) names /\
  (forall i, _boneTreeMap !! name = Some i ->
     (0 <= i)%Z /\ _boneTreeVec !! Z.to_nat i = Some name) /\
  (forall i, NoDup names -> _boneTreeVec !! i = Some name ->
     _boneTreeMap !! name = Some (Z.of_nat i)).
Proof.
  intros m v. unfold m, v.
  destruct (initBoneTreeMap_lookup names name) as [Hv Hm].
  split; [done|]. split; [done|]. rewrite Hv, Hm. split.
  - intros i Hi.
    destruct (list_find _ names) as [[p n]|] eqn:Hfind; simplify_eq/=.
    apply list_find_Some in Hfind as (Hp & -> & _).
    split; [lia|]. by rewrite Nat2Z.id.
  - intros i Hnodup Hi.
    destruct (list_find (fun n => n = name) names) as [[p n]|] eqn:Hfind; simpl.
    + apply list_find_Some in Hfind as (Hp & -> & _).
      by rewrite (NoDup_lookup names i p name Hnodup Hi Hp).
    + apply list_find_None in Hfind. exfalso.
      eapply Forall_lookup_1 in Hfind; [|done]. done.
Qed.

(** X14.  [getBoneWorldTransform] after [initBoneTreeMap], on a tree
    with as many entries as names.  For the name of an entry it
    returns the world transform of the first entry with that name and
    leaves the map alone.  For a name that no entry has it does not
    fail: [_boneTreeMap[boneName]] stores position 0 for the name,
    and the result is the world transform of the first entry of the
    tree. *)
Theorem getBoneWorldTransform_after_init (rt : list BoneTransforms) (names : list string)
    (boneName : string) (Hlen : length names = length rt) :
  let _boneTreeMap := (initBoneTreeMap names).1 in
  let r := getBoneWorldTransform rt _boneTreeMap boneName in
  match list_find (fun n => n = boneName) names with
  | Some (i, _) => r = (world <$> rt !! i, _boneTreeMap) /\ is_Some (rt !! i)
  | None => r = (world <$> rt !! 0, <[boneName := 0%Z]> _boneTreeMap)
  end.
Proof.
  intros m r.
  destruct (initBoneTreeMap_lookup names boneName) as [_ Hm]. fold m in Hm.
  unfold r, getBoneWorldTransform, map_index. cbv zeta.
  rewrite map_insert_new_lookup. unfold map_insert_new. rewrite Hm.
  destruct (list_find _ names) as [[i n]|] eqn:Hfind; simpl.
  - apply list_find_Some in Hfind as (Hi & _).
    unfold at_index. destruct (Z.leb_spec 0 (Z.of_nat i)); [|lia].
    rewrite Nat2Z.id. split; [done|].
    apply lookup_lt_is_Some. rewrite <- Hlen. by eapply lookup_lt_Some.
  - rewrite decide_True by done. done.
Qed.

End BoneTreeMapProperties.

(** ** The default pose of the skeleton *)

Section DefaultsProperties.
Context `{Scalar}.

(** X15.  The initializer lists of the two tables of default
    transforms, outside and inside power armor, name the same 26
    bones in the same order and each bone once, whatever
    [getTransform] makes of the numbers: no row is lost as a second
    row of its key, and the two maps have the same 26 keys. *)
Theorem default_tables_bones
    (getTransform : num -> num -> num -> num -> num -> num -> num -> num -> num -> num
                    -> num -> num -> num -> NiTransform) :
  (getSkeletonNodesDefaultTransforms getTransform).*1
  = (getSkeletonNodesDefaultTransformsInPA getTransform).*1 /\
  NoDup (getSkeletonNodesDefaultTransforms getTransform).*1 /\
  length (getSkeletonNodesDefaultTransforms getTransform) = 26.
Proof.
  split; [reflexivity|]. split; [|reflexivity].
  unfold getSkeletonNodesDefaultTransforms. cbn [fmap list_fmap fst].
  apply (bool_decide_unpack _). vm_compute. exact I.
Qed.

Lemma restoreNodesToDefault_cons (name : string) t l (nodes : gmap string NiNode) :
  restoreNodesToDefault ((name, t) :: l) nodes
  = restoreNodesToDefault l (alter (fun node => set_local node t) name nodes).
Proof. reflexivity. Qed.

Lemma restoreNodesToDefault_lookup (l : list (string * NiTransform)) :
  forall (nodes : gmap string NiNode) (name : string),
  NoDup l.*1 ->
  restoreNodesToDefault l nodes !! name =
  match (list_to_map l : gmap string NiTransform) !! name with
  | Some t => (fun node => set_local node t) <$> nodes !! name
  | None => nodes !! name
  end.
Proof.
  induction l as [|[a t] l IH]; intros nodes name Hnd.
  - simpl. by rewrite lookup_empty.
  - rewrite fmap_cons in Hnd. apply NoDup_cons in Hnd as [Ha Hnd].
    rewrite restoreNodesToDefault_cons, IH, list_to_map_cons by done.
    destruct (decide (name = a)) as [->|Hne].
    + rewrite lookup_insert_eq, (not_elem_of_list_to_map_1 _ a) by done.
      by rewrite lookup_alter_eq.
    + rewrite lookup_insert_ne, lookup_alter_ne by done. done.
Qed.

(** X16.  [restoreNodesToDefault], for a list that names each node
    once.  A node of the list gets the local transform kept for it
    and keeps its world transform; a node that is not in the list is
    left alone; and restoring twice is the same as restoring once. *)
Theorem restoreNodesToDefault_spec (l : list (string * NiTransform))
    (nodes : gmap string NiNode) (Hnames : NoDup l.*1) :
  (forall name t node, (name, t) ∈ l -> nodes !! name = Some node ->
     restoreNodesToDefault l nodes !! name = Some (mkNode t (m_worldTransform node))) /\
  (forall name, name ∉ l.*1 -> restoreNodesToDefault l nodes !! name = nodes !! name) /\
  (forall name, is_Some (restoreNodesToDefault l nodes !! name) <-> is_Some (nodes !! name)) /\
  restoreNodesToDefault l (restoreNodesToDefault l nodes) = restoreNodesToDefault l nodes.
Proof.
  split; [|split; [|split]].
  - intros name t node Hin Hnode. rewrite restoreNodesToDefault_lookup by done.
    rewrite (elem_of_list_to_map_1 l name t Hnames Hin), Hnode. done.
  - intros name Hout. rewrite restoreNodesToDefault_lookup by done.
    by rewrite (not_elem_of_list_to_map_1 _ name).
  - intros name. rewrite restoreNodesToDefault_lookup by done.
    destruct (list_to_map l !! name); [|done]. by rewrite fmap_is_Some.
  - apply map_eq. intros name. rewrite !restoreNodesToDefault_lookup by done.
    destruct (list_to_map l !! name) as [t|]; [|done].
    by destruct (nodes !! name).
Qed.

(** The transform that [initSkeletonNodesDefaults] keeps for a bone. *)
Lemma kept_default_cons nodes0 a d (table : list (string * NiTransform)) :
  omap (kept_default nodes0) ((a, d) :: table) =
  match nodes0 !! a with
  | Some node => (a, mkTransform (rot d) (pos d) (scale (m_localTransform node)))
                 :: omap (kept_default nodes0) table
  | None => omap (kept_default nodes0) table
  end.
Proof.
  change (omap (kept_default nodes0) ((a, d) :: table))
    with (match kept_default nodes0 (a, d) with
          | Some y => y :: omap (kept_default nodes0) table
          | None => omap (kept_default nodes0) table
          end).
  unfold kept_default. simpl. by destruct (nodes0 !! a).
Qed.

Lemma initSkeletonNodesDefaults_app (table : list (string * NiTransform))
    (nodes0 : gmap string NiNode) : forall acc,
  initSkeletonNodesDefaults table nodes0 acc =
  acc ++ omap (kept_default nodes0) table.
Proof.
  induction table as [|[name d] table IH]; intros acc.
  - unfold initSkeletonNodesDefaults. simpl. by rewrite app_nil_r.
  - rewrite kept_default_cons.
    change (initSkeletonNodesDefaults ((name, d) :: table) nodes0 acc)
      with (initSkeletonNodesDefaults table nodes0
              match nodes0 !! name with
              | Some node =>
                  acc ++ [(name, set_rot (set_pos (m_localTransform node) (pos d)) (rot d))]
              | None => acc
              end).
    rewrite IH. destruct (nodes0 !! name) as [node|]; [|done].
    by rewrite <- app_assoc.
Qed.

Lemma kept_default_names nodes0 (table : list (string * NiTransform)) :
  (omap (kept_default nodes0) table).*1 `sublist_of` table.*1.
Proof.
  induction table as [|[a d] table IH]; [done|].
  rewrite kept_default_cons. destruct (nodes0 !! a); simpl.
  - by apply sublist_skip.
  - by apply sublist_cons.
Qed.

Lemma kept_default_lookup nodes0 (table : list (string * NiTransform)) (name : string) :
  NoDup table.*1 ->
  (list_to_map (omap (kept_default nodes0) table) : gmap string NiTransform) !! name =
  match (list_to_map table : gmap string NiTransform) !! name, nodes0 !! name with
  | Some d, Some node0 => Some (mkTransform (rot d) (pos d) (scale (m_localTransform node0)))
  | _, _ => None
  end.
Proof.
  induction table as [|[a d] table IH]; intros Hnd.
  - simpl. by rewrite !lookup_empty.
  - rewrite fmap_cons in Hnd. apply NoDup_cons in Hnd as [Ha Hnd]. specialize (IH Hnd).
    rewrite kept_default_cons, list_to_map_cons.
    destruct (decide (name = a)) as [->|Hne].
    + rewrite lookup_insert_eq.
      rewrite (not_elem_of_list_to_map_1 table a Ha) in IH.
      destruct (nodes0 !! a) as [node0|]; [|exact IH].
      by rewrite list_to_map_cons, lookup_insert_eq.
    + rewrite lookup_insert_ne by done. destruct (nodes0 !! a); [|exact IH].
      rewrite list_to_map_cons, lookup_insert_ne by done. exact IH.
Qed.

(** X17.  Saving the defaults and restoring them.  Let the table name
    each bone once, in whatever order the map is gone through, and
    let [initSkeletonNodesDefaults] run on a skeleton [nodes0],
    starting from an empty list.  Restoring any
    later state [nodes] of the skeleton gives every bone of the table
    that [nodes0] has the position and rotation of the table and the
    local scale it had in [nodes0], and leaves its world transform
    alone.  A bone that the table or [nodes0] does not have is left as
    it is. *)
Theorem restore_after_init (table : list (string * NiTransform))
    (nodes0 nodes : gmap string NiNode) (name : string)
    (Htable : NoDup table.*1) :
  let saved := initSkeletonNodesDefaults table nodes0 [] in
  restoreNodesToDefault saved nodes !! name =
  match (list_to_map table : gmap string NiTransform) !! name, nodes0 !! name with
  | Some d, Some node0 =>
      (fun node => mkNode (mkTransform (rot d) (pos d) (scale (m_localTransform node0)))
                          (m_worldTransform node)) <$> nodes !! name
  | _, _ => nodes !! name
  end.
Proof.
  intros saved. unfold saved. rewrite initSkeletonNodesDefaults_app. simpl app.
  fold (kept_default nodes0).
  assert (Hnd : NoDup (omap (kept_default nodes0) table).*1)
    by (eapply sublist_NoDup; [done|apply kept_default_names]).
  rewrite restoreNodesToDefault_lookup, kept_default_lookup by done.
  destruct (list_to_map table !! name) as [d|]; [|done].
  destruct (nodes0 !! name); done.
Qed.

End DefaultsProperties.

(** ** More in exact arithmetic *)

Section ExactWalkAndLegs.
Local Open Scope R_scope.
Import XR.

Lemma XR_lit_Q (q : Q) : lit (Scalar := XR.scalar) q = Fin (Q2R q).
Proof. reflexivity. Qed.

(** X18.  The feet at the start of [walk], in exact arithmetic and
    for finite positions.  Outside power armor the two feet are moved
    towards each other, to 0.4 of their distance; in power armor the
    factor -0.15 moves them apart, to 1.3 of their distance.  The
    point midway between the feet stays where it is. *)
Theorem walk_feet_distance (inp : @WalkInput XR.scalar) (lFoot rFoot : @NiNode XR.scalar)
    (l1 l2 l3 r1 r2 r3 : R)
    (Hleft : foot_pos lFoot = real_point l1 l2 l3)
    (Hright : foot_pos rFoot = real_point r1 r2 r3) :
  let lF := fst (walk_feet inp lFoot rFoot) in
  let rF := snd (walk_feet inp lFoot rFoot) in
  let k := if _inPowerArmor inp then 13 / 10 else 4 / 10 in
  foot_pos rF -v foot_pos lF = real_point (k * (r1 - l1)) (k * (r2 - l2)) (k * (r3 - l3)) /\
  foot_pos lF +v foot_pos rF = real_point (l1 + r1) (l2 + r2) (l3 + r3).
Proof.
  intros lF rF k. unfold lF, rF, k, walk_feet.
  rewrite Hleft, Hright. unfold foot_pos, move_world_pos, real_point. cbn.
  destruct (_inPowerArmor inp); unfold vadd, vsub, vscale, XR.of_Q, Q2R; cbn;
    split; f_equal; f_equal; lra.
Qed.

(** The stretch of the two segments, for a target out of reach. *)
Lemma XR_stretch (a b c : R) :
  0 < a -> 0 < b -> a + b < c ->
  let r := b / (b + a) in
  let a' := a + ((1 - r) * (c - a - b) + 1 / 10) in
  let b' := b + (r * (c - a - b) + 1 / 10) in
  leg_stretch (H := XR.scalar) (Fin a) (Fin b) (Fin c) = (Fin a', Fin b') /\
  a' + b' = c + 1 / 5 /\ a < a' /\ b < b' /\
  -1 <= (b' * b' + c * c - a' * a') / (2 * b' * c) <= 1.
Proof.
  intros Ha Hb Hfar r a' b'.
  assert (Hr0 : 0 < r) by (unfold r; apply Rdiv_lt_0_compat; lra).
  assert (Hr1 : 0 < 1 - r).
  { unfold r. replace (1 - b / (b + a)) with (a / (b + a)) by (field; lra).
    apply Rdiv_lt_0_compat; lra. }
  assert (Hsum : a' + b' = c + 1 / 5) by (unfold a', b'; lra).
  split; [|split; [done|split; [unfold a'; nra|split; [unfold b'; nra|]]]].
  - unfold leg_stretch. cbn -[XR.lt XR.div XR.of_Q].
    rewrite (proj2 (XR_lt_Fin (a + b) c) Hfar).
    rewrite XR_lit_tenth, XR_lit_1, XR_div_Fin by lra. cbn. done.
  - apply stretched_cosine; [lra|done|unfold a'; nra|unfold b'; nra].
Qed.

(** X19.  A target out of reach, in exact arithmetic and for positive
    lengths.  When the foot is further from the hip than thigh and
    calf together, the solve of [setSingleLeg] lengthens both
    segments, each in proportion to its bind length and by 0.1 more,
    so that together they are 0.2 longer than the distance; the
    angle at the foot is then the arc cosine of the law of cosines
    for these lengths, and the fallback to two equal segments is not
    taken.  The same holds for the solve of [setArms], with the bind
    lengths scaled by the configured arm length. *)
Theorem stretched_solve (thigh calf ftLen upper0 forearm0 adj hsLen : R)
    (Hthigh : 0 < thigh) (Hcalf : 0 < calf) (Hleg : thigh + calf < ftLen)
    (Hupper : 0 < upper0) (Hforearm : 0 < forearm0) (Hadj : 0 < adj)
    (Harm : upper0 * adj + forearm0 * adj < hsLen) :
  (let r := calf / (calf + thigh) in
   let thigh' := thigh + ((1 - r) * (ftLen - thigh - calf) + 1 / 10) in
   let calf' := calf + (r * (ftLen - thigh - calf) + 1 / 10) in
   let arg := (calf' * calf' + ftLen * ftLen - thigh' * thigh') / (2 * calf' * ftLen) in
   thigh' + calf' = ftLen + 1 / 5 /\ thigh < thigh' /\ calf < calf' /\ -1 <= arg <= 1 /\
   leg_solve (H := XR.scalar) (Fin thigh) (Fin calf) (Fin ftLen)
   = (Fin thigh', Fin calf', Fin (Ratan.acos arg))) /\
  (let upper := upper0 * adj in
   let forearm := forearm0 * adj in
   let r := forearm / (forearm + upper) in
   let upper' := upper + ((1 - r) * (hsLen - upper - forearm) + 1 / 10) in
   let forearm' := forearm + (r * (hsLen - upper - forearm) + 1 / 10) in
   let arg := (forearm' * forearm' + hsLen * hsLen - upper' * upper')
              / (2 * forearm' * hsLen) in
   upper' + forearm' = hsLen + 1 / 5 /\ upper < upper' /\ forearm < forearm' /\
   -1 <= arg <= 1 /\
   arm_solve (H := XR.scalar) (Fin upper0) (Fin forearm0) (Fin adj) (Fin hsLen)
   = (Fin upper', Fin forearm', Fin (Ratan.acos arg))).
Proof.
  split.
  - intros r thigh' calf' arg.
    destruct (XR_stretch thigh calf ftLen Hthigh Hcalf Hleg) as (Hs & Hsum & Ht & Hc & Harg).
    fold r thigh' calf' in Hs, Hsum, Ht, Hc, Harg. fold arg in Harg.
    split; [done|]. split; [done|]. split; [done|]. split; [done|].
    rewrite (leg_solve_eq (H := XR.scalar) (Fin thigh) (Fin calf) (Fin ftLen)). cbv zeta.
    rewrite Hs. cbn [fst snd].
    rewrite XR_cosine_law by lra. fold arg. rewrite XR_on_unit_Fin by done.
    reflexivity.
  - intros upper forearm r upper' forearm' arg.
    assert (Hu : 0 < upper) by (unfold upper; nra).
    assert (Hf : 0 < forearm) by (unfold forearm; nra).
    assert (Hh : 0 < hsLen) by (change (upper + forearm < hsLen) in Harm; lra).
    destruct (XR_stretch upper forearm hsLen Hu Hf Harm) as (Hs & Hsum & Ht & Hc & Harg).
    fold r upper' forearm' in Hs, Hsum, Ht, Hc, Harg. fold arg in Harg.
    split; [done|]. split; [done|]. split; [done|]. split; [done|].
    rewrite (arm_solve_eq (H := XR.scalar) (Fin upper0) (Fin forearm0) (Fin adj) (Fin hsLen)).
    cbv zeta.
    change (fmul (Scalar := XR.scalar) (Fin upper0) (Fin adj)) with (Fin upper).
    change (fmul (Scalar := XR.scalar) (Fin forearm0) (Fin adj)) with (Fin forearm).
    change (arm_stretch (H := XR.scalar) (Fin upper) (Fin forearm) (Fin hsLen))
      with (leg_stretch (H := XR.scalar) (Fin upper) (Fin forearm) (Fin hsLen)).
    rewrite Hs. cbn [fst snd].
    rewrite XR_cosine_law by lra. fold arg. rewrite XR_on_unit_Fin by done.
    reflexivity.
Qed.

(** One attenuation of the weight: a weight between 0 and 1 from
    which a positive amount is taken, with 0 as the floor. *)
Lemma XR_attenuate (w d : R) :
  0 <= w <= 1 -> 0 <= d ->
  exists w', std_max (H := XR.scalar) (XR.sub (Fin w) (Fin d)) (XR.of_Q 0) = Fin w'
             /\ 0 <= w' <= 1.
Proof.
  intros Hw Hd. unfold std_max. cbn. unfold Q2R. cbn.
  destruct (Rlt_dec _ _); eexists; (split; [reflexivity|]); lra.
Qed.

(** X20.  The weight of [getNeckYaw], in exact arithmetic and for
    finite positions and a finite rotation of the headset: the two
    attenuations (a hand above the head, the hands crossed) leave a
    number between 0 and 1. *)
Theorem neckYaw_weight_range (pn : @PlayerNodes XR.scalar)
    (h1 h2 h3 l1 l2 l3 r1 r2 r3 m00 m01 m02 m10 m11 m12 m20 m21 m22 : R)
    (Hhead : pos (m_worldTransform (UprightHmdNode pn)) = real_point h1 h2 h3)
    (Hleft : pos (m_worldTransform (SecondaryWandNode pn)) = real_point l1 l2 l3)
    (Hright : pos (m_worldTransform (primaryWandNode pn)) = real_point r1 r2 r3)
    (Hrot : rot (m_worldTransform (HmdNode pn))
            = mkMatrix (real_point m00 m01 m02) (real_point m10 m11 m12)
                       (real_point m20 m21 m22)) :
  exists w, neckYaw_weight pn = Fin w /\ 0 <= w <= 1.
Proof.
  unfold neckYaw_weight, neckYaw_hmdToLeft, neckYaw_hmdToRight.
  rewrite Hhead, Hleft, Hright, Hrot. unfold real_point. cbv zeta.
  cbn [x y z vsub fsub XR.scalar XR.sub XR.add XR.opp Transpose mat_vec row_dot row0 row1 row2
       fmul fadd XR.mul].
  set (xl := m00 * (l1 + - h1) + m10 * (l2 + - h2) + m20 * (l3 + - h3)).
  set (xr := m00 * (r1 + - h1) + m10 * (r2 + - h2) + m20 * (r3 + - h3)).
  change (@lit XR.scalar) with XR.of_Q.
  change (XR.of_Q 1) with (Fin (Q2R 1)).
  assert (H1 : 0 <= Q2R 1 <= 1) by (unfold Q2R; simpl; lra).
  (* the left hand above the head *)
  assert (Hw1 : exists w1,
            (if XR.lt (XR.of_Q 0) (Fin (l3 + - h3))
             then std_max (H := XR.scalar)
                    (XR.sub (Fin (Q2R 1)) (XR.mul (XR.of_Q 0.05) (Fin (l3 + - h3))))
                    (XR.of_Q 0)
             else Fin (Q2R 1)) = Fin w1 /\ 0 <= w1 <= 1).
  { destruct (XR.lt (XR.of_Q 0) (Fin (l3 + - h3))) eqn:Hup; [|eauto].
    apply XR_lt_Fin in Hup. apply XR_attenuate; [done|].
    unfold Q2R in *. simpl in *. lra. }
  destruct Hw1 as (w1 & Hw1 & Hr1).
  change (fsub (Scalar := XR.scalar)) with XR.sub.
  change (fmul (Scalar := XR.scalar)) with XR.mul.
  change (flt (Scalar := XR.scalar)) with XR.lt.
  change (fadd (Scalar := XR.scalar)) with XR.add.
  rewrite Hw1.
  (* the right hand above the head *)
  assert (Hw2 : exists w2,
            (if XR.lt (XR.of_Q 0) (Fin (r3 + - h3))
             then std_max (H := XR.scalar)
                    (XR.sub (Fin w1) (XR.mul (XR.of_Q 0.05) (Fin (r3 + - h3))))
                    (XR.of_Q 0)
             else Fin w1) = Fin w2 /\ 0 <= w2 <= 1).
  { destruct (XR.lt (XR.of_Q 0) (Fin (r3 + - h3))) eqn:Hup; [|eauto].
    apply XR_lt_Fin in Hup. apply XR_attenuate; [done|].
    unfold Q2R in *. simpl in *. lra. }
  destruct Hw2 as (w2 & Hw2 & Hr2). rewrite Hw2.
  (* the hands crossed *)
  destruct (XR.lt (Fin xr) (Fin xl)) eqn:Hcross; [|eauto].
  apply XR_lt_Fin in Hcross.
  destruct (XR_attenuate w2 (Q2R 0.02 * (xl - xr))) as (w3 & Hw3 & Hr3); [done| |].
  { unfold Q2R. simpl. lra. }
  exists w3. split; [|done]. rewrite <- Hw3.
  change (XR.add (Fin w2) (XR.mul (XR.of_Q 0.02) (Fin (xr + - xl))))
    with (Fin (w2 + Q2R 0.02 * (xr + - xl))).
  change (XR.sub (Fin w2) (Fin (Q2R 0.02 * (xl - xr))))
    with (Fin (w2 + - (Q2R 0.02 * (xl - xr)))).
  replace (w2 + Q2R 0.02 * (xr + - xl)) with (w2 + - (Q2R 0.02 * (xl - xr))) by lra.
  reflexivity.
Qed.

End ExactWalkAndLegs.

(** ** Showing and hiding *)

Section VisibilityProperties.
Context `{Scalar}.

Lemma cull_cull (node : NiAVObject) : cull (cull node) = cull node.
Proof.
  unfold cull. simpl. f_equal. rewrite <- Z.lor_assoc. reflexivity.
Qed.

Lemma cull_bits (node : NiAVObject) (i : Z) :
  Z.testbit (flags (cull node)) i = (Z.testbit (flags node) i || (i =? 0)%Z).
Proof.
  unfold cull. simpl. rewrite Z.lor_spec. by f_equal.
Qed.

Lemma cull_named_lookup name (base : gmap string NiAVObject) name' :
  cull_named name base !! name' =
  (if decide (name' = name) then cull else fun node => node) <$> base !! name'.
Proof.
  unfold cull_named. destruct (decide (name' = name)) as [->|Hne].
  - by rewrite lookup_alter_eq.
  - rewrite lookup_alter_ne by done. by destruct (base !! name').
Qed.

Lemma cull_three a b c (base : gmap string NiAVObject) name :
  cull_named c (cull_named b (cull_named a base)) !! name =
  (if bool_decide (name = a) || bool_decide (name = b) || bool_decide (name = c)
   then cull else fun node => node) <$> base !! name.
Proof.
  rewrite !cull_named_lookup.
  destruct (base !! name) as [node|]; simpl; [|done].
  repeat case_decide; repeat case_bool_decide; simpl; try done;
    rewrite ?cull_cull; done.
Qed.

Lemma hideFistHelpers_lookup (isLeftHandedMode : bool)
    (primary secondary : gmap string NiAVObject) (name : string) :
  (hideFistHelpers isLeftHandedMode primary secondary).1 !! name
  = (if is_fist_helper (negb isLeftHandedMode) name then cull else fun node => node)
    <$> primary !! name /\
  (hideFistHelpers isLeftHandedMode primary secondary).2 !! name
  = (fun node =>
       let node := if is_fist_helper isLeftHandedMode name then cull node else node in
       if bool_decide (name = "Point002") then mkObject (flags node) (lit 0) else node)
    <$> secondary !! name.
Proof.
  unfold hideFistHelpers, is_fist_helper.
  destruct isLeftHandedMode; cbn [negb fst snd]; (split; [apply cull_three|]).
  all: destruct (decide (name = "Point002")) as [->|Hne];
    [rewrite lookup_alter_eq, cull_three, <- option_fmap_compose; reflexivity
    |rewrite lookup_alter_ne, cull_three by done;
     rewrite (bool_decide_eq_false_2 (name = "Point002")) by done;
     by destruct (secondary !! name); repeat case_match].
Qed.

(** X21.  [hideFistHelpers] on the objects under the two wand nodes.
    It adds and removes nothing.  Of an object it changes at most the
    first bit of [flags], which it sets for the fist helpers: the
    right-hand ones under the primary wand and the left-hand ones
    under the secondary wand, the other way round for a left-handed
    player.  The local scale is kept, except that of [Point002] under
    the secondary wand, which becomes 0.  Calling it again changes
    nothing more. *)
Theorem hideFistHelpers_spec (isLeftHandedMode : bool)
    (primary secondary : gmap string NiAVObject) :
  let primary' := (hideFistHelpers isLeftHandedMode primary secondary).1 in
  let secondary' := (hideFistHelpers isLeftHandedMode primary secondary).2 in
  (forall name node', primary' !! name = Some node' ->
     exists node, primary !! name = Some node /\
       local_scale node' = local_scale node /\
       forall i, Z.testbit (flags node') i =
                 (Z.testbit (flags node) i
                  || ((i =? 0)%Z && is_fist_helper (negb isLeftHandedMode) name))) /\
  (forall name node', secondary' !! name = Some node' ->
     exists node, secondary !! name = Some node /\
       local_scale node'
       = (if bool_decide (name = "Point002") then lit 0 else local_scale node) /\
       forall i, Z.testbit (flags node') i =
                 (Z.testbit (flags node) i
                  || ((i =? 0)%Z && is_fist_helper isLeftHandedMode name))) /\
  (forall name, is_Some (primary' !! name) <-> is_Some (primary !! name)) /\
  (forall name, is_Some (secondary' !! name) <-> is_Some (secondary !! name)) /\
  hideFistHelpers isLeftHandedMode primary' secondary' = (primary', secondary').
Proof.
  intros primary' secondary'.
  assert (Hp : forall name, primary' !! name = _) by
    (intros name; exact (proj1 (hideFistHelpers_lookup isLeftHandedMode primary secondary name))).
  assert (Hs : forall name, secondary' !! name = _) by
    (intros name; exact (proj2 (hideFistHelpers_lookup isLeftHandedMode primary secondary name))).
  split; [|split; [|split; [|split]]].
  - intros name node' Hn. rewrite Hp in Hn.
    destruct (primary !! name) as [node|]; [|done]. injection Hn as <-.
    exists node. split; [done|].
    destruct (is_fist_helper _ name); cbv beta iota.
    + split; [done|]. intros i. rewrite cull_bits. by rewrite andb_true_r.
    + split; [done|]. intros i. by rewrite andb_false_r, orb_false_r.
  - intros name node' Hn. rewrite Hs in Hn.
    destruct (secondary !! name) as [node|]; [|done]. injection Hn as <-.
    exists node. split; [done|].
    destruct (is_fist_helper _ name), (bool_decide (name = "Point002")); cbv beta iota zeta;
      (split; [done|]); intros i; cbn [flags]; rewrite ?cull_bits, ?andb_true_r, ?andb_false_r,
        ?orb_false_r; done.
  - intros name. rewrite Hp. by rewrite fmap_is_Some.
  - intros name. rewrite Hs. by rewrite fmap_is_Some.
  - rewrite (surjective_pairing (hideFistHelpers isLeftHandedMode primary' secondary')).
    f_equal; apply map_eq; intros name.
    + rewrite (proj1 (hideFistHelpers_lookup isLeftHandedMode primary' secondary' name)), Hp.
      destruct (primary !! name) as [node|]; [|done]. simpl.
      destruct (is_fist_helper _ name); by rewrite ?cull_cull.
    + rewrite (proj2 (hideFistHelpers_lookup isLeftHandedMode primary' secondary' name)), Hs.
      destruct (secondary !! name) as [node|]; [|done]. simpl.
      destruct (is_fist_helper _ name), (bool_decide (name = "Point002"));
        unfold cull; cbn [flags local_scale]; rewrite <- ?Z.lor_assoc; reflexivity.
Qed.

End VisibilityProperties.

Section WeaponSwitchProperties.
Context {Scene Node : Type}.
Context (RemoveChild : Scene -> Node -> Node -> Scene).
Context (AttachChild : Scene -> Node -> Node -> bool -> Scene).

(** X22.  [handleLeftHandedWeaponNodesSwitch] acts once for each
    change of the left-handed setting.  With the setting as it was
    at the last call it does nothing.  Otherwise it remembers the
    setting, also when one of the four nodes is missing and the scene
    is left as it is: a switch that could not be done is not tried
    again while the setting stays.  So a second call with the same
    setting changes nothing, whatever nodes it finds. *)
Theorem weapon_switch_once (isLeftHandedMode : bool)
    (rightWeapon leftWeapon rHand lHand rightWeapon' leftWeapon' rHand' lHand' : option Node)
    (st : bool * Scene) :
  let switch := handleLeftHandedWeaponNodesSwitch Scene Node RemoveChild AttachChild
                  isLeftHandedMode in
  let st' := switch rightWeapon leftWeapon rHand lHand st in
  st'.1 = isLeftHandedMode /\
  (st.1 = isLeftHandedMode -> st' = st) /\
  (rightWeapon = None \/ leftWeapon = None \/ rHand = None \/ lHand = None ->
   st'.2 = st.2) /\
  switch rightWeapon' leftWeapon' rHand' lHand' st' = st'.
Proof.
  intros switch st'.
  assert (Hflag : st'.1 = isLeftHandedMode).
  { unfold st', switch, handleLeftHandedWeaponNodesSwitch. destruct st as [last scene].
    destruct (Bool.eqb last isLeftHandedMode) eqn:Hsame.
    - by apply Bool.eqb_prop in Hsame.
    - by destruct rightWeapon, rHand, leftWeapon, lHand. }
  assert (Hnop : forall a b c d (s : bool * Scene),
            s.1 = isLeftHandedMode -> switch a b c d s = s).
  { intros a b c d [last scene] Hs. simpl in Hs. subst last.
    unfold switch, handleLeftHandedWeaponNodesSwitch. by rewrite Bool.eqb_reflx. }
  split; [done|]. split; [apply Hnop|]. split; [|by apply Hnop].
  intros Hmissing. unfold st', switch, handleLeftHandedWeaponNodesSwitch.
  destruct st as [last scene]. destruct (Bool.eqb last isLeftHandedMode); [done|].
  destruct rightWeapon, rHand, leftWeapon, lHand; try done.
  by destruct Hmissing as [?|[?|[?|?]]].
Qed.

End WeaponSwitchProperties.

(** ** The body under the headset *)

Section BodyProperties.
Local Open Scope R_scope.
Import XR.
#[local] Existing Instance XR.scalar.
Context `{!Helpers}.
Context (setAngleAxis : Quaternion -> num -> NiPoint3 -> Quaternion).
Context (makeIdentity : Matrix44 -> Matrix44).
Context (DEFAULT_CAMERA_HEIGHT : num).
Context (updateDownWorld : BodyState -> BodyState).

Lemma real_point_minus_self (a b : R) (zz : xreal) :
  @mkPoint XR.scalar (XR.sub (Fin a) (Fin a)) (XR.sub (Fin b) (Fin b)) zz
  = @mkPoint XR.scalar (Fin 0) (Fin 0) zz.
Proof. cbn. f_equal; f_equal; lra. Qed.

Lemma XR_lit_0 : XR.of_Q 0 = Fin 0.
Proof. unfold XR.of_Q, Q2R. simpl. f_equal. lra. Qed.

(** X23.  [setBodyUnderHMD] puts the root of the skeleton under the
    camera, in exact arithmetic and for a finite camera position.
    With a root and its parent there, the call gives the root the
    local position (0, 0, z), where z is the height that the root had
    (after the update of [playerworldnode], when there is one), and
    the local scale [playerHeight / DEFAULT_CAMERA_HEIGHT]; the
    world transform of the root is not touched.  The parent is moved
    to the camera in x and y and its local position is multiplied by
    0.  The sideways direction is the forward direction turned by a
    quarter turn in the plane: (y, -x, 0); so the two are
    perpendicular as soon as the forward direction is finite. *)
Theorem setBodyUnderHMD_places_root (inp : BodyInput) (st : BodyState)
    (root body : NiNode) (c1 c2 c3 : R)
    (Hcam : body_curentPosition inp = real_point c1 c2 c3) :
  let st1 :=
    if disableSmoothMovement inp then
      updateDownWorld
        (mkBodyState
           (set_local_pos (playerworldnode st)
              (set_z (pos (m_localTransform (playerworldnode st)))
                 (if body_inPowerArmor inp
                  then (PACameraHeight inp + getDynamicCameraHeight inp)%fl
                  else (cameraHeight inp + getDynamicCameraHeight inp)%fl)))
           (body_root st) (body_parent st) (body_forwardDir st) (body_sidewaysRDir st))
    else st in
  body_root st1 = Some root -> body_parent st1 = Some body ->
  exists st' root' body',
    setBodyUnderHMD setAngleAxis DEFAULT_CAMERA_HEIGHT updateDownWorld inp st = Some st' /\
    body_root st' = Some root' /\ body_parent st' = Some body' /\
    pos (m_localTransform root')
    = mkPoint (Fin 0) (Fin 0) (z (pos (m_localTransform root))) /\
    scale (m_localTransform root') = XR.div (playerHeight inp) DEFAULT_CAMERA_HEIGHT /\
    m_worldTransform root' = m_worldTransform root /\
    x (pos (m_worldTransform body')) = Fin c1 /\
    y (pos (m_worldTransform body')) = Fin c2 /\
    pos (m_localTransform body') = pos (m_localTransform body) *v Fin 0 /\
    body_sidewaysRDir st'
    = mkPoint (y (body_forwardDir st')) (XR.opp (x (body_forwardDir st'))) (Fin 0) /\
    forall f1 f2 f3, body_forwardDir st' = real_point f1 f2 f3 ->
      ref_vec3Dot (body_forwardDir st') (body_sidewaysRDir st') = Fin 0.
Proof.
  intros st1 Hroot Hbody. unfold setBodyUnderHMD. cbv zeta. fold st1.
  rewrite Hroot. simpl mbind. rewrite Hbody. simpl mbind.
  eexists _, _, _. split; [reflexivity|]. cbn [body_root body_parent body_forwardDir
    body_sidewaysRDir]. split; [reflexivity|]. split; [reflexivity|].
  rewrite Hcam. unfold real_point.
  split.
  { unfold set_local_pos, set_local_rot, set_local, set_world, set_pos, set_rot, set_z, vsub.
    cbn [m_localTransform m_worldTransform pos rot scale x y z].
    apply real_point_minus_self. }
  split; [reflexivity|]. split; [reflexivity|]. split; [reflexivity|]. split; [reflexivity|].
  change (@lit XR.scalar 0) with (XR.of_Q 0). rewrite XR_lit_0.
  split; [reflexivity|]. split; [reflexivity|].
  intros f1 f2 f3 Hf. rewrite Hf. unfold real_point, ref_vec3Dot. cbn.
  f_equal. lra.
Qed.

(** After [setBodyUnderHMD] the root and its parent are there, the
    parent above the camera. *)
Lemma setBodyUnderHMD_result (inp : BodyInput) (st st' : BodyState) :
  setBodyUnderHMD setAngleAxis DEFAULT_CAMERA_HEIGHT updateDownWorld inp st = Some st' ->
  exists root' body', body_root st' = Some root' /\ body_parent st' = Some body' /\
    x (pos (m_worldTransform body')) = x (body_curentPosition inp) /\
    y (pos (m_worldTransform body')) = y (body_curentPosition inp).
Proof.
  unfold setBodyUnderHMD. cbv zeta.
  match goal with
  | |- context [body_root (if ?c then ?a else ?b)] =>
      generalize (if c then a else b)
  end.
  intros st1.
  destruct (body_root st1) as [root|]; simpl mbind; [|intros [=]].
  destruct (body_parent st1) as [body|]; simpl mbind; [|intros [=]].
  intros Hst. injection Hst as Hst. subst st'.
  eexists _, _. split; [reflexivity|]. split; [reflexivity|].
  split; reflexivity.
Qed.

(** X24.  [selfieSkelly] after [setBodyUnderHMD], in exact arithmetic
    and for a finite camera position and a finite selfie distance.
    With the selfie mode off the call changes nothing.  With it on,
    the root is put the selfie distance out along y: its local
    position becomes (0, distance, z) with the height z that it had;
    its local scale and world transform, the parent of the root and
    the two directions of the body are kept. *)
Theorem selfieSkelly_after_setBodyUnderHMD (inp : BodyInput) (st st' : BodyState)
    (c1 c2 c3 d : R)
    (Hbody : setBodyUnderHMD setAngleAxis DEFAULT_CAMERA_HEIGHT updateDownWorld inp st
             = Some st')
    (Hcam : body_curentPosition inp = real_point c1 c2 c3)
    (Hdist : selfieOutFrontDistance inp = Fin d) :
  exists st'', selfieSkelly makeIdentity inp st' = Some st'' /\
    if getSelfieMode inp then
      exists root' root'', body_root st' = Some root' /\ body_root st'' = Some root'' /\
        pos (m_localTransform root'')
        = mkPoint (Fin 0) (Fin d) (z (pos (m_localTransform root'))) /\
        scale (m_localTransform root'') = scale (m_localTransform root') /\
        m_worldTransform root'' = m_worldTransform root' /\
        body_parent st'' = body_parent st' /\
        body_forwardDir st'' = body_forwardDir st' /\
        body_sidewaysRDir st'' = body_sidewaysRDir st'
    else st'' = st'.
Proof.
  destruct (setBodyUnderHMD_result inp st st' Hbody) as (root' & body' & Hr & Hb & Hx & Hy).
  rewrite Hcam in Hx, Hy. unfold real_point in Hx, Hy. cbn [x y] in Hx, Hy.
  unfold selfieSkelly. destruct (getSelfieMode inp); [|eauto].
  rewrite Hr, Hb. cbv zeta. simpl mbind.
  eexists. split; [reflexivity|]. exists root'. eexists. split; [reflexivity|].
  cbn [body_root body_parent body_forwardDir body_sidewaysRDir].
  split; [reflexivity|]. split.
  - unfold set_local_pos, set_local_rot, set_local, set_world, set_pos, set_rot, set_z, vsub.
    cbn [m_localTransform m_worldTransform pos rot scale x y z].
    rewrite Hcam, Hdist, Hx, Hy. unfold real_point. cbn. f_equal; f_equal; lra.
  - split; [reflexivity|]. split; [reflexivity|]. split; [done|]. split; reflexivity.
Qed.

End BodyProperties.

(** ** The properties on the sample inputs *)

#[local] Existing Instance RefHelpers.
#[local] Existing Instance F32.scalar.


(** The speed recorded is 64 and the planned step time 0.5. *)
Lemma walk_speed_and_step_time_witness :
  exists st', walk (H := F32.scalar) sample_fast sample_idle = Some st' /\
    _prevSpeed st' = F32.of_Z 64 /\
    _walkingState st' = 1%Z /\ _stepTimeinStep st' = F32.of_Q 0.5.
Proof.
  destruct (walk_speed_and_step_time (H := F32.scalar) sample_fast sample_idle
              (sample_bone (pt 0 0 (-1)) (pt 0 0 9)) (sample_bone (pt 0 0 (-1)) (pt 0 0 9))
              (sample_bone (pt 4 0 0) (pt 0 0 5)) (sample_bone (pt 4 0 0) (pt 0 0 5))
              (sample_bone (pt 5 0 0) (pt 0 0 0)) (sample_bone (pt 5 0 0) (pt 0 0 0))
              eq_refl eq_refl eq_refl eq_refl eq_refl eq_refl
              (ex_intro _ _ eq_refl))
    as (st' & Hwalk & Hspeed & Hstart).
  exists st'. split; [exact Hwalk|].
  split; [rewrite Hspeed; vm_compute; reflexivity|].
  destruct Hstart as [Hs Ht];
    [reflexivity|reflexivity|vm_compute; reflexivity|vm_compute; reflexivity|].
  split; [exact Hs|rewrite Ht; vm_compute; reflexivity].
Defined.

(** A walking player who slows from 100 to 54 is redirected: the
    switch is entered in state 3 and left in state 1, with the same
    stepping foot and its target 2.7 ahead of the foot. *)
Lemma walk_transitions_witness :
  let speed := walk_curSpeed (H := F32.scalar) sample_slow (_prevSpeed sample_walking) in
  let stepTime := walk_stepTime speed in
  let dir := vec3Norm (walk_dir sample_slow) in
  let foot := sample_bone (H := F32.scalar) (pt 5 0 0) (pt 0 0 0) in
  let lF := fst (walk_feet sample_slow foot foot) in
  let rF := snd (walk_feet sample_slow foot foot) in
  let st0 := walk_enter sample_slow lF rF sample_walking in
  let st1 := walk_switch sample_slow speed stepTime dir lF rF st0 in
  isJumpingOrInAir (H := F32.scalar) sample_slow = false /\
  walk sample_slow sample_walking = walk_finish sample_slow speed stepTime dir lF rF st1 /\
  _walkingState st0 = 3%Z /\
  _walkingState st1 = 1%Z /\
  _footStepping st1 = 1%Z /\
  _rightFootTarget st1 = foot_pos rF +v dir *v (speed * stepTime * lit 0.1)%fl.
Proof.
  intros speed stepTime dir foot lF rF st0 st1.
  pose proof (walk_transitions (H := F32.scalar) sample_slow sample_walking
                (sample_bone (pt 0 0 (-1)) (pt 0 0 9)) (sample_bone (pt 0 0 (-1)) (pt 0 0 9))
                (sample_bone (pt 4 0 0) (pt 0 0 5)) (sample_bone (pt 4 0 0) (pt 0 0 5))
                foot foot eq_refl eq_refl eq_refl eq_refl eq_refl eq_refl eq_refl)
    as (Hwalk & Hs0 & Hs1 & Hfields).
  fold speed stepTime dir lF rF st0 st1 in Hwalk, Hs0, Hs1, Hfields.
  assert (Hdecel : (speed - _prevSpeed sample_walking <? lit (-20))%fl = true)
    by (vm_compute; reflexivity).
  rewrite Hdecel in Hs0. rewrite Hs0 in Hs1, Hfields.
  destruct Hfields as [Hfoot Htarget].
  split; [reflexivity|]. split; [exact Hwalk|]. split; [exact Hs0|].
  split; [exact Hs1|]. split; [exact Hfoot|]. exact Htarget.
Defined.

(** The claim that redirecting moves the target that the foot had:
    the walking player above has the right foot at the origin and its
    target 100 units ahead; after the call the target is 2.7 ahead
    of the foot, not 102.7. *)
Lemma walk_redirect_resets_target :
  let speed := walk_curSpeed (H := F32.scalar) sample_slow (_prevSpeed sample_walking) in
  let stepTime := walk_stepTime speed in
  let dir := vec3Norm (walk_dir sample_slow) in
  (speed - _prevSpeed sample_walking <? lit (-20))%fl = true /\
  x (_rightFootTarget (H := F32.scalar) sample_walking) = F32.of_Z 100 /\
  exists st', walk (H := F32.scalar) sample_slow sample_walking = Some st' /\
    _walkingState st' = 1%Z /\ _footStepping st' = 1%Z /\
    x (_rightFootTarget st') = F32.of_Q 2.7 /\
    x (_rightFootTarget st')
    <> x (_rightFootTarget sample_walking +v dir *v (speed * stepTime * lit 0.1)%fl).
Proof.
  intros speed stepTime dir.
  split; [vm_compute; reflexivity|]. split; [vm_compute; reflexivity|].
  destruct (walk (H := F32.scalar) sample_slow sample_walking) as [st'|] eqn:Hwalk.
  - exists st'. split; [reflexivity|].
    assert (Hs : _walkingState <$> walk (H := F32.scalar) sample_slow sample_walking
                 = Some 1%Z) by (vm_compute; reflexivity).
    assert (Hf : _footStepping <$> walk (H := F32.scalar) sample_slow sample_walking
                 = Some 1%Z) by (vm_compute; reflexivity).
    assert (Ht : (fun s => x (_rightFootTarget s))
                   <$> walk (H := F32.scalar) sample_slow sample_walking
                 = Some (F32.of_Q 2.7)) by (vm_compute; reflexivity).
    rewrite Hwalk in Hs, Hf, Ht. simpl in Hs, Hf, Ht.
    injection Hs as Hs. injection Hf as Hf. injection Ht as Ht.
    split; [exact Hs|]. split; [exact Hf|]. split; [exact Ht|].
    rewrite Ht. vm_compute. discriminate.
  - exfalso.
    assert (Hs : _walkingState <$> walk (H := F32.scalar) sample_slow sample_walking
                 = Some 1%Z) by (vm_compute; reflexivity).
    rewrite Hwalk in Hs. discriminate Hs.
Qed.

(** The neck, in binary32, with the hands crossed. *)
Lemma getNeckYaw_spec_witness :
  ScalarLaws F32.scalar /\
  (degreesToRads (H := F32.scalar) (lit (-50)) <=? degreesToRads (lit 50))%fl = true /\
  getNeckYaw (H := F32.scalar) (Some sample_player)
  = std_clamp (- neckYaw_angleFinal sample_player * neckYaw_weight sample_player)%fl
      (degreesToRads (lit (-50))) (degreesToRads (lit 50)) /\
  (isnan (getNeckYaw (H := F32.scalar) (Some sample_player)) = true \/
   ((degreesToRads (lit (-50)) <=? getNeckYaw (H := F32.scalar) (Some sample_player))%fl = true
    /\ (getNeckYaw (H := F32.scalar) (Some sample_player) <=? degreesToRads (lit 50))%fl
       = true)).
Proof.
  assert (Hlo : (degreesToRads (H := F32.scalar) (lit (-50)) <=? lit 0)%fl = true)
    by (vm_compute; reflexivity).
  assert (Hhi : (lit (Scalar := F32.scalar) 0 <=? degreesToRads (lit 50))%fl = true)
    by (vm_compute; reflexivity).
  assert (Hlohi : (degreesToRads (H := F32.scalar) (lit (-50)) <=? degreesToRads (lit 50))%fl
                  = true) by (vm_compute; reflexivity).
  split; [exact F32_laws|]. split; [exact Hlohi|].
  pose proof (getNeckYaw_spec (H := F32.scalar) (Some sample_player) F32_laws Hlo Hhi Hlohi)
    as [Hvalue Hrange].
  assert (Hlong : ((vec3Len (H := F32.scalar) (neckYaw_hmdToLeft sample_player) <? lit 10)%fl
                   || (vec3Len (neckYaw_hmdToRight sample_player) <? lit 10)%fl) = false)
    by (vm_compute; reflexivity).
  rewrite Hlong in Hvalue. split; [exact Hvalue|exact Hrange].
Defined.

(** The claim that the angle is clamped first and scaled afterwards:
    with the hands crossed as in the sample the weight is 0.5 and the
    candidate angle 90 degrees; [getNeckYaw] returns -45 degrees,
    where clamping first gives -25 degrees (or 25, were the angle not
    negated). *)
Lemma neckYaw_scales_before_clamping :
  neckYaw_weight (H := F32.scalar) sample_player = F32.of_Q 0.5 /\
  neckYaw_angleFinal (H := F32.scalar) sample_player = F32.half_pi /\
  getNeckYaw (H := F32.scalar) (Some sample_player) = SFopp (F32.div F32.pi (F32.of_Z 4)) /\
  getNeckYaw (H := F32.scalar) (Some sample_player) <> spec_neckYaw sample_player /\
  getNeckYaw (H := F32.scalar) (Some sample_player)
  <> (std_clamp (neckYaw_angleFinal sample_player)
        (degreesToRads (lit (-50))) (degreesToRads (lit 50))
      * neckYaw_weight sample_player)%fl.
Proof.
  split; [vm_compute; reflexivity|]. split; [vm_compute; reflexivity|].
  split; [vm_compute; reflexivity|]. split; vm_compute; discriminate.
Qed.

(** The middle bone of the left thumb. *)
Lemma thumb_middle_bone_target_witness :
  contains "LArm_Finger12" "Finger1" = true /\
  contains "LArm_Finger12" "Finger11" = false /\
  contains "LArm_Finger12" "Finger13" = false /\
  handPoseTarget (H := F32.scalar) sample_hand_input ∅ "LArm_Finger12" (lit 0.5) true true
  = Some Quaternion_new.
Proof.
  split; [reflexivity|]. split; [reflexivity|]. split; [reflexivity|].
  exact (proj1 (thumb_middle_bone_target (H := F32.scalar) sample_hand_input
                  sample_hand_state "LArm_Finger12" (lit 0.5) true
                  eq_refl eq_refl eq_refl eq_refl)).
Defined.

(** The bone of the tree with the two quarter turns after
    [setHandPose], in binary32: the first row of its world rotation
    ends in 1. *)
Lemma turned_bone_first_row :
  (fun s => (fun bj => z (row0 (rot (world bj)))) <$> transforms s !! 1)
    <$> setHandPose sample_hand_input ["Root"; "Bone"] sample_turned_state
  = Some (Some (F32.of_Z 1)).
Proof. vm_compute. reflexivity. Qed.

(** The tree with the two quarter turns, in binary32.  Its tables
    are complete and its computed entry comes after its parent.  The
    two orders of the product differ on it, and the bone ends with
    the parent's rotation on the left: the first row of its world
    rotation is (0, 0, 1). *)
Lemma propagation_correct_witness :
  left_factor_law (H := F32.scalar) (H0 := RefHelpers) /\
  hand_tables_complete sample_hand_input ["Root"; "Bone"]
    (length (transforms sample_turned_state)) /\
  topological (transforms sample_turned_state) /\
  (z (row0 (mat_mul (H := F32.scalar) turn_z turn_x)) = F32.of_Z 1 /\
   z (row0 (mat_mul (H := F32.scalar) turn_x turn_z)) = F32.of_Z 0) /\
  (exists st', setHandPose sample_hand_input ["Root"; "Bone"] sample_turned_state = Some st' /\
     (forall j bj, transforms st' !! j = Some bj -> refNode bj = None ->
        exists parent, at_index (transforms st') (parPos bj) = Some parent /\
          pos (world bj) = pos (world parent)
                           +v rot (world parent) *m (pos (local bj) *v scale (world parent)) /\
          rot (world bj) = mat_mul (rot (world parent)) (rot (local bj))) /\
     (fun bj => z (row0 (rot (world bj)))) <$> transforms st' !! 1 = Some (F32.of_Z 1)) /\
  (exists rt' b', rotateLeg sample_turned_tree 1 (lit 10) = Some rt' /\ rt' !! 1 = Some b' /\
     exists parent, at_index rt' (parPos b') = Some parent /\
       pos (world b') = pos (world parent)
                        +v rot (world parent) *m (pos (local b') *v scale (world parent)) /\
       rot (world b') = mat_mul (rot (world parent)) (rot (local b'))).
Proof.
  assert (Htables : hand_tables_complete sample_hand_input ["Root"; "Bone"]
                      (length (transforms sample_turned_state))).
  { split; [apply le_n|]. split.
    - intros name [v Hv]. destruct (lookup_empty_Some (M := gmap string) name v Hv).
    - intros bone i Hi. destruct (lookup_empty_Some (M := gmap string) bone i Hi). }
  assert (Htopo : topological (transforms sample_turned_state)).
  { intros [|[|i]] b Hb Hnone.
    - injection Hb as <-. discriminate Hnone.
    - injection Hb as <-. cbn [parPos]. lia.
    - discriminate Hb. }
  split; [exact ref_left_factor_law|]. split; [exact Htables|]. split; [exact Htopo|].
  split; [split; vm_compute; reflexivity|].
  destruct (propagation_correct sample_hand_input ["Root"; "Bone"] sample_turned_state
              sample_turned_tree 1 (lit 10)
              {| local := mkTransform turn_x (pt 2 0 0) (lit 1);
                 world := sample_transform zero3; parPos := 0; refNode := None |}
              ref_left_factor_law Htables Htopo eq_refl (conj (Z.le_refl 0) eq_refl))
    as [(st' & Hpose & Hall) Hleg].
  split; [|exact Hleg].
  exists st'. split; [exact Hpose|]. split; [exact Hall|].
  pose proof turned_bone_first_row as Hrow.
  rewrite Hpose in Hrow. injection Hrow as Hrow. exact Hrow.
Defined.


(** C4.  In binary32 the second solve can fail as well.  With the
    bind lengths of the power-armor leg, 34.298 and 52.5412, and the
    foot at the full length of the leg (their sum as [float] adds
    them), the leg is not stretched, the first angle is NaN, the
    fallback takes two segments of half the sum, and the angle of the
    second solve is NaN again: rounding puts the argument of both arc
    cosines above 1.  [setSingleLeg] then writes NaN into the local
    position of the knee.  The solve of [setArms] returns NaN on the
    same lengths. *)
Theorem cosine_law_fallback_nan :
  let thigh := lit (Scalar := F32.scalar) 34.298 in
  let calf := lit (Scalar := F32.scalar) 52.5412 in
  let ftLen := (thigh + calf)%fl in
  let L := ((thigh + calf) / lit 2)%fl in
  (isnan thigh || isinf thigh || isnan calf || isinf calf || isnan ftLen || isinf ftLen = false /\
   (lit 0 <? thigh)%fl && (lit 0 <? calf)%fl && (lit 0 <? ftLen)%fl = true) /\
  (ftLen >? thigh + calf)%fl = false /\
  isnan (cosine_law thigh calf ftLen) = true /\
  fst (leg_solve thigh calf ftLen) = (L, L) /\
  isnan (snd (leg_solve thigh calf ftLen)) = true /\
  isnan (snd (arm_solve thigh calf (lit 1) ftLen)) = true /\
  (vec3Len (pt 34.298 0 0) = thigh /\ vec3Len (pt 52.5412 0 0) = calf /\
   std_max (vec3Len (zero3 -v _leftFootPos sample_pa_stretched)) (lit 0.1) = ftLen) /\
  (fun st' => (fun knee => isnan (x (pos (m_localTransform knee)))) <$> nodes st' !! "LLeg_Calf")
    <$> setSingleLeg true sample_parent true sample_pa_stretched
  = Some (Some true).
Proof.
  intros thigh calf ftLen L.
  split; [split; vm_compute; reflexivity|].
  split; [vm_compute; reflexivity|].
  split; [vm_compute; reflexivity|].
  split; [vm_compute; reflexivity|].
  split; [vm_compute; reflexivity|].
  split; [vm_compute; reflexivity|].
  split; [split; [|split]; vm_compute; reflexivity|].
  vm_compute. reflexivity.
Qed.

(** A thigh of 10 on a calf of 2 with the foot one unit from the hip,
    and an arm of the same proportions: no triangle has these sides. *)
Lemma cosine_law_fallback_finite_witness :
  XR.is_nan (cosine_law (H := XR.scalar) (XR.Fin 10) (XR.Fin 2) (XR.Fin 1)) = true /\
  (exists angle, snd (leg_solve (H := XR.scalar) (XR.Fin 10) (XR.Fin 2) (XR.Fin 1)) = XR.Fin angle
                 /\ 0 <= angle <= Rtrigo1.PI)%R /\
  (exists angle,
     snd (arm_solve (H := XR.scalar) (XR.Fin 10) (XR.Fin 2) (XR.Fin 1) (XR.Fin 1)) = XR.Fin angle
     /\ 0 <= angle <= Rtrigo1.PI)%R.
Proof.
  pose proof (cosine_law_fallback_finite 10 2 1 10 2 1 1
                ltac:(lra) ltac:(lra) ltac:(lra) ltac:(lra) ltac:(lra) ltac:(lra) ltac:(lra))
    as [[_ Hleg] [_ Harm]].
  split; [|split; [exact Hleg|exact Harm]].
  rewrite XR_cosine_law by lra. unfold XR.on_unit.
  destruct (Rle_dec (-1) _) as [Hle|]; [exfalso; lra|reflexivity].
Defined.

(** The reference [updateDown] recomputes world transforms only. *)
Lemma ref_updateDownArm_locals `{Scalar} (a : ArmNodes) (updateSelf : bool) :
  arm_locals (ref_updateDownArm a updateSelf) = arm_locals a.
Proof.
  destruct a as [sh up f1 [f2|] [f3|] h]; reflexivity.
Qed.

(** A right hand whose position is not a number: both arms stay. *)
Lemma setArms_abort_witness :
  isnan (x (setArms_handPos false
              (setArms_prepare sample_arms_input false (sample_arms hand_lost)))) = true /\
  exists st', setArms sample_arms_input false (sample_arms hand_lost) = Some st' /\
    _leftArm st' = _leftArm (sample_arms hand_lost) /\
    _rightArm st' = _rightArm (sample_arms hand_lost).
Proof.
  split; [vm_compute; reflexivity|].
  pose proof (setArms_abort sample_arms_input false (sample_arms hand_lost) eq_refl
                (fun a b => ref_updateDownArm_locals a b)) as Habort.
  cbv zeta in Habort.
  match type of Habort with
  | if ?c then _ else _ =>
      assert (Hc : c = true) by (vm_compute; reflexivity); rewrite Hc in Habort
  end.
  exact Habort.
Defined.

(** The claim that an arm whose hand is further than 2.25 arm lengths
    is left as it was: with the right hand 100 units sideways of an
    arm of 20, the hand passes the first test, fails the second, and
    [setArms] returns with the collar bone turned. *)
Lemma setArms_far_hand_turns_collar :
  let st := sample_arms hand_far in
  let handPos := setArms_handPos false (setArms_prepare sample_arms_input false st) in
  let arm' := setArms_shoulder sample_arms_input handPos (_rightArm st) in
  hand_invalid handPos (_rightArm st) = false /\
  (exists u f, arm_bind_lengths sample_arms_input arm' = Some (u, f) /\
     hand_too_far (arm_hsLen handPos arm')
       (u * (armLength sample_arms_input / lit 36.74))%fl
       (f * (armLength sample_arms_input / lit 36.74))%fl = true) /\
  exists st', setArms sample_arms_input false st = Some st' /\
    x (row0 (local_rot (shoulder (_rightArm st)))) = F32.of_Z 1 /\
    x (row0 (local_rot (shoulder (_rightArm st')))) = (S754_finite false 14463354 (-24)) /\
    _rightArm st' <> _rightArm st.
Proof.
  intros st handPos arm'.
  split; [vm_compute; reflexivity|].
  split.
  { exists (F32.of_Z 10), (F32.of_Z 10). split; vm_compute; reflexivity. }
  pose (probe := fun s : ArmsState => x (row0 (local_rot (shoulder (_rightArm s))))).
  assert (Hprobe : probe <$> setArms sample_arms_input false st = Some (S754_finite false 14463354 (-24)))
    by (vm_compute; reflexivity).
  destruct (setArms sample_arms_input false st) as [st'|]; [|discriminate Hprobe].
  injection Hprobe as Hprobe. unfold probe in Hprobe.
  exists st'. split; [reflexivity|]. split; [vm_compute; reflexivity|].
  split; [exact Hprobe|].
  intros Hsame. rewrite Hsame in Hprobe. vm_compute in Hprobe. discriminate Hprobe.
Qed.

(** The right arm with the hand within reach: the angle kept for the
    right side moves a quarter of the way from 0.2 to this frame's
    twist, the one kept for the left side stays 0.1. *)
Lemma twist_smoothing_witness :
  let st := sample_arms hand_near in
  let handRot := setArms_handRot false (setArms_prepare sample_arms_input false st) in
  ScalarLaws F32.scalar /\
  exists st', setArms sample_arms_input false st = Some st' /\
    prevAngle1 st' = (lit 0.2 + lit 0.25 * (arm_rawTwist handRot - lit 0.2))%fl /\
    prevAngle0 st' = lit 0.1.
Proof.
  intros st handRot. split; [exact F32_laws|].
  destruct (twist_smoothing sample_arms_input false st (F32.of_Z 10) (F32.of_Z 10)
              F32_laws eq_refl) as (st' & arm' & Hset & Hown & Hother & _).
  - vm_compute; reflexivity.
  - vm_compute; reflexivity.
  - vm_compute; reflexivity.
  - exists st'. split; [exact Hset|]. split; [exact Hown|exact Hother].
Defined.

(** ** The further properties on the sample inputs *)

(** In binary32: the walking player leaves the ground. *)
Lemma walk_in_air_witness :
  isJumpingOrInAir (H := F32.scalar) sample_air = true /\
  exists st', walk (H := F32.scalar) sample_air sample_walking = Some st' /\
    _walkingState st' = 0%Z /\
    _footStepping st' = 1%Z /\
    _rightFootTarget st' = pt 100 0 0.
Proof.
  split; [reflexivity|].
  destruct (walk_in_air (H := F32.scalar) sample_air sample_walking
              (sample_bone (pt 0 0 (-1)) (pt 0 0 9)) (sample_bone (pt 0 0 (-1)) (pt 0 0 9))
              (sample_bone (pt 4 0 0) (pt 0 0 5)) (sample_bone (pt 4 0 0) (pt 0 0 5))
              (sample_bone (pt 5 0 0) (pt 0 0 0)) (sample_bone (pt 5 0 0) (pt 0 0 0))
              eq_refl eq_refl eq_refl eq_refl eq_refl eq_refl eq_refl)
    as (st' & Hwalk & Hstate & _ & _ & _ & _ & Hfoot & Htarget & _).
  exists st'. split; [exact Hwalk|]. split; [exact Hstate|].
  split; [exact Hfoot|exact Htarget].
Defined.

(** The standing player who starts to walk: the counters after the
    call. *)
Lemma walk_keeps_counters_witness :
  exists st', walk (H := F32.scalar) sample_fast sample_idle = Some st' /\
    (0 <= _delayFrame st' <= 2)%Z /\ foot_in_range (_footStepping st').
Proof.
  destruct (walk (H := F32.scalar) sample_fast sample_idle) as [st'|] eqn:Hwalk.
  - exists st'. split; [reflexivity|].
    apply (walk_keeps_counters (H := F32.scalar) sample_fast sample_idle st').
    + apply Z.le_refl.
    + split; [apply Z.le_refl|discriminate].
    + left. reflexivity.
    + exact Hwalk.
  - exfalso.
    assert (Hs : _walkingState <$> walk (H := F32.scalar) sample_fast sample_idle
                 = Some 1%Z) by (vm_compute; reflexivity).
    rewrite Hwalk in Hs. discriminate Hs.
Defined.

(** The walking player seen at speed 64, which the averaging with
    the previous 100 makes 82: the step goes on, and 1/64 s is added
    to its timer. *)
Lemma walk_step_handover_witness :
  (walk_curSpeed (H := F32.scalar) sample_fast (_prevSpeed sample_walking)
   - _prevSpeed sample_walking <? lit (-20))%fl = false /\
  exists st', walk (H := F32.scalar) sample_fast sample_walking = Some st' /\
    _walkingState st' = 1%Z /\
    _currentStepTime st' = (lit 0 + lit (1 # 64))%fl /\ _footStepping st' = 1%Z.
Proof.
  assert (Hdecel : (walk_curSpeed (H := F32.scalar) sample_fast (_prevSpeed sample_walking)
                    - _prevSpeed sample_walking <? lit (-20))%fl = false)
    by (vm_compute; reflexivity).
  assert (Hspeed : (walk_curSpeed (H := F32.scalar) sample_fast (_prevSpeed sample_walking)
                    <? lit 20)%fl = false)
    by (vm_compute; reflexivity).
  split; [exact Hdecel|].
  pose proof (walk_step_handover (H := F32.scalar) sample_fast sample_walking
              (sample_bone (pt 0 0 (-1)) (pt 0 0 9)) (sample_bone (pt 0 0 (-1)) (pt 0 0 9))
              (sample_bone (pt 4 0 0) (pt 0 0 5)) (sample_bone (pt 4 0 0) (pt 0 0 5))
              (sample_bone (pt 5 0 0) (pt 0 0 0)) (sample_bone (pt 5 0 0) (pt 0 0 0))
              eq_refl eq_refl eq_refl eq_refl eq_refl eq_refl
              (ex_intro _ _ eq_refl) eq_refl eq_refl Hdecel Hspeed)
    as Hstep.
  cbv zeta in Hstep. destruct Hstep as (st' & Hwalk & Hstate & Hrest).
  match type of Hrest with
  | if ?c then _ else _ =>
      assert (Hc : c = false) by (vm_compute; reflexivity); rewrite Hc in Hrest
  end.
  destruct Hrest as (Htimer & Hfoot & _).
  exists st'. split; [exact Hwalk|]. split; [exact Hstate|].
  split; [exact Htimer|exact Hfoot].
Defined.

(** The left leg of the standing player, in binary32: the pelvis and
    the right foot are where they were. *)
Lemma setSingleLeg_frame_witness :
  exists st', setSingleLeg (H := F32.scalar) false sample_parent true sample_idle = Some st' /\
    st' = set_nodes sample_idle (nodes st') /\
    nodes st' !! "Pelvis" = nodes (H := F32.scalar) sample_idle !! "Pelvis" /\
    nodes st' !! "RLeg_Foot" = nodes (H := F32.scalar) sample_idle !! "RLeg_Foot".
Proof.
  destruct (setSingleLeg (H := F32.scalar) false sample_parent true sample_idle)
    as [st'|] eqn:Hleg.
  - exists st'. split; [reflexivity|].
    destruct (setSingleLeg_frame (H := F32.scalar) false sample_parent true sample_idle st'
                Hleg) as (Hst & Hother & _).
    split; [exact Hst|].
    split; apply Hother; discriminate.
  - exfalso.
    assert (Hs : _walkingState
                   <$> setSingleLeg (H := F32.scalar) false sample_parent true sample_idle
                 = Some 0%Z) by (vm_compute; reflexivity).
    rewrite Hleg in Hs. discriminate Hs.
Defined.

(** The right arm with the hand within reach: the left arm and the
    angle kept for the left side stay. *)
Lemma setArms_frame_witness :
  exists st', setArms sample_arms_input false (sample_arms hand_near) = Some st' /\
    _leftArm st' = _leftArm (sample_arms hand_near) /\
    prevAngle0 st' = prevAngle0 (sample_arms hand_near) /\
    _leftHandPrevFrame st' = _leftHandPrevFrame (sample_arms hand_near).
Proof.
  destruct (setArms sample_arms_input false (sample_arms hand_near)) as [st'|] eqn:Harms.
  - exists st'. split; [reflexivity|].
    destruct (setArms_frame sample_arms_input false (sample_arms hand_near) st' Harms)
      as (_ & Harm & Hangle & Hprev & _).
    split; [exact Harm|]. split; [exact Hangle|exact Hprev].
  - exfalso.
    assert (Hs : prevAngle0 <$> setArms sample_arms_input false (sample_arms hand_near)
                 = Some (lit 0.1)) by (vm_compute; reflexivity).
    rewrite Harms in Hs. discriminate Hs.
Defined.

(** The same hand on an arm without its second forearm bone. *)
Lemma setArms_missing_forearm_witness :
  hand_invalid
    (setArms_handPos false (setArms_prepare sample_arms_input false (sample_arms_short hand_near)))
    (arm_of false (sample_arms_short hand_near)) = false /\
  forearms_present (arm_of false (sample_arms_short hand_near)) = (false, true) /\
  setArms sample_arms_input false (sample_arms_short hand_near) = None.
Proof.
  assert (Hvalid : hand_invalid
                     (setArms_handPos false
                        (setArms_prepare sample_arms_input false (sample_arms_short hand_near)))
                     (arm_of false (sample_arms_short hand_near)) = false)
    by (vm_compute; reflexivity).
  split; [exact Hvalid|]. split; [reflexivity|].
  apply (setArms_missing_forearm sample_arms_input false (sample_arms_short hand_near)
           eq_refl eq_refl Hvalid).
  - intros Hboth. discriminate Hboth.
  - intros [sh up f1 [f2|] [f3|] h] b; reflexivity.
Defined.

(** The second entry of the two-entry tree turned by 10 degrees: the
    first entry stays. *)
Lemma rotateLeg_frame_witness :
  exists rt', rotateLeg sample_tree 1 (lit 10) = Some rt' /\
    length rt' = 2 /\ rt' !! 0 = sample_tree !! 0.
Proof.
  destruct (rotateLeg sample_tree 1 (lit 10)) as [rt'|] eqn:Hrot.
  - exists rt'. split; [reflexivity|].
    destruct (rotateLeg_frame sample_tree rt' 1 (lit 10) Hrot) as (Hlen & Hother & _).
    split; [exact Hlen|]. apply Hother. discriminate.
  - exfalso.
    assert (Hs : length <$> rotateLeg sample_tree 1 (lit 10) = Some 2)
      by (vm_compute; reflexivity).
    rewrite Hrot in Hs. discriminate Hs.
Defined.

(** The two-entry tree with a thumb bone as its second entry and the
    right touchpad touched: the bone keeps its parent and gets the
    position of the open hand. *)
Lemma setHandPose_entries_witness :
  exists st' b',
    setHandPose sample_finger_input ["Root"; "RArm_Finger11"] sample_hand_state = Some st' /\
    transforms st' !! 1 = Some b' /\
    length (transforms st') = 2 /\
    parPos b' = 0%Z /\
    pos (local b') = pos NiTransform_new.
Proof.
  assert (Hlen : (fun s => length (transforms s))
                   <$> setHandPose sample_finger_input ["Root"; "RArm_Finger11"]
                         sample_hand_state = Some 2)
    by (vm_compute; reflexivity).
  assert (Hrel : (fun _ => tt)
                   <$> (_fingerRelations sample_finger_input !! "RArm_Finger11") = Some tt)
    by (vm_compute; reflexivity).
  destruct (setHandPose sample_finger_input ["Root"; "RArm_Finger11"] sample_hand_state)
    as [st'|] eqn:Hpose; [|discriminate Hlen].
  injection Hlen as Hlen.
  destruct (transforms st' !! 1) as [b'|] eqn:Hentry.
  - exists st', b'. split; [reflexivity|]. split; [exact Hentry|].
    destruct (setHandPose_entries sample_finger_input ["Root"; "RArm_Finger11"]
                sample_hand_state st' 1 b' Hpose Hentry)
      as (Hl & name & b & Hname & Hb & Hpar & _ & Hposed).
    injection Hname as <-. injection Hb as <-.
    split; [exact Hl|]. split; [exact Hpar|].
    revert Hposed Hrel.
    generalize (_fingerRelations sample_finger_input !! "RArm_Finger11").
    intros [rel|] Hposed Hrel; [|discriminate Hrel].
    exact (proj1 Hposed).
  - exfalso. apply lookup_ge_None_1 in Hentry. rewrite Hlen in Hentry. lia.
Defined.

(** The flags on the same input: the thumb bone is closed, the root
    has no flag. *)
Lemma setHandPose_closed_hand_witness :
  exists st',
    setHandPose sample_finger_input ["Root"; "RArm_Finger11"] sample_hand_state = Some st' /\
    _closedHand st' !! "RArm_Finger11" = Some true /\
    _closedHand st' !! "Root" = None.
Proof.
  assert (Hlen : (fun s => length (transforms s))
                   <$> setHandPose sample_finger_input ["Root"; "RArm_Finger11"]
                         sample_hand_state = Some 2)
    by (vm_compute; reflexivity).
  destruct (setHandPose sample_finger_input ["Root"; "RArm_Finger11"] sample_hand_state)
    as [st'|] eqn:Hpose; [|discriminate Hlen].
  exists st'. split; [reflexivity|]. split.
  - rewrite (setHandPose_closed_hand sample_finger_input ["Root"; "RArm_Finger11"]
               sample_hand_state st' "RArm_Finger11" Hpose).
    vm_compute. reflexivity.
  - rewrite (setHandPose_closed_hand sample_finger_input ["Root"; "RArm_Finger11"]
               sample_hand_state st' "Root" Hpose).
    vm_compute. reflexivity.
Defined.

(** The middle bone of the left thumb and the first bone of the right
    index finger. *)
Lemma thumb_bones_follow_touchpad_witness :
  getHandBonesButtonMap !! "LArm_Finger12" = Some k_EButton_SteamVR_Touchpad /\
  contains "LArm_Finger12" "Finger1" = true /\
  getHandBonesButtonMap !! "RArm_Finger21" = Some k_EButton_SteamVR_Trigger /\
  contains "RArm_Finger21" "Finger1" = false.
Proof.
  assert (Hthumb : getHandBonesButtonMap !! "LArm_Finger12" = Some k_EButton_SteamVR_Touchpad)
    by (vm_compute; reflexivity).
  assert (Hindex : getHandBonesButtonMap !! "RArm_Finger21" = Some k_EButton_SteamVR_Trigger)
    by (vm_compute; reflexivity).
  split; [exact Hthumb|].
  split; [exact (proj2 (thumb_bones_follow_touchpad "LArm_Finger12" _ Hthumb) eq_refl)|].
  split; [exact Hindex|].
  destruct (contains "RArm_Finger21" "Finger1") eqn:Hc; [|reflexivity].
  discriminate (proj1 (thumb_bones_follow_touchpad "RArm_Finger21" _ Hindex) Hc).
Defined.

(** The two-entry tree by name: a bone of the tree, and a name that
    the tree does not have. *)
Lemma getBoneWorldTransform_after_init_witness :
  let _boneTreeMap := (initBoneTreeMap ["Root"; "Bone"]).1 in
  getBoneWorldTransform sample_tree _boneTreeMap "Bone"
  = (world <$> sample_tree !! 1, _boneTreeMap) /\
  getBoneWorldTransform sample_tree _boneTreeMap "Tail"
  = (world <$> sample_tree !! 0, <["Tail" := 0%Z]> _boneTreeMap).
Proof.
  intros m.
  pose proof (getBoneWorldTransform_after_init sample_tree ["Root"; "Bone"] "Bone" eq_refl)
    as Hbone.
  pose proof (getBoneWorldTransform_after_init sample_tree ["Root"; "Bone"] "Tail" eq_refl)
    as Htail.
  cbv zeta in Hbone, Htail. fold m in Hbone, Htail.
  assert (Hf1 : list_find (fun n => n = "Bone") ["Root"; "Bone"] = Some (1, "Bone"))
    by (vm_compute; reflexivity).
  assert (Hf2 : list_find (fun n => n = "Tail") ["Root"; "Bone"] = None)
    by (vm_compute; reflexivity).
  rewrite Hf1 in Hbone. rewrite Hf2 in Htail.
  split; [exact (proj1 Hbone)|exact Htail].
Defined.

(** One bone of the sample legs restored to a transform at (1, 2, 3). *)
Lemma restoreNodesToDefault_spec_witness :
  let l := [("LLeg_Foot", sample_transform (pt 1 2 3))] in
  NoDup l.*1 /\
  restoreNodesToDefault l sample_leg_nodes !! "LLeg_Foot"
  = Some (mkNode (sample_transform (pt 1 2 3)) (sample_transform (pt 0 0 0))) /\
  restoreNodesToDefault l sample_leg_nodes !! "RLeg_Foot" = sample_leg_nodes !! "RLeg_Foot" /\
  restoreNodesToDefault l (restoreNodesToDefault l sample_leg_nodes)
  = restoreNodesToDefault l sample_leg_nodes.
Proof.
  intros l.
  assert (Hnames : NoDup l.*1) by apply NoDup_singleton.
  destruct (restoreNodesToDefault_spec l sample_leg_nodes Hnames)
    as (Hin & Hout & _ & Htwice).
  split; [exact Hnames|]. split.
  - apply (Hin "LLeg_Foot" (sample_transform (pt 1 2 3))
             (sample_bone (pt 5 0 0) (pt 0 0 0))).
    + apply list_elem_of_here.
    + reflexivity.
  - split; [|exact Htwice]. apply Hout.
    intros Hname. apply list_elem_of_singleton in Hname. discriminate Hname.
Defined.

(** The table of the game on the sample legs: the pelvis, moved to
    height 10 in the sample, gets the position and rotation of the
    table. *)
Lemma restore_after_init_witness :
  let table := getSkeletonNodesDefaultTransforms sample_getTransform in
  NoDup table.*1 /\
  exists d, (list_to_map table : gmap string NiTransform) !! "Pelvis" = Some d /\
    restoreNodesToDefault (initSkeletonNodesDefaults table sample_leg_nodes [])
      sample_leg_nodes !! "Pelvis"
    = Some (mkNode (mkTransform (rot d) (pos d) (lit 1)) (sample_transform (pt 0 0 10))).
Proof.
  intros table.
  assert (Hnames : NoDup table.*1)
    by (apply (bool_decide_unpack _); vm_compute; exact I).
  split; [exact Hnames|].
  assert (Hrow : (fun _ => tt) <$> ((list_to_map table : gmap string NiTransform) !! "Pelvis")
                 = Some tt) by (vm_compute; reflexivity).
  pose proof (restore_after_init table sample_leg_nodes sample_leg_nodes "Pelvis" Hnames)
    as Hrestore.
  cbv zeta in Hrestore.
  destruct ((list_to_map table : gmap string NiTransform) !! "Pelvis") as [d|];
    [|discriminate Hrow].
  exists d. split; [reflexivity|]. exact Hrestore.
Defined.

(** Feet 10 units apart, outside power armor: 4 units apart after
    the correction. *)
Lemma walk_feet_distance_witness :
  let lFoot := sample_node (H := XR.scalar) (pt 0 0 0) in
  let rFoot := sample_node (H := XR.scalar) (pt 10 0 0) in
  x (foot_pos (snd (walk_feet sample_fast lFoot rFoot))
     -v foot_pos (fst (walk_feet sample_fast lFoot rFoot))) = XR.Fin 4.
Proof.
  intros lFoot rFoot.
  destruct (walk_feet_distance sample_fast lFoot rFoot
              (Q2R 0) (Q2R 0) (Q2R 0) (Q2R 10) (Q2R 0) (Q2R 0) eq_refl eq_refl)
    as [Hdiff _].
  rewrite Hdiff. unfold real_point. cbn [x]. f_equal.
  change (_inPowerArmor (H := XR.scalar) sample_fast) with false. cbv iota.
  unfold Q2R. simpl. lra.
Defined.

(** A thigh of 4 on a calf of 5 with the foot 10 units from the hip,
    and an arm of 10 + 10 with the hand 25 units from the shoulder. *)
Lemma stretched_solve_witness :
  (exists t c a, leg_solve (H := XR.scalar) (XR.Fin 4) (XR.Fin 5) (XR.Fin 10)
                 = (XR.Fin t, XR.Fin c, XR.Fin a) /\ t + c = 10 + 1 / 5)%R /\
  (exists u f a, arm_solve (H := XR.scalar) (XR.Fin 10) (XR.Fin 10) (XR.Fin 1) (XR.Fin 25)
                 = (XR.Fin u, XR.Fin f, XR.Fin a) /\ u + f = 25 + 1 / 5)%R.
Proof.
  pose proof (stretched_solve 4 5 10 10 10 1 25
                ltac:(lra) ltac:(lra) ltac:(lra) ltac:(lra) ltac:(lra) ltac:(lra) ltac:(lra))
    as [Hleg Harm].
  cbv zeta in Hleg, Harm.
  destruct Hleg as (Hlsum & _ & _ & _ & Hlsolve).
  destruct Harm as (Hasum & _ & _ & _ & Hasolve).
  split.
  - eexists _, _, _. split; [exact Hlsolve|exact Hlsum].
  - eexists _, _, _. split; [exact Hasolve|exact Hasum].
Defined.

(** The sample player with the hands crossed, in exact arithmetic. *)
Lemma neckYaw_weight_range_witness :
  exists w, neckYaw_weight (H := XR.scalar) sample_player = XR.Fin w /\ (0 <= w <= 1)%R.
Proof.
  exact (neckYaw_weight_range sample_player
           (Q2R 0) (Q2R 0) (Q2R 0) (Q2R 30) (Q2R 10) (Q2R 0) (Q2R 5) (Q2R (-10)) (Q2R 0)
           (Q2R 1) (Q2R 0) (Q2R 0) (Q2R 0) (Q2R 1) (Q2R 0) (Q2R 0) (Q2R 0) (Q2R 1)
           eq_refl eq_refl eq_refl eq_refl).
Defined.

(** The sample body in exact arithmetic, with helpers that return
    their first argument: the root keeps its height 5 under the
    camera. *)
Lemma setBodyUnderHMD_places_root_witness :
  exists st' root',
    setBodyUnderHMD (H := XR.scalar) (fun q _ _ => q) (lit 120) (fun st => st)
      sample_body_input sample_body = Some st' /\
    body_root st' = Some root' /\
    pos (m_localTransform root')
    = @mkPoint XR.scalar (XR.Fin 0) (XR.Fin 0) (lit (Scalar := XR.scalar) 5) /\
    scale (m_localTransform root')
    = XR.div (lit (Scalar := XR.scalar) 120) (lit (Scalar := XR.scalar) 120).
Proof.
  destruct (setBodyUnderHMD_places_root (fun q _ _ => q) (lit 120) (fun st => st)
              sample_body_input sample_body
              (sample_node (pt 0 0 5)) (sample_node (pt 1 1 0))
              (Q2R 3) (Q2R 4) (Q2R 70) eq_refl eq_refl eq_refl)
    as (st' & root' & body' & Hset & Hroot & _ & Hpos & Hscale & _).
  exists st', root'. split; [exact Hset|]. split; [exact Hroot|].
  split; [exact Hpos|exact Hscale].
Defined.

(** The same body in selfie mode: the root is put 120 units out. *)
Lemma selfieSkelly_after_setBodyUnderHMD_witness :
  exists st' st'' root'',
    setBodyUnderHMD (H := XR.scalar) (fun q _ _ => q) (lit 120) (fun st => st)
      sample_body_input sample_body = Some st' /\
    selfieSkelly (fun m => m) sample_body_input st' = Some st'' /\
    body_root st'' = Some root'' /\
    x (pos (m_localTransform root'')) = XR.Fin 0 /\
    y (pos (m_localTransform root'')) = XR.Fin (Q2R 120).
Proof.
  destruct (setBodyUnderHMD (H := XR.scalar) (fun q _ _ => q) (lit 120) (fun st => st)
              sample_body_input sample_body) as [st'|] eqn:Hbody.
  - destruct (selfieSkelly_after_setBodyUnderHMD (fun q _ _ => q) (fun m => m) (lit 120)
                (fun st => st) sample_body_input sample_body st'
                (Q2R 3) (Q2R 4) (Q2R 70) (Q2R 120) Hbody eq_refl eq_refl)
      as (st'' & Hselfie & Hrest).
    change (getSelfieMode (H := XR.scalar) sample_body_input) with true in Hrest.
    cbv iota in Hrest.
    destruct Hrest as (root' & root'' & _ & Hroot & Hpos & _).
    exists st', st'', root''. split; [reflexivity|]. split; [exact Hselfie|].
    split; [exact Hroot|]. rewrite Hpos. split; reflexivity.
  - exfalso. discriminate Hbody.
Defined.
